(** * cfdm: compression and decompression of field data

    A shallow embedding of

    - the subarray descriptor generator
      [RaggedIndexedContiguousArray.subarrays]
      (cfdm/data/raggedindexedcontiguousarray.py);
    - [Field.compress], [Field.uncompress], [Field.transpose],
      [Field.__getitem__], [Field.insert_dimension] and [Field.squeeze]
      (cfdm/field.py);
    - [SampledLinearArray.__getitem__] and
      [SampledLinearArray._linear_interpolation]
      (cfdm/data/subsampledlineararray.py);
    - the vector formulas of the quadratic geographic interpolation,
      among them [_fcea2cv], [_fcv2cea], [_fll2v], [_fv2lat] and
      [_fv2lon]
      (cfdm/data/subarray/mixin/quadraticgeographicinterpolation.py);
    - [CellMeasure.identity] and [CellMeasure.identities]
      (cfdm/cellmeasure.py).

    Sizes, counts and positions are natural numbers; array elements are
    [option] values, [None] standing for the masked constant
    [cfdm_masked]; floating-point values are idealised as real numbers.
    A Python exception is a result [Raise e]; a method that changes the
    field in place is a function from the field to the field afterwards
    and the outcome.  The classes [Data] and the decoders of the
    compressed arrays are not among the sources: what is used of them is
    modelled from the specification and marked so. *)

From Stdlib Require Import Ascii String.
From Stdlib Require Import List Arith ZArith Bool Lia PeanoNat Sorted.
From Stdlib Require Import Reals Lra.
Import ListNotations.

Set Implicit Arguments.

(* ================================================================== *)
(** * Exceptions                                                       *)
(* ================================================================== *)

Inductive exn : Type :=
| ValueError
| IndexError
| NameError
| TypeError.

Inductive result (A : Type) : Type :=
| Return : A -> result A
| Raise : exn -> result A.

Arguments Return {A} _.
Arguments Raise {A} _.

Definition bind {A B : Type} (m : result A) (k : A -> result B) : result B :=
  match m with
  | Return a => k a
  | Raise e => Raise e
  end.

Notation "x <- m ;; k" := (bind m (fun x => k))
  (at level 61, m at next level, right associativity).

Definition raises {A : Type} (m : result A) : Prop :=
  exists e, m = Raise e.

(** [l[i]] on a Python list: positions past the end raise. *)
Definition getitem {A : Type} (l : list A) (i : nat) : result A :=
  match nth_error l i with
  | Some a => Return a
  | None => Raise IndexError
  end.

(** [l[i] = v] on a Python list. *)
Fixpoint setitem {A : Type} (l : list A) (i : nat) (v : A) : result (list A) :=
  match l, i with
  | [], _ => Raise IndexError
  | _ :: t, 0 => Return (v :: t)
  | a :: t, S i' => t' <- setitem t i' v ;; Return (a :: t')
  end.

Fixpoint mapM {A B : Type} (f : A -> result B) (l : list A) : result (list B) :=
  match l with
  | [] => Return []
  | a :: t => b <- f a ;; bs <- mapM f t ;; Return (b :: bs)
  end.

(* ================================================================== *)
(** * numpy and itertools helpers                                      *)
(* ================================================================== *)

Definition sum_list (l : list nat) : nat := fold_right Nat.add 0 l.

(** [np.cumsum]: running totals. *)
Fixpoint cumsum_from (acc : nat) (l : list nat) : list nat :=
  match l with
  | [] => []
  | x :: t => (acc + x) :: cumsum_from (acc + x) t
  end.

Definition np_cumsum (l : list nat) : list nat := cumsum_from 0 l.

(** [np.unique]: the sorted distinct values. *)
Fixpoint insert_unique (x : nat) (l : list nat) : list nat :=
  match l with
  | [] => [x]
  | y :: t =>
      if x <? y then x :: l
      else if x =? y then l
      else y :: insert_unique x t
  end.

Definition np_unique (l : list nat) : list nat :=
  fold_right insert_unique [] l.

(** [np.where(index == i)[0]]: the positions holding [i], ascending. *)
Definition np_where_eq (index : list nat) (i : nat) : list nat :=
  map fst
    (filter (fun p => snd p =? i) (combine (seq 0 (length index)) index)).

(** [itertools.product] of a list of sequences: the last component
    varies fastest. *)
Fixpoint product {A : Type} (ls : list (list A)) : list (list A) :=
  match ls with
  | [] => [[]]
  | l :: rest => flat_map (fun x => map (cons x) (product rest)) l
  end.

(* ================================================================== *)
(** * Slices                                                           *)
(* ================================================================== *)

(** [slice(start, stop)]; [None] for an omitted bound. *)
Record pyslice : Type := Slice { sl_start : option nat; sl_stop : option nat }.

Definition slice_all : pyslice := Slice None None.
Definition slice_of (a b : nat) : pyslice := Slice (Some a) (Some b).

(** The positions a slice selects in a sequence of length [n]. *)
Definition slice_lo (s : pyslice) : nat :=
  match sl_start s with Some a => a | None => 0 end.

Definition slice_hi (n : nat) (s : pyslice) : nat :=
  match sl_stop s with Some b => Nat.min b n | None => n end.

Definition slice_len (n : nat) (s : pyslice) : nat :=
  slice_hi n s - slice_lo s.

(** [seq[s]] *)
Definition take_slice {A : Type} (l : list A) (s : pyslice) : list A :=
  firstn (slice_len (length l) s) (skipn (slice_lo s) l).

(* ================================================================== *)
(** * RaggedIndexedContiguousArray.subarrays                           *)
(* ================================================================== *)

Record RaggedIndexedContiguousArray : Type := {
  ric_shape : list nat;          (* self.shape *)
  ric_source_ndim : nat;         (* self.source().ndim *)
  ric_count : list nat;          (* self.get_count() *)
  ric_index : list nat           (* self.get_index() *)
}.

(** The slice of the sample dimension held by profile [j]. *)
Definition profile_slice (count_partial_sums : list nat) (j : nat)
  : result pyslice :=
  start <- match j with
           | 0 => Return 0
           | S j' => getitem count_partial_sums j'
           end ;;
  stop <- getitem count_partial_sums j ;;
  Return (slice_of start stop).

(** One pass of the loop over features: the slices of feature [i]'s
    profiles, then the zero-sized slices of its missing profiles. *)
Definition feature_slices (max_n_profiles : nat) (index cps : list nat)
  (i : nat) : result (list pyslice) :=
  let profile_locations := np_where_eq index i in
  sl <- mapM (profile_slice cps) profile_locations ;;
  Return (sl ++ repeat (slice_of 0 0)
                  (max_n_profiles - length profile_locations)).

Fixpoint concatM {A : Type} (l : list (result (list A))) : result (list A) :=
  match l with
  | [] => Return []
  | m :: t => a <- m ;; r <- concatM t ;; Return (a ++ r)
  end.

Definition compressed_slices (max_n_profiles : nat) (index count : list nat)
  : result (list pyslice) :=
  let unique := np_unique index in
  let count_partial_sums := np_cumsum count in
  concatM (map (feature_slices max_n_profiles index count_partial_sums) unique).

Record descriptors : Type := {
  u_indices : list (list pyslice);
  u_shapes : list (list nat);
  c_indices : list (list pyslice);
  locations : list (list nat)
}.

Definition subarrays (x : RaggedIndexedContiguousArray) : result descriptors :=
  let u_dim1 := 0 in
  let u_dim2 := 1 in
  let d1 := 0 in
  let uncompressed_shape := ric_shape x in
  n_features <- getitem uncompressed_shape u_dim1 ;;
  max_n_profiles <- getitem uncompressed_shape u_dim2 ;;
  let ndim := length uncompressed_shape in
  ui <- setitem (repeat [slice_all] ndim) u_dim1
          (map (fun i => slice_of i (i + 1)) (seq 0 n_features)) ;;
  ui <- setitem ui u_dim2
          (map (fun j => slice_of j (j + 1)) (seq 0 max_n_profiles)) ;;
  loc <- setitem (repeat [0] ndim) u_dim1 (seq 0 n_features) ;;
  loc <- setitem loc u_dim2 (seq 0 max_n_profiles) ;;
  us <- setitem (map (fun n => [n]) uncompressed_shape) u_dim1
          (repeat 1 n_features) ;;
  us <- setitem us u_dim2 (repeat 1 max_n_profiles) ;;
  ind <- compressed_slices max_n_profiles (ric_index x) (ric_count x) ;;
  ci <- setitem (repeat [slice_all] (ric_source_ndim x)) d1 ind ;;
  Return {| u_indices := product ui;
            u_shapes := product us;
            c_indices := product ci;
            locations := product loc |}.

(** The example of the docstring: shape (2, 3, 4); the sample dimension
    holds four profiles at (0,1,2,3), (4,5), (6,7,8) and (9,10,11), of
    which the third belongs to the second feature and the others to the
    first. *)
Definition scenario_ric : RaggedIndexedContiguousArray :=
  {| ric_shape := [2; 3; 4];
     ric_source_ndim := 1;
     ric_count := [4; 2; 3; 3];
     ric_index := [0; 0; 1; 0] |}.

(** An array with two features of which only the second has a profile:
    what [Field.compress] stores for the 2 x 1 x 2 array whose first
    feature is entirely missing. *)
Definition empty_feature_ric : RaggedIndexedContiguousArray :=
  {| ric_shape := [2; 1; 2];
     ric_source_ndim := 1;
     ric_count := [2];
     ric_index := [1] |}.

(** Membership of a position in a slice, as a test. *)
Definition slice_has (k : nat) (s : pyslice) : bool :=
  match sl_start s, sl_stop s with
  | Some a, Some b => (a <=? k) && (k <? b)
  | Some a, None => a <=? k
  | None, Some b => k <? b
  | None, None => true
  end.

(** How many of the slices hold position [k]. *)
Definition holders (k : nat) (l : list pyslice) : nat :=
  List.length (filter (slice_has k) l).

(* ================================================================== *)
(** * Data                                                             *)
(* ================================================================== *)

Definition prod_list (l : list nat) : nat := fold_right Nat.mul 1 l.

(** The array underlying a [Data] object: an array in memory, or one of
    the compressed arrays with its auxiliary variables.  Compressed
    values are held along a single sample dimension. *)
Inductive source (V : Type) : Type :=
| NumpyArray (values : list (option V))
| RaggedContiguousArray (compressed : list (option V))
    (count_variable : list nat)
| RaggedIndexedArray (compressed : list (option V))
    (index_variable : list nat)
| RaggedIndexedContiguous (compressed : list (option V))
    (count_variable index_variable : list nat)
| GatheredArray (compressed : list (option V)) (list_variable : list nat).

Record Data (V : Type) : Type := {
  data_shape : list nat;
  data_source : source V
}.

Definition data_ndim (V : Type) (d : Data V) : nat :=
  List.length (data_shape d).

Definition get_compression_type (V : Type) (d : Data V) : string :=
  match data_source d with
  | NumpyArray _ => EmptyString
  | RaggedContiguousArray _ _ => "ragged contiguous"
  | RaggedIndexedArray _ _ => "ragged indexed"
  | RaggedIndexedContiguous _ _ _ => "ragged indexed contiguous"
  | GatheredArray _ _ => "gathered"
  end.

(** [s.replace(' ', '_')] *)
Fixpoint replace_space (s : string) : string :=
  match s with
  | EmptyString => EmptyString
  | String c t =>
      String (if Ascii.eqb c " "%char then "_"%char else c) (replace_space t)
  end.

(** ** Decoding *)

Definition prefix_sum (count : list nat) (j : nat) : nat :=
  sum_list (firstn j count).

(** The run of feature [j]: boundaries at the cumulative sums of Count. *)
Definition pslice (count : list nat) (j : nat) : pyslice :=
  slice_of (prefix_sum count j) (prefix_sum count (S j)).

(** Modelled from the spec: the decode step of the ragged arrays (the
    decoders of cfdm/data are not part of this source tree).  The
    uncompressed window of a subarray is pre-filled with the missing
    marker and receives min(source length, destination length) elements
    of the compressed slice. *)
Definition decode_subarray (V : Type) (compressed : list (option V))
  (n_elements : nat) (c : pyslice) : list (option V) :=
  let src := take_slice compressed c in
  let n := Nat.min (List.length src) n_elements in
  firstn n src ++ repeat None (n_elements - n).

(** Modelled from the spec: contiguous ragged decoding.  Feature [i]'s
    elements occupy the run bounded by the cumulative sums of Count; the
    run is copied into row [i] and the rest of the row is missing.  Rows
    past the end of Count stay missing. *)
Definition decode_contiguous (V : Type) (n_features n_elements : nat)
  (compressed : list (option V)) (count : list nat) : list (option V) :=
  concat
    (map (fun i =>
            if i <? List.length count
            then decode_subarray compressed n_elements (pslice count i)
            else repeat None n_elements)
         (seq 0 n_features)).

(** Modelled from the spec: indexed ragged decoding.  Element [j]
    belongs to feature [Index[j]]; the elements of a feature fill its
    row in compressed order and the rest of the row is missing. *)
Definition decode_indexed (V : Type) (n_features n_elements : nat)
  (compressed : list (option V)) (index : list nat) : list (option V) :=
  concat
    (map (fun i =>
            let own := map snd (filter (fun p => fst p =? i)
                                  (combine index compressed)) in
            firstn n_elements own
            ++ repeat None (n_elements - List.length own))
         (seq 0 n_features)).

Definition sample_slices (d : descriptors) : list pyslice :=
  map (fun c => hd slice_all c) (c_indices d).

(** Modelled from the spec: the indexed contiguous decoder visits the
    four descriptor sequences in step and fills the window at each
    location. *)
Definition decode_ric (V : Type) (compressed : list (option V))
  (n_elements : nat) (d : descriptors)
  : list (list nat * list (option V)) :=
  combine (locations d)
    (map (decode_subarray compressed n_elements) (sample_slices d)).

Definition location_eqb (a b : list nat) : bool :=
  if list_eq_dec Nat.eq_dec a b then true else false.

Definition decode_indexed_contiguous (V : Type)
  (n_features n_profiles n_elements : nat)
  (compressed : list (option V)) (count index : list nat)
  : result (list (option V)) :=
  d <- subarrays {| ric_shape := [n_features; n_profiles; n_elements];
                    ric_source_ndim := 1;
                    ric_count := count;
                    ric_index := index |} ;;
  let writes := decode_ric compressed n_elements d in
  Return
    (concat
       (map (fun loc =>
               match find (fun w => location_eqb (fst w) loc) (rev writes) with
               | Some w => snd w
               | None => repeat None n_elements
               end)
          (product [seq 0 n_features; seq 0 n_profiles; [0]]))).

(** Modelled from the spec: decoding by gathering over all the
    dimensions.  Compressed element [i] fills the flat position
    [List[i]]; the other positions are missing. *)
Definition decode_gathered (V : Type) (size : nat)
  (compressed : list (option V)) (list_variable : list nat)
  : list (option V) :=
  map (fun g =>
         match find (fun p => fst p =? g) (rev (combine list_variable compressed)) with
         | Some p => snd p
         | None => None
         end)
      (seq 0 size).

(** [data.array]: the uncompressed elements in row-major order. *)
Definition data_array (V : Type) (d : Data V) : result (list (option V)) :=
  match data_source d, data_shape d with
  | NumpyArray values, _ => Return values
  | RaggedContiguousArray c count, [n; m] =>
      Return (decode_contiguous n m c count)
  | RaggedIndexedArray c index, [n; m] =>
      Return (decode_indexed n m c index)
  | RaggedIndexedContiguous c count index, [n; p; m] =>
      decode_indexed_contiguous n p m c count index
  | GatheredArray c l, shape => Return (decode_gathered (prod_list shape) c l)
  | _, _ => Raise ValueError
  end.

(** Modelled from the spec: [Data.uncompress] replaces the underlying
    array by the decoded one. *)
Definition data_uncompress (V : Type) (d : Data V) : result (Data V) :=
  match data_source d with
  | NumpyArray _ => Return d
  | _ =>
      values <- data_array d ;;
      Return {| data_shape := data_shape d; data_source := NumpyArray values |}
  end.

(** [n] rows of [m] elements. *)
Fixpoint chunks (A : Type) (n m : nat) (l : list A) : list (list A) :=
  match n with
  | 0 => []
  | S n' => firstn m l :: chunks n' m (skipn m l)
  end.

(** [data.flatten(range(data.ndim - 1))], iterated: the rows along the
    last dimension.  Iterating data of fewer than two dimensions does
    not give rows. *)
Definition flattened_rows (V : Type) (d : Data V)
  : result (list (list (option V))) :=
  values <- data_array d ;;
  match rev (data_shape d) with
  | m :: (_ :: _) as lead => Return (chunks (prod_list lead) m values)
  | _ => Raise TypeError
  end.


(** ** Transposition *)

Fixpoint unravel (shape : list nat) (p : nat) : list nat :=
  match shape with
  | [] => []
  | _ :: rest => (p / prod_list rest) :: unravel rest (p mod prod_list rest)
  end.

Fixpoint ravel (shape idx : list nat) : nat :=
  match shape, idx with
  | _ :: rest, i :: idx' => i * prod_list rest + ravel rest idx'
  | _, _ => 0
  end.

Fixpoint index_of (k : nat) (l : list nat) : option nat :=
  match l with
  | [] => None
  | x :: t => if x =? k then Some 0 else option_map S (index_of k t)
  end.

(** Modelled from the spec: [numpy.transpose] on row-major values; new
    axis [j] is the old axis [axes[j]]. *)
Definition transpose_values (V : Type) (shape axes : list nat)
  (values : list (option V)) : list (option V) :=
  let new_shape := map (fun a => nth a shape 0) axes in
  map (fun p =>
         let idx' := unravel new_shape p in
         let idx := map (fun k => match index_of k axes with
                                  | Some j => nth j idx' 0
                                  | None => 0
                                  end)
                        (seq 0 (List.length shape)) in
         nth (ravel shape idx) values None)
      (seq 0 (prod_list new_shape)).

Definition is_permutation (ndim : nat) (axes : list nat) : bool :=
  (List.length axes =? ndim)
  && forallb (fun k => existsb (Nat.eqb k) axes) (seq 0 ndim).

(** Modelled from the spec: [Data.transpose] (cfdm/data/data.py is not
    part of this source tree).  The axes are permuted; the order
    [range(ndim)] leaves the data as it is. *)
Definition data_transpose (V : Type) (iaxes : list nat) (d : Data V)
  : result (Data V) :=
  if negb (is_permutation (data_ndim d) iaxes) then Raise ValueError
  else if list_eq_dec Nat.eq_dec iaxes (seq 0 (data_ndim d)) then Return d
  else
    values <- data_array d ;;
    Return {| data_shape := map (fun a => nth a (data_shape d) 0) iaxes;
              data_source :=
                NumpyArray (transpose_values (data_shape d) iaxes values) |}.

(* ================================================================== *)
(** * Field                                                            *)
(* ================================================================== *)

(** A metadata construct: the domain axes it spans and its data. *)
Record Construct (V : Type) : Type := {
  c_axes : list string;
  c_data : option (Data V)
}.

(** A field construct: its data, the keys of the domain axis constructs
    the data spans, the sizes of the domain axis constructs and the
    metadata constructs that hold data, all by key. *)
Record Field (V : Type) : Type := {
  f_data : option (Data V);
  f_data_axes : list string;
  f_domain_axes : list (string * nat);
  f_constructs : list (string * Construct V)
}.

Definition set_data (V : Type) (f : Field V) (d : Data V) : Field V :=
  {| f_data := Some d;
     f_data_axes := f_data_axes f;
     f_domain_axes := f_domain_axes f;
     f_constructs := f_constructs f |}.

Definition set_data_axes (V : Type) (f : Field V) (axes : list string)
  : Field V :=
  {| f_data := f_data f;
     f_data_axes := axes;
     f_domain_axes := f_domain_axes f;
     f_constructs := f_constructs f |}.

Definition set_constructs (V : Type) (f : Field V)
  (cs : list (string * Construct V)) : Field V :=
  {| f_data := f_data f;
     f_data_axes := f_data_axes f;
     f_domain_axes := f_domain_axes f;
     f_constructs := cs |}.

(** Methods act on the field in place and may raise: a computation takes
    the field and gives the field as it is afterwards with the outcome. *)
Definition M (V A : Type) : Type := Field V -> Field V * result A.

Definition mret (V A : Type) (a : A) : M V A := fun f => (f, Return a).

Definition mbind (V A B : Type) (m : M V A) (k : A -> M V B) : M V B :=
  fun f =>
    match m f with
    | (f', Return a) => k a f'
    | (f', Raise e) => (f', Raise e)
    end.

Definition lift (V A : Type) (r : result A) : M V A := fun f => (f, r).
Definition get (V : Type) : M V (Field V) := fun f => (f, Return f).
Definition put (V : Type) (f' : Field V) : M V unit := fun _ => (f', Return tt).

Arguments mret {V A} a _.
Arguments lift {V A} r _.
Arguments get {V} _.
Arguments put {V} f' _.

Notation "x <~ m ;; k" := (mbind m (fun x => k))
  (at level 61, m at next level, right associativity).

Fixpoint for_each (V A : Type) (l : list A) (body : A -> M V unit) : M V unit :=
  match l with
  | [] => mret tt
  | a :: t => _ <~ body a ;; for_each t body
  end.

(** The decorator [_inplace_enabled]: the method body runs on the field
    itself and None is returned, or it runs on a copy, which is
    returned, and the field is left alone. *)
Definition inplace_enabled (V : Type) (body : M V unit) (self : Field V)
  (inplace : bool) : Field V * result (option (Field V)) :=
  match body self with
  | (f, Return _) => if inplace then (f, Return None) else (self, Return (Some f))
  | (f, Raise e) => if inplace then (f, Raise e) else (self, Raise e)
  end.

(** [f.data]: raises when the field has no data. *)
Definition field_data (V : Type) (f : Field V) : result (Data V) :=
  match f_data f with
  | Some d => Return d
  | None => Raise ValueError
  end.

Definition mem_string (a : string) (l : list string) : bool :=
  existsb (String.eqb a) l.

(** [l.insert(i, x)] *)
Definition list_insert (A : Type) (i : nat) (x : A) (l : list A) : list A :=
  firstn i l ++ x :: skipn i l.

(** [l.index(x)] *)
Fixpoint list_index (x : string) (l : list string) : result nat :=
  match l with
  | [] => Raise ValueError
  | y :: t => if String.eqb y x then Return 0
              else i <- list_index x t ;; Return (S i)
  end.

(** The axis order of a construct after the field's axes were put in
    the order [new_data_axes]. *)
Definition reorder_construct_axes (new_data_axes construct_axes : list string)
  : list string :=
  fold_left
    (fun acc p => if mem_string (snd p) acc then acc
                  else list_insert (fst p) (snd p) acc)
    (combine (seq 0 (List.length construct_axes)) construct_axes)
    (filter (fun axis => mem_string axis construct_axes) new_data_axes).

(** One pass of the loop over the metadata constructs in
    [Field.transpose]. *)
Definition transpose_construct (V : Type) (new_data_axes : list string)
  (i : nat) : M V unit :=
  f <~ get ;;
  kc <~ lift (getitem (f_constructs f) i) ;;
  match c_data (snd kc) with
  | None => mret tt
  | Some data =>
      if data_ndim data <? 2 then mret tt
      else
        let construct_axes := c_axes (snd kc) in
        let new_construct_axes :=
          reorder_construct_axes new_data_axes construct_axes in
        iaxes <~ lift (mapM (fun axis => list_index axis construct_axes)
                           new_construct_axes) ;;
        data' <~ lift (data_transpose iaxes data) ;;
        cs <~ lift (setitem (f_constructs f) i
                        (fst kc, {| c_axes := new_construct_axes;
                                    c_data := Some data' |})) ;;
        put (set_constructs f cs)
  end.

(** [Field.transpose(axes, constructs, inplace=True)] *)
Definition transpose (V : Type) (axes : option (list nat)) (constructs : bool)
  : M V unit :=
  f <~ get ;;
  data <~ lift (field_data f) ;;
  let ndim := data_ndim data in
  let iaxes := match axes with
               | Some a => a
               | None => rev (seq 0 ndim)
               end in
  let data_axes := f_data_axes f in
  data' <~ lift (data_transpose iaxes data) ;;
  _ <~ put (set_data f data') ;;
  new_data_axes <~ lift (mapM (getitem data_axes) iaxes) ;;
  _ <~ put (set_data_axes (set_data f data') new_data_axes) ;;
  if constructs
  then for_each (seq 0 (List.length (f_constructs f)))
         (transpose_construct new_data_axes)
  else mret tt.

(** ** Field.compress *)

(** The inner loop over a reversed row: [last] drops by one for each
    trailing missing value. *)
Fixpoint trim (V : Type) (last : nat) (reversed : list (option V)) : nat :=
  match reversed with
  | None :: t => trim (last - 1) t
  | _ => last
  end.

Definition row_count (V : Type) (d : list (option V)) : nat :=
  trim (List.length d) (rev d).

(** [_empty_compressed_data(data, (N,))] *)
Definition empty_compressed_data (V : Type) (N : nat) : list (option V) :=
  repeat None N.

(** [buf[start:stop] = vals]; a single value is broadcast. *)
Definition assign_slice (V : Type) (buf : list (option V)) (start stop : nat)
  (vals : list (option V)) : result (list (option V)) :=
  let n := List.length buf in
  let lo := Nat.min start n in
  let hi := Nat.max lo (Nat.min stop n) in
  if List.length vals =? hi - lo
  then Return (firstn lo buf ++ vals ++ skipn hi buf)
  else match vals with
       | [v] => Return (firstn lo buf ++ repeat v (hi - lo) ++ skipn hi buf)
       | _ => Raise ValueError
       end.

(** The loop [for last, d in zip(count, flattened_data)] that fills the
    compressed array. *)
Fixpoint fill_rows (V : Type) (rows : list (nat * list (option V)))
  (start : nat) (buf : list (option V)) : result (list (option V)) :=
  match rows with
  | [] => Return buf
  | (last, d) :: t =>
      if last =? 0 then fill_rows t start buf
      else
        buf' <- assign_slice buf start (start + last) (firstn last d) ;;
        fill_rows t (start + last) buf'
  end.

(** [sum(n > 0 for n in count[start:stop])] *)
Definition count_positive (count : list nat) (start stop : nat) : nat :=
  List.length (filter (fun n => 0 <? n) (firstn (stop - start) (skipn start count))).

(** The loop [for i, d in enumerate(...)] that fills the compressed
    array of a construct spanning the features and the profiles. *)
Fixpoint fill_profiles (V : Type) (shape1 : nat) (count : list nat)
  (rows : list (nat * list (option V))) (start : nat)
  (buf : list (option V)) : result (list (option V)) :=
  match rows with
  | [] => Return buf
  | (i, d) :: t =>
      let c_start := shape1 * i in
      let c_end := c_start + shape1 in
      let last := count_positive count c_start c_end in
      buf' <- assign_slice buf start (start + last) (firstn last d) ;;
      fill_profiles shape1 count t (start + last) buf'
  end.

(** [[n for n in count if n]] *)
Definition nonzero (count : list nat) : list nat :=
  filter (fun n => negb (n =? 0)) count.

(** The index variable of the indexed representation: feature [i]
    repeated over its [last] elements. *)
Definition indexed_index (count : list nat) : list nat :=
  concat (map (fun p => repeat (fst p) (snd p))
            (combine (seq 0 (List.length count)) count)).

(** The index variable of the indexed contiguous representation. *)
Definition indexed_contiguous_index (shape0 shape1 : nat) (count : list nat)
  : list nat :=
  concat (map (fun i =>
                 repeat i (count_positive count (shape1 * i)
                             (shape1 * i + shape1)))
            (seq 0 shape0)).

(** One pass of the loop of [_compress_metadata] (the bounds of a
    construct, which repeat the same steps, are left out).  A construct
    that spans the axes and has no data makes the loop fail. *)
Definition compress_construct (V : Type) (method : string) (shape1 : nat)
  (count : list nat) (N : nat) (axes : list string)
  (Array_func : list (option V) -> source V) (i : nat) : M V unit :=
  f <~ get ;;
  kc <~ lift (getitem (f_constructs f) i) ;;
  if list_eq_dec string_dec (c_axes (snd kc)) axes
  then
    match c_data (snd kc) with
    | None => lift (Raise NameError)
    | Some data =>
        rows <~ lift (flattened_rows data) ;;
        compressed_data <~
          lift (if (method =? "indexed_contiguous")%string
                   && (data_ndim data =? 2)
                then fill_profiles shape1 count
                       (combine (seq 0 (List.length rows)) rows) 0
                       (empty_compressed_data V N)
                else fill_rows (combine count rows) 0
                       (empty_compressed_data V N)) ;;
        cs <~ lift (setitem (f_constructs f) i
                      (fst kc,
                       {| c_axes := c_axes (snd kc);
                          c_data :=
                            Some {| data_shape := data_shape data;
                                    data_source :=
                                      Array_func compressed_data |} |})) ;;
        put (set_constructs f cs)
    end
  else mret tt.

Definition compress_metadata (V : Type) (method : string) (count : list nat)
  (N : nat) (axes : list string)
  (Array_func : list (option V) -> source V) : M V unit :=
  f <~ get ;;
  shape1 <~ lift (if (method =? "indexed_contiguous")%string
                  then d <- field_data f ;; getitem (data_shape d) 1
                  else Return 0) ;;
  for_each (seq 0 (List.length (f_constructs f)))
    (compress_construct method shape1 count N axes Array_func).

(** The checks on the number of dimensions. *)
Definition check_ndim (method : string) (ndim : nat) : result unit :=
  if (method =? "contiguous")%string then
    if ndim =? 2 then Return tt else Raise ValueError
  else if (method =? "indexed")%string then
    if ndim =? 2 then Return tt else Raise ValueError
  else if (method =? "indexed_contiguous")%string then
    if ndim =? 3 then Return tt else Raise ValueError
  else Return tt.

(** [f.data._set_CompressedArray(x)] *)
Definition set_CompressedArray (V : Type) (x : source V) : M V unit :=
  f <~ get ;;
  data <~ lift (field_data f) ;;
  put (set_data f {| data_shape := data_shape data; data_source := x |}).

(** The body of [Field.compress], run on [f].  Compression by gathering
    skips the block that builds the ragged arrays and then meets the
    final [raise].  The data read before and after the transposition is
    one object, which the transposition changes in place. *)
Definition compress_body (V : Type) (method : string) : M V unit :=
  f <~ get ;;
  match f_data f with
  | None => mret tt
  | Some data =>
      let current_compression_type :=
        replace_space (get_compression_type data) in
      if negb (current_compression_type =? EmptyString)%string
         && (current_compression_type =? "ragged_" ++ method)%string
      then mret tt
      else
        _ <~ lift (check_ndim method (data_ndim data)) ;;
        _ <~ transpose (Some (seq 0 (data_ndim data))) true ;;
        if (method =? "gathered")%string then lift (Raise ValueError)
        else
          f <~ get ;;
          data <~ lift (field_data f) ;;
          flattened_data <~ lift (flattened_rows data) ;;
          let count := map (@row_count V) flattened_data in
          let N := sum_list count in
          compressed_field_data <~
            lift (fill_rows (combine count flattened_data) 0
                    (empty_compressed_data V N)) ;;
          if (method =? "contiguous")%string then
            let count_variable := nonzero count in
            let x := RaggedContiguousArray compressed_field_data
                       count_variable in
            _ <~ compress_metadata method count N (f_data_axes f)
                   (fun c => RaggedContiguousArray c count_variable) ;;
            set_CompressedArray x
          else if (method =? "indexed")%string then
            let index_variable := indexed_index count in
            let x := RaggedIndexedArray compressed_field_data
                       index_variable in
            _ <~ compress_metadata method count N (f_data_axes f)
                   (fun c => RaggedIndexedArray c index_variable) ;;
            set_CompressedArray x
          else if (method =? "indexed_contiguous")%string then
            shape0 <~ lift (getitem (data_shape data) 0) ;;
            shape1 <~ lift (getitem (data_shape data) 1) ;;
            let index := indexed_contiguous_index shape0 shape1 count in
            let count_variable := nonzero count in
            let x := RaggedIndexedContiguous compressed_field_data
                       count_variable index in
            _ <~ compress_metadata method count N (f_data_axes f)
                   (fun c => RaggedIndexedContiguous c count_variable index) ;;
            _ <~ compress_metadata method count (List.length index)
                   (removelast (f_data_axes f))
                   (fun c => RaggedIndexedArray c index) ;;
            set_CompressedArray x
          else lift (Raise ValueError)
  end.

(** [Field.compress(method, inplace=inplace)]: the field afterwards and
    what the call returns. *)
Definition compress (V : Type) (self : Field V) (method : string)
  (inplace : bool) : Field V * result (option (Field V)) :=
  inplace_enabled (compress_body method) self inplace.

(** ** Field.uncompress *)

Definition uncompress_construct (V : Type) (i : nat) : M V unit :=
  f <~ get ;;
  kc <~ lift (getitem (f_constructs f) i) ;;
  match c_data (snd kc) with
  | None => mret tt
  | Some data =>
      data' <~ lift (data_uncompress data) ;;
      cs <~ lift (setitem (f_constructs f) i
                    (fst kc, {| c_axes := c_axes (snd kc);
                                c_data := Some data' |})) ;;
      put (set_constructs f cs)
  end.

Definition uncompress_body (V : Type) : M V unit :=
  f <~ get ;;
  _ <~ match f_data f with
       | None => mret tt
       | Some data =>
           data' <~ lift (data_uncompress data) ;;
           put (set_data f data')
       end ;;
  for_each (seq 0 (List.length (f_constructs f))) (@uncompress_construct V).

Definition uncompress (V : Type) (self : Field V) (inplace : bool)
  : Field V * result (option (Field V)) :=
  inplace_enabled (@uncompress_body V) self inplace.

(** The docstring example of [Field.compress]: a 4 x 9 array with 3, 7,
    5 and 9 leading values in its rows. *)
Definition example_rows : list (list (option R)) :=
  [ map Some [3.98; 0; 0]%R ++ repeat None 6;
    map Some [0; 0; 0; 3.4; 0; 0; 4.61]%R ++ repeat None 2;
    map Some [0.86; 0.8; 0.75; 0; 4.56]%R ++ repeat None 4;
    map Some [0; 0.09; 0; 0.91; 2.96; 1.14; 3.86; 0; 0]%R ].

Definition example_field : Field R :=
  {| f_data := Some {| data_shape := [4; 9];
                       data_source := NumpyArray (concat example_rows) |};
     f_data_axes := ["domainaxis0"; "domainaxis1"]%string;
     f_domain_axes := [("domainaxis0", 4); ("domainaxis1", 9)]%string;
     f_constructs := [] |}.

(** The number of missing values at the start of a list, and at the
    end of a row. *)
Fixpoint leading_missing (V : Type) (l : list (option V)) : nat :=
  match l with
  | None :: t => S (leading_missing t)
  | _ => 0
  end.

Definition trailing_missing (V : Type) (d : list (option V)) : nat :=
  leading_missing (rev d).

(** A 3 x 2 array whose second row is entirely missing, and the array
    with its second and third rows exchanged. *)
Definition field_of_rows (rows : list (list (option nat))) : Field nat :=
  {| f_data := Some {| data_shape := [List.length rows; 2];
                       data_source := NumpyArray (concat rows) |};
     f_data_axes := ["domainaxis0"; "domainaxis1"]%string;
     f_domain_axes := [("domainaxis0", List.length rows); ("domainaxis1", 2)]%string;
     f_constructs := [] |}.

Definition empty_row_inside : Field nat :=
  field_of_rows [[Some 1; None]; [None; None]; [Some 2; Some 3]].

Definition empty_row_last : Field nat :=
  field_of_rows [[Some 1; None]; [Some 2; Some 3]; [None; None]].

(** A field construct without data. *)
Definition no_data_field : Field nat :=
  {| f_data := None; f_data_axes := []; f_domain_axes := [];
     f_constructs := [] |}.

(* ================================================================== *)
(** * Field.__getitem__                                                *)
(* ================================================================== *)

(** One component of an index expression. *)
Inductive index : Type :=
| Int (i : Z)
| SliceIndex (start stop step : option Z)
| ListIndex (l : list Z)
| Ellipsis.

Definition full_slice : index := SliceIndex None None None.

Definition is_ellipsis (idx : index) : bool :=
  match idx with Ellipsis => true | _ => false end.

(** Modelled from the spec: the expansion of an index expression to one
    component per dimension ([Data._parse_indices], cfdm/data/data.py, is
    not part of this source tree).  An ellipsis stands for the full
    slices that are needed to reach the number of dimensions; without an
    ellipsis the full slices are added at the end. *)
Definition expand_indices (ndim : nat) (indices : list index)
  : result (list index) :=
  let given := List.length (filter (fun i => negb (is_ellipsis i)) indices) in
  let dots := List.length (filter is_ellipsis indices) in
  if 1 <? dots then Raise IndexError
  else if ndim <? given then Raise IndexError
  else
    let fill := repeat full_slice (ndim - given) in
    Return (if dots =? 0 then indices ++ fill
            else flat_map (fun i => if is_ellipsis i then fill else [i])
                   indices).

(** An integer counted from the end when negative. *)
Definition normalise (size : nat) (i : Z) : result nat :=
  let i' := if (i <? 0)%Z then (i + Z.of_nat size)%Z else i in
  if ((0 <=? i') && (i' <? Z.of_nat size))%Z then Return (Z.to_nat i')
  else Raise IndexError.

(** Modelled from the spec: the normal form of one component, after the
    indexing rules in the docstring of [Field.__getitem__]: an integer
    index [i] takes the [i]-th element but does not reduce the rank, so
    it becomes the slice from [i] to [i + 1]. *)
Definition parse_index (size : nat) (idx : index) : result index :=
  match idx with
  | Int i =>
      i' <- normalise size i ;;
      Return (SliceIndex (Some (Z.of_nat i')) (Some (Z.of_nat i' + 1)%Z)
                (Some 1%Z))
  | SliceIndex start stop step =>
      match step with
      | Some 0%Z => Raise ValueError
      | _ => Return idx
      end
  | ListIndex l =>
      l' <- mapM (normalise size) l ;;
      Return (ListIndex (map Z.of_nat l'))
  | Ellipsis => Raise IndexError
  end.

Definition parse_indices (shape : list nat) (indices : list index)
  : result (list index) :=
  expanded <- expand_indices (List.length shape) indices ;;
  mapM (fun p => parse_index (fst p) (snd p)) (combine shape expanded).

(** The positions of [slice(start, stop, step)] in a sequence of the
    given size, as [slice.indices] and [range] give them. *)
Definition slice_positions (size : nat) (start stop step : option Z)
  : list nat :=
  let n := Z.of_nat size in
  let s := match step with Some s => s | None => 1%Z end in
  let lower := if (0 <? s)%Z then 0%Z else (-1)%Z in
  let upper := if (0 <? s)%Z then n else (n - 1)%Z in
  let clamp v :=
    if (v <? 0)%Z then Z.max (v + n) lower else Z.min v upper in
  let start' := match start with
                | Some v => clamp v
                | None => if (0 <? s)%Z then lower else upper
                end in
  let stop' := match stop with
               | Some v => clamp v
               | None => if (0 <? s)%Z then upper else lower
               end in
  let count :=
    if (0 <? s)%Z
    then (if (start' <? stop')%Z then (stop' - start' - 1) / s + 1 else 0)%Z
    else (if (stop' <? start')%Z then (start' - stop' - 1) / (- s) + 1
          else 0)%Z in
  map (fun k => Z.to_nat (start' + Z.of_nat k * s)%Z)
    (seq 0 (Z.to_nat count)).

(** The positions a parsed component selects along a dimension. *)
Definition index_positions (size : nat) (idx : index) : result (list nat) :=
  match idx with
  | SliceIndex start stop step => Return (slice_positions size start stop step)
  | ListIndex l => mapM (normalise size) l
  | Int i => p <- normalise size i ;; Return [p]
  | Ellipsis => Raise IndexError
  end.

(** Modelled from the spec: [Data.__getitem__] with parsed indices.  The
    components select independently along their dimensions (orthogonal
    indexing); the result has one dimension per component. *)
Definition data_getitem (V : Type) (d : Data V) (parsed : list index)
  : result (Data V) :=
  values <- data_array d ;;
  positions <- mapM (fun p => index_positions (fst p) (snd p))
                 (combine (data_shape d) parsed) ;;
  Return {| data_shape := map (@List.length nat) positions;
            data_source :=
              NumpyArray
                (map (fun idx => nth (ravel (data_shape d) idx) values None)
                   (product positions)) |}.

(** [domain_axes[key].set_size(size)] *)
Fixpoint set_size (key : string) (size : nat) (axes : list (string * nat))
  : list (string * nat) :=
  match axes with
  | [] => []
  | (k, n) :: t =>
      if String.eqb k key then (k, size) :: t
      else (k, n) :: set_size key size t
  end.

(** The indices of a construct: those of the data axes it spans, and
    full slices along its other axes. *)
Definition dice_of (data_axes : list string) (indices : list index)
  (construct_axes : list string) : result (bool * list index) :=
  dice <- mapM (fun axis =>
                  if mem_string axis data_axes
                  then i <- list_index axis data_axes ;;
                       idx <- getitem indices i ;;
                       Return (true, idx)
                  else Return (false, full_slice))
            construct_axes ;;
  Return (existsb fst dice, map snd dice).

Definition subspace_construct (V : Type) (data_axes : list string)
  (indices : list index) (kc : string * Construct V)
  : result (string * Construct V) :=
  let c := snd kc in
  if existsb (fun axis => mem_string axis data_axes) (c_axes c)
  then
    nd <- dice_of data_axes indices (c_axes c) ;;
    if fst nd then
      match c_data c with
      | Some data =>
          parsed <- parse_indices (data_shape data) (snd nd) ;;
          data' <- data_getitem data parsed ;;
          Return (fst kc, {| c_axes := c_axes c; c_data := Some data' |})
      | None => Return kc
      end
    else Return kc
  else Return kc.

(** [Field.__getitem__(indices)]: the new field. *)
Definition field_getitem (V : Type) (self : Field V) (indices : list index)
  : result (Field V) :=
  data <- field_data self ;;
  indices <- parse_indices (data_shape data) indices ;;
  let data_axes := f_data_axes self in
  new_data <- data_getitem data indices ;;
  let domain_axes :=
    fold_left (fun axes p => set_size (fst p) (snd p) axes)
      (combine data_axes (data_shape new_data)) (f_domain_axes self) in
  constructs <-
    (if match data_axes with [] => false | _ => true end
     then mapM (subspace_construct data_axes indices) (f_constructs self)
     else Return (f_constructs self)) ;;
  Return {| f_data := Some new_data;
            f_data_axes := data_axes;
            f_domain_axes := domain_axes;
            f_constructs := constructs |}.

(** The field of the docstring of [Field.__getitem__]: data of shape
    (1, 10, 9). *)
Definition docstring_data : Data nat :=
  {| data_shape := [1; 10; 9];
     data_source := NumpyArray (map Some (seq 0 90)) |}.

Definition docstring_field : Field nat :=
  {| f_data := Some docstring_data;
     f_data_axes := ["domainaxis0"; "domainaxis1"; "domainaxis2"]%string;
     f_domain_axes := [("domainaxis0", 1); ("domainaxis1", 10);
                       ("domainaxis2", 9)]%string;
     f_constructs := [] |}.

(** An index expression fits a shape when it has at most one ellipsis
    and no more other components than the shape has dimensions, every
    integer lies within the size of its dimension, counted from either
    end, and no slice has the step 0. *)
Definition in_range (size : nat) (i : Z) : bool :=
  ((- Z.of_nat size <=? i) && (i <? Z.of_nat size))%Z.

Definition valid_index (size : nat) (idx : index) : bool :=
  match idx with
  | Int i => in_range size i
  | SliceIndex _ _ (Some 0%Z) => false
  | SliceIndex _ _ _ => true
  | ListIndex l => forallb (in_range size) l
  | Ellipsis => false
  end.

Definition valid_indices (shape : list nat) (indices : list index) : bool :=
  match expand_indices (List.length shape) indices with
  | Return expanded =>
      forallb (fun p => valid_index (fst p) (snd p)) (combine shape expanded)
  | Raise _ => false
  end.

Definition result_shape (V : Type) (r : result (Field V)) : option (list nat) :=
  match r with
  | Return g => option_map (@data_shape V) (f_data g)
  | Raise _ => None
  end.

(* ================================================================== *)
(** * Linear interpolation between tie points                         *)
(* ================================================================== *)

Local Open Scope R_scope.

(** Modelled from the spec: the interpolation coefficients [_s(d, size)]
    (defined in subsampledgeneralarray.py, not part of this source
    tree).  [s] is a linear function of the position within the
    subarea, from 0 at its first position to 1 at its last, and
    [one_minus_s] is [1 - s]. *)
Definition s_coefficients (size : nat) : list R * list R :=
  let s := map (fun i => INR i / INR (size - 1)) (seq 0 size) in
  (s, map (fun t => 1 - t) s).

(** [_linear_interpolation(ua, ub, d, size, new_area)] for tie points
    along one subsampled dimension: [ua] and [ub] are the values at the
    two ends of the subarea. *)
Definition linear_interpolation (ua ub : R) (size : nat) (new_area : bool)
  : list R :=
  let (s, one_minus_s) := s_coefficients size in
  let u := map (fun c => ua * snd c + ub * fst c) (combine s one_minus_s) in
  if negb new_area then skipn 1 u else u.

(** An interpolation subarea: the position of its first tie point in
    the tie point array, the window of the uncompressed array it fills,
    its size, and whether it is the first of a continuous area. *)
Record subarea : Type := {
  tp_index : nat;
  u_start : nat;
  u_stop : nat;
  subarea_size : nat;
  new_area : bool
}.

(** Modelled from the spec: [interpolation_subareas] (defined in
    subsampledgeneralarray.py, not part of this source tree).  The
    subareas are the consecutive pairs of tie point indices, visited in
    index order; a pair of adjacent indices is the boundary between two
    continuous areas and is no subarea (the docstring of
    [SubsampledQuadraticArray] has three subareas for the tie point
    indices 0, 4, 7, 8, 11).  A subarea is new when its first tie point
    is not the last tie point of the subarea before it; the window of a
    subarea that is not new leaves out its first position. *)
Fixpoint subareas_from (i : nat) (is_new : bool) (tie_point_indices : list nat)
  : list subarea :=
  match tie_point_indices with
  | index0 :: ((index1 :: _) as rest) =>
      if index1 - index0 <=? 1 then subareas_from (S i) true rest
      else
        {| tp_index := i;
           u_start := if is_new then index0 else index0 + 1;
           u_stop := index1 + 1;
           subarea_size := index1 - index0 + 1;
           new_area := is_new |}
        :: subareas_from (S i) false rest
  | _ => []
  end.

Definition interpolation_subareas (tie_point_indices : list nat)
  : list subarea :=
  subareas_from 0 true tie_point_indices.

(** ** SampledLinearArray.__getitem__ *)

(** A linear subsampled array with one subsampled dimension, which is
    the dimension at position 0. *)
Record SampledLinearArray : Type := {
  sla_size : nat;                    (* self.shape is (sla_size,) *)
  sla_tie_points : list R;           (* self.get_tie_points() *)
  sla_tie_point_indices : list nat   (* the tie point index variable *)
}.

(** The value of a name among the names that are bound: a name that
    nothing binds raises NameError. *)
Definition load_name (A : Type) (names : list (string * A)) (name : string)
  : result A :=
  match find (fun p => String.eqb (fst p) name) names with
  | Some p => Return (snd p)
  | None => Raise NameError
  end.

(** [_linear_interpolation(ua, ub, d, size, new_area)] when [ua] is a
    tuple of arrays, as [__getitem__] passes it: numpy takes a tuple
    operand for an array with one more dimension in front, one row for
    each array of the tuple, so [u] has two dimensions, and
    [indices[d] = slice(1, None)] acts on the dimension at position [d]
    of these two. *)
Definition linear_interpolation_of_tuple (ua : list R) (ub : R)
  (d size : nat) (new_area : bool) : result (list (list R)) :=
  let (s, one_minus_s) := s_coefficients size in
  let u := map (fun a => map (fun c => a * snd c + ub * fst c)
                           (combine s one_minus_s)) ua in
  if negb new_area then
    match d with
    | 0%nat => Return (skipn 1 u)
    | 1%nat => Return (map (skipn 1) u)
    | _ => Raise IndexError
    end
  else Return u.

(** [uarray[start:stop] = u] for [u] of two dimensions: a first
    dimension of size one is dropped, and nothing else fits a window of
    one dimension. *)
Definition write_window (uarray : list (option R)) (start stop : nat)
  (u : list (list R)) : result (list (option R)) :=
  match u with
  | [row] => assign_slice uarray start stop (map Some row)
  | _ => Raise ValueError
  end.

(** One pass of the loop of [__getitem__] over the interpolation
    subareas, as it is written.  [ua] is bound to a tuple that holds the
    array (the assignment ends in a comma).  The arguments of the call
    of [_linear_interpolation] are evaluated from left to right; the
    fourth is [subarea_size[d]], and of the names bound to an integer
    the function has [d0] only, and the module none: the name [d] is
    not bound.  The source file is not accepted by the Python parser as
    it stands (a comma is missing in [__init__], and the call and the
    definition of [_linear_interpolation] are out of line with the
    statements around them); the statements are read in the blocks they
    are written for. *)
Definition interpolate_subarea (d0 : nat) (tie_points : list R) (a : subarea)
  (uarray : list (option R)) : result (list (option R)) :=
  let names := [("d0"%string, d0)] in
  ua <- getitem tie_points (tp_index a) ;;
  let ua := [ua] in
  ub <- getitem tie_points (tp_index a + 1) ;;
  d0' <- load_name names "d0" ;;
  d <- load_name names "d" ;;
  size <- getitem [subarea_size a] d ;;
  new <- getitem [new_area a] d0' ;;
  u <- linear_interpolation_of_tuple ua ub d0' size new ;;
  write_window uarray (u_start a) (u_stop a) u.

(** The loop over the interpolation subareas: the buffer [uarray] as
    the loop leaves it, and the outcome. *)
Fixpoint interpolate_subareas (d0 : nat) (tie_points : list R)
  (areas : list subarea) (uarray : list (option R))
  : list (option R) * result unit :=
  match areas with
  | [] => (uarray, Return tt)
  | a :: rest =>
      match interpolate_subarea d0 tie_points a uarray with
      | Return uarray' => interpolate_subareas d0 tie_points rest uarray'
      | Raise e => (uarray, Raise e)
      end
  end.

(** The positions of a one-dimensional array that an index expression
    asks for. *)
Definition requested_positions (size : nat) (indices : list index)
  : result (list nat) :=
  parsed <- parse_indices [size] indices ;;
  idx <- getitem parsed 0 ;;
  index_positions size idx.

(** Modelled from the spec: [_first_or_last_index] (defined in
    subsampledgeneralarray.py, not part of this source tree), the fast
    path of section 4.1 for a read of the first or of the last element
    only, which are tie points.  Any other request raises IndexError. *)
Definition first_or_last_index (x : SampledLinearArray)
  (indices : list index) : result (list (option R)) :=
  match requested_positions (sla_size x) indices with
  | Return [p] =>
      if (p =? 0)%nat
      then v <- getitem (sla_tie_points x) 0 ;; Return [Some v]
      else if (p =? sla_size x - 1)%nat
      then v <- getitem (sla_tie_points x)
                  (List.length (sla_tie_points x) - 1) ;;
           Return [Some v]
      else Raise IndexError
  | _ => Raise IndexError
  end.

(** Modelled from the spec: [get_subspace(uarray, indices)] (defined in
    the parent classes, not part of this source tree): the elements at
    the positions asked for. *)
Definition get_subspace (uarray : list (option R)) (indices : list index)
  : result (list (option R)) :=
  positions <- requested_positions (List.length uarray) indices ;;
  Return (map (fun p => nth p uarray None) positions).

(** [SampledLinearArray.__getitem__(indices)] *)
Definition sampled_linear_getitem (x : SampledLinearArray)
  (indices : list index) : result (list (option R)) :=
  match first_or_last_index x indices with
  | Raise IndexError =>
      let d0 := 0%nat in
      let tie_points := sla_tie_points x in
      let uarray := repeat None (sla_size x) in
      let (uarray, outcome) :=
        interpolate_subareas d0 tie_points
          (interpolation_subareas (sla_tie_point_indices x)) uarray in
      _ <- outcome ;;
      get_subspace uarray indices
  | outcome => outcome
  end.

(** The array of the scenario: the tie points 15, 135, 225, 255, 345 at
    the positions 0, 4, 7, 8, 11 of an array of 12 elements. *)
Definition linear_scenario : SampledLinearArray :=
  {| sla_size := 12;
     sla_tie_points := [15; 135; 225; 255; 345];
     sla_tie_point_indices := [0; 4; 7; 8; 11]%nat |}.

(* ================================================================== *)
(** * Quadratic geographic interpolation                               *)
(* ================================================================== *)

(** A vector is a tuple of three arrays on which the formulas act
    element by element; one element of each is modelled. *)
Definition vector : Type := (R * R * R)%type.

Definition vx (v : vector) : R := fst (fst v).
Definition vy (v : vector) : R := snd (fst v).
Definition vz (v : vector) : R := snd v.

Definition fplus (va vb : vector) : vector :=
  (vx va + vx vb, vy va + vy vb, vz va + vz vb).

Definition fminus (va vb : vector) : vector :=
  (vx va - vx vb, vy va - vy vb, vz va - vz vb).

Definition fmultiply (r : R) (v : vector) : vector :=
  (vx v * r, vy v * r, vz v * r).

Definition fdot (va vb : vector) : R :=
  vx va * vx vb + vy va * vy vb + vz va * vz vb.

Definition fcross (va vb : vector) : vector :=
  (vy va * vz vb - vz va * vy vb,
   vz va * vx vb - vx va * vz vb,
   vx va * vy vb - vy va * vx vb).

(** [t ** 0.5] *)
Definition fsqrt (t : R) : R := sqrt t.

(** [_fcea2cv(va, vb, ce, ca)]; [None] for a parameter that is absent. *)
Definition fcea2cv (va vb : vector) (ce ca : option R) : vector :=
  let vr := fmultiply (1 / 2) (fplus va vb) in
  let rsqr := fdot vr vr in
  let k := 1 in
  let k := match ce with Some ce => k - ce * ce | None => k end in
  let k := match ca with Some ca => k - ca * ca | None => k end in
  let cr := fsqrt k - fsqrt rsqr in
  let cv := fmultiply cr vr in
  let cv := match ce with
            | Some ce => fplus cv (fmultiply ce (fminus va vb))
            | None => cv
            end in
  let cv := match ca with
            | Some ca => fplus cv (fmultiply ca (fcross va vb))
            | None => cv
            end in
  cv.

(** [_fcv2cea(va, vb, cv)]: the pair (ce, ca). *)
Definition fcv2cea (va vb cv : vector) : R * R :=
  let vr := fmultiply (1 / 2) (fplus va vb) in
  let vg := fminus va vb in
  let rsqr := fdot vr vr in
  let gsqr := fdot vg vg in
  (fdot cv (fminus va vb) / gsqr,
   fdot cv (fcross va vb) / (rsqr * gsqr)).

(** [_fll2v(lat, lon)] *)
Definition fll2v (lat lon : R) : vector :=
  let cos_lat := cos lat in
  (cos_lat * cos lon, cos_lat * sin lon, sin lat).

(** [np.arctan2(y, x)]: the angle of the point (x, y), between -pi
    (excluded) and pi. *)
Definition np_arctan2 (y x : R) : R :=
  if Rlt_dec 0 x then atan (y / x)
  else if Rlt_dec x 0 then
    if Rle_dec 0 y then atan (y / x) + PI else atan (y / x) - PI
  else if Rlt_dec 0 y then PI / 2
  else if Rlt_dec y 0 then - (PI / 2)
  else 0.

(** [_fv2lat(v)] *)
Definition fv2lat (v : vector) : R :=
  np_arctan2 (vz v) (fsqrt (vx v * vx v + vy v * vy v)).

(** [_fv2lon(v)] *)
Definition fv2lon (v : vector) : R := np_arctan2 (vy v) (vx v).

(** The value of a coefficient that may be absent. *)
Definition absent_as_zero (c : option R) : R :=
  match c with Some r => r | None => 0 end.

Local Close Scope R_scope.

(** A field with 2 x 3 data and an auxiliary construct that spans the
    same two axes in the other order. *)
Definition field_with_transposed_construct : Field nat :=
  {| f_data := Some {| data_shape := [2; 3];
                       data_source := NumpyArray (map Some (seq 0 6)) |};
     f_data_axes := ["domainaxis0"; "domainaxis1"]%string;
     f_domain_axes := [("domainaxis0", 2); ("domainaxis1", 3)]%string;
     f_constructs :=
       [("auxiliarycoordinate0"%string,
         {| c_axes := ["domainaxis1"; "domainaxis0"]%string;
            c_data := Some {| data_shape := [3; 2];
                              data_source :=
                                NumpyArray (map Some (seq 10 6)) |} |})] |}.

(* ================================================================== *)
(** * CellMeasure                                                      *)
(* ================================================================== *)

Local Open Scope string_scope.

(** A cell measure construct: its measure, its properties in the order
    they were set, and its netCDF variable name. *)
Record CellMeasure : Type := {
  cm_measure : option string;
  cm_properties : list (string * string);
  cm_nc_variable : option string
}.

(** [self.get_property(name, None)] *)
Fixpoint get_property (name : string) (properties : list (string * string))
  : option string :=
  match properties with
  | [] => None
  | (k, v) :: t => if String.eqb k name then Some v else get_property name t
  end.

(** [CellMeasure.identity(default)] *)
Definition identity (c : CellMeasure) (default : string) : string :=
  match cm_measure c with
  | Some n => "measure:" ++ n
  | None =>
      match get_property "standard_name" (cm_properties c) with
      | Some n => n
      | None =>
          match get_property "cf_role" (cm_properties c) with
          | Some n => "cf_role" ++ "=" ++ n
          | None =>
              match get_property "long_name" (cm_properties c) with
              | Some n => "long_name" ++ "=" ++ n
              | None =>
                  match cm_nc_variable c with
                  | Some n => "ncvar%" ++ n
                  | None => default
                  end
              end
          end
      end
  end.

(** Modelled from the spec: the identities of the parent class, after
    the docstring of [CellMeasure.identities]: the standard name, every
    property as name=value, and the netCDF variable name. *)
Definition properties_identities (c : CellMeasure) : list string :=
  match get_property "standard_name" (cm_properties c) with
  | Some n => [n]
  | None => []
  end
  ++ map (fun p => fst p ++ "=" ++ snd p) (cm_properties c)
  ++ match cm_nc_variable c with
     | Some n => ["ncvar%" ++ n]
     | None => []
     end.

(** [CellMeasure.identities()] *)
Definition identities (c : CellMeasure) : list string :=
  let out := properties_identities c in
  match cm_measure c with
  | Some n => list_insert 0 ("measure:" ++ n) out
  | None => out
  end.

(** A cell measure construct that has nothing to be identified by. *)
Definition anonymous (c : CellMeasure) : bool :=
  match cm_measure c, get_property "standard_name" (cm_properties c),
        get_property "cf_role" (cm_properties c),
        get_property "long_name" (cm_properties c), cm_nc_variable c with
  | None, None, None, None, None => true
  | _, _, _, _, _ => false
  end.

Local Close Scope string_scope.

(* ================================================================== *)
(** * Notions used in the statements                                   *)
(* ================================================================== *)

(** How many elements of a list pass a test. *)
Definition cnt (A : Type) (f : A -> bool) (l : list A) : nat :=
  List.length (filter f l).

(** [np.where(index == i)[0]] for an index array that starts at the
    position [off]. *)
Definition where_from (off : nat) (index : list nat) (i : nat) : list nat :=
  map fst
    (filter (fun p => snd p =? i) (combine (seq off (List.length index)) index)).

(** The zero-sized slice of a missing profile. *)
Definition ghost : pyslice := slice_of 0 0.

(** The slices one pass of the loop over features appends when no
    lookup fails. *)
Definition feature_slices_pure (max_n_profiles : nat) (index count : list nat)
  (i : nat) : list pyslice :=
  map (pslice count) (np_where_eq index i)
  ++ repeat ghost (max_n_profiles - List.length (np_where_eq index i)).

(** The rows up to their trailing missing values, one after the other. *)
Definition row_prefixes (V : Type) (rows : list (list (option V)))
  : list (option V) :=
  concat (map (fun d => firstn (row_count d) d) rows).

(** Computations that leave the data of the field alone. *)
Definition keeps_data (V A : Type) (m : M V A) : Prop :=
  forall f, f_data (fst (m f)) = f_data f.

(** What holds of every subarea of tie point indices that start at [x]
    and do not decrease. *)
Definition area_facts (x : nat) (c : subarea) : Prop :=
  x + (if new_area c then 0 else 1) <= u_start c /\
  u_start c + 2 <= u_stop c /\
  subarea_size c = u_stop c - u_start c + (if new_area c then 0 else 1).

(** The window of an earlier subarea ends before the window of a later
    one starts, or at the first position of a later one that is new. *)
Definition window_order (a c : subarea) : Prop :=
  u_stop a <= u_start c + (if new_area c then 1 else 0).

(** No row without values comes before a row with values. *)
Definition empty_rows_last (count : list nat) : Prop :=
  forall pre post, count = pre ++ 0 :: post -> Forall (fun c => c = 0) post.

(** The index variable of the indexed representation for rows numbered
    from [off]. *)
Definition index_from (off : nat) (count : list nat) : list nat :=
  concat (map (fun p => repeat (fst p) (snd p))
            (combine (seq off (List.length count)) count)).

(** A field with 2 x 2 x 2 data: two features of two profile slots; the
    first feature has one profile of two elements, the second has one
    profile of one element in its second slot. *)
Definition profiles_3d : Field nat :=
  {| f_data := Some {| data_shape := [2; 2; 2];
                       data_source :=
                         NumpyArray [Some 1; Some 2; None; None;
                                     None; None; Some 3; None] |};
     f_data_axes := ["domainaxis0"; "domainaxis1"; "domainaxis2"]%string;
     f_domain_axes := [("domainaxis0", 2); ("domainaxis1", 2);
                       ("domainaxis2", 2)]%string;
     f_constructs := [] |}.

(** [domain_axes[key].get_size()]: the size of the domain axis
    construct with the given key, if there is one. *)
Fixpoint get_size (key : string) (axes : list (string * nat)) : option nat :=
  match axes with
  | [] => None
  | (k, n) :: t => if String.eqb k key then Some n else get_size key t
  end.

(** ** Field.insert_dimension and Field.squeeze *)

(** [f.get_data_axes(default=None)]: the data axes are set with the
    data. *)
Definition get_data_axes (V : Type) (f : Field V) : option (list string) :=
  match f_data f with
  | Some _ => Some (f_data_axes f)
  | None => None
  end.

(** Modelled from the spec: [Data.insert_dimension(position)]
    (cfdm/data/data.py is not part of this source tree).  A dimension
    of size 1 is put at the position, which is counted from the start
    and is at most the number of dimensions; the elements keep their
    order. *)
Definition data_insert_dimension (V : Type) (position : nat) (d : Data V)
  : result (Data V) :=
  if data_ndim d <? position then Raise ValueError
  else
    values <- data_array d ;;
    Return {| data_shape := list_insert position 1 (data_shape d);
              data_source := NumpyArray values |}.

(** Modelled from the spec: [Data.squeeze(iaxes)].  The dimensions at
    the given positions, which must have size 1, are removed; the
    elements keep their order. *)
Definition data_squeeze (V : Type) (iaxes : list nat) (d : Data V)
  : result (Data V) :=
  if forallb (fun i => nth i (data_shape d) 0 =? 1) iaxes
  then
    values <- data_array d ;;
    Return {| data_shape :=
                map snd
                  (filter (fun p => negb (existsb (Nat.eqb (fst p)) iaxes))
                     (combine (seq 0 (data_ndim d)) (data_shape d)));
              data_source := NumpyArray values |}
  else Raise ValueError.

(** Modelled from the spec: the methods of the parent class act on the
    data of the construct, if there is any. *)
Definition on_data (V : Type) (op : Data V -> result (Data V)) : M V unit :=
  f <~ get ;;
  match f_data f with
  | None => mret tt
  | Some data => data' <~ lift (op data) ;; put (set_data f data')
  end.

(** [Field.insert_dimension(axis, position, inplace=True)], for a
    position counted from the start. *)
Definition insert_dimension_body (V : Type) (axis : string) (position : nat)
  : M V unit :=
  f <~ get ;;
  match get_size axis (f_domain_axes f) with
  | None => lift (Raise ValueError)
  | Some size =>
      if negb (size =? 1) then lift (Raise ValueError)
      else
        match get_data_axes f with
        | Some data_axes =>
            if mem_string axis data_axes then lift (Raise ValueError)
            else
              let data_axes := list_insert position axis data_axes in
              _ <~ on_data (data_insert_dimension position) ;;
              f <~ get ;;
              put (set_data_axes f data_axes)
        | None => on_data (data_insert_dimension position)
        end
  end.

Definition insert_dimension (V : Type) (self : Field V) (axis : string)
  (position : nat) (inplace : bool) : Field V * result (option (Field V)) :=
  inplace_enabled (insert_dimension_body axis position) self inplace.

(** Modelled from the spec: [Data._parse_axes(axes)] for positions
    counted from the start: a position that is not a dimension of the
    data is an error. *)
Definition parse_axes (ndim : nat) (axes : list nat) : result (list nat) :=
  if forallb (fun i => i <? ndim) axes then Return axes else Raise ValueError.

(** [Field.squeeze(axes, inplace=True)] *)
Definition squeeze_body (V : Type) (axes : option (list nat)) : M V unit :=
  f <~ get ;;
  data <~ lift (field_data f) ;;
  iaxes <~ lift (match axes with
                 | None =>
                     Return (map fst
                               (filter (fun p => snd p =? 1)
                                  (combine (seq 0 (data_ndim data))
                                     (data_shape data))))
                 | Some axes => parse_axes (data_ndim data) axes
                 end) ;;
  match get_data_axes f with
  | Some data_axes =>
      new_data_axes <~
        lift (mapM (getitem data_axes)
                (filter (fun i => negb (existsb (Nat.eqb i) iaxes))
                   (seq 0 (data_ndim data)))) ;;
      _ <~ on_data (data_squeeze iaxes) ;;
      f <~ get ;;
      put (set_data_axes f new_data_axes)
  | None => on_data (data_squeeze iaxes)
  end.

Definition squeeze (V : Type) (self : Field V) (axes : option (list nat))
  (inplace : bool) : Field V * result (option (Field V)) :=
  inplace_enabled (squeeze_body axes) self inplace.

(** The data axes fit the data: each names a domain axis construct of
    the size of its dimension. *)
Definition axes_fit (V : Type) (f : Field V) : Prop :=
  match f_data f with
  | Some d =>
      Forall2 (fun key n => get_size key (f_domain_axes f) = Some n)
        (f_data_axes f) (data_shape d)
  | None => True
  end.

(** The metadata constructs fit the domain: the data of each can be
    read, and each of its dimensions has the size of the domain axis
    construct that it spans. *)
Definition constructs_fit (V : Type) (f : Field V) : Prop :=
  Forall (fun kc : string * Construct V =>
            match c_data (snd kc) with
            | Some data =>
                (exists values, data_array data = Return values) /\
                Forall2 (fun key n => get_size key (f_domain_axes f) = Some n)
                  (c_axes (snd kc)) (data_shape data)
            | None => True
            end)
    (f_constructs f).

(** The multi-index of the data that the multi-index [j] of a subspace
    stands for, when [positions] lists the positions selected along
    each dimension. *)
Definition select (positions : list (list nat)) (j : list nat) : list nat :=
  map (fun p => nth (snd p) (fst p) 0) (combine positions j).

(** The field of the docstring of [Field.__getitem__] with two metadata
    constructs: the coordinates of the second dimension, and a
    construct that spans the third and the second dimension. *)
Definition docstring_field_with_coordinates : Field nat :=
  {| f_data := Some docstring_data;
     f_data_axes := ["domainaxis0"; "domainaxis1"; "domainaxis2"]%string;
     f_domain_axes := [("domainaxis0", 1); ("domainaxis1", 10);
                       ("domainaxis2", 9)]%string;
     f_constructs :=
       [("dimensioncoordinate1",
         {| c_axes := ["domainaxis1"];
            c_data := Some {| data_shape := [10];
                              data_source :=
                                NumpyArray (map Some (seq 0 10)) |} |});
        ("auxiliarycoordinate0",
         {| c_axes := ["domainaxis2"; "domainaxis1"];
            c_data := Some {| data_shape := [9; 10];
                              data_source :=
                                NumpyArray (map Some (seq 100 90)) |} |})
       ]%string |}.

(** A field with data of shape (1, 2, 1, 3). *)
Definition unit_axes_field : Field nat :=
  {| f_data := Some {| data_shape := [1; 2; 1; 3];
                       data_source := NumpyArray (map Some (seq 0 6)) |};
     f_data_axes := ["domainaxis0"; "domainaxis1"; "domainaxis2";
                     "domainaxis3"]%string;
     f_domain_axes := [("domainaxis0", 1); ("domainaxis1", 2);
                       ("domainaxis2", 1); ("domainaxis3", 3)]%string;
     f_constructs := [] |}.

(** A field with 2 x 3 data and a further domain axis of size 1 that
    the data does not span. *)
Definition scalar_axis_field : Field nat :=
  {| f_data := Some {| data_shape := [2; 3];
                       data_source := NumpyArray (map Some (seq 0 6)) |};
     f_data_axes := ["domainaxis0"; "domainaxis1"]%string;
     f_domain_axes := [("domainaxis0", 2); ("domainaxis1", 3);
                       ("domainaxis2", 1)]%string;
     f_constructs := [] |}.

(** What [Field.uncompress] does to one metadata construct. *)
Definition uncompress_entry (V : Type) (kc : string * Construct V)
  : result (string * Construct V) :=
  match c_data (snd kc) with
  | None => Return kc
  | Some data =>
      data' <- data_uncompress data ;;
      Return (fst kc, {| c_axes := c_axes (snd kc); c_data := Some data' |})
  end.

(** The field that contiguous compression gives for the rows (1, --),
    (2, 3), (--, --). *)
Definition compressed_rows : Field nat :=
  set_data empty_row_last
    {| data_shape := [3; 2];
       data_source := RaggedContiguousArray [Some 1; Some 2; Some 3] [1; 2] |}.

(** What a user sees of the layout of a field construct: the data axes,
    the domain axes, the keys of the metadata constructs and the shape of
    the data. *)
Definition frame (V : Type) (f : Field V)
  : list string * list (string * nat) * list string * option (list nat) :=
  (f_data_axes f, f_domain_axes f, map fst (f_constructs f),
   option_map (@data_shape V) (f_data f)).

(** Computations that leave the layout alone. *)
Definition keeps_frame (V A : Type) (m : M V A) : Prop :=
  forall f, frame (fst (m f)) = frame f.

(* ================================================================== *)
(** * Properties                                                       *)
(* ================================================================== *)

Section Counting.
Variable A : Type.

Lemma cnt_app (f : A -> bool) (l1 l2 : list A) :
  cnt f (l1 ++ l2) = cnt f l1 + cnt f l2.
Proof. unfold cnt. rewrite filter_app, length_app. reflexivity. Qed.

Lemma cnt_repeat_false (f : A -> bool) (a : A) (n : nat) :
  f a = false -> cnt f (repeat a n) = 0.
Proof.
  intros Hf. unfold cnt. induction n as [|n IH]; simpl; [reflexivity|].
  rewrite Hf. exact IH.
Qed.

Lemma cnt_two_positions (f : A -> bool) (l : list A) (p q : nat) (a b : A) :
  p <> q -> nth_error l p = Some a -> nth_error l q = Some b ->
  f a = true -> f b = true -> 2 <= cnt f l.
Proof.
  unfold cnt. revert p q.
  induction l as [|x l IH]; intros p q Hpq Hp Hq Ha Hb.
  - destruct p; discriminate.
  - destruct p as [|p], q as [|q]; simpl in *.
    + congruence.
    + injection Hp as ->. rewrite Ha. simpl.
      apply le_n_S.
      assert (In b (filter f l)) as Hin.
      { apply filter_In. split; [eapply nth_error_In; eauto | assumption]. }
      destruct (filter f l); [destruct Hin | simpl; lia].
    + injection Hq as ->. rewrite Hb. simpl.
      apply le_n_S.
      assert (In a (filter f l)) as Hin.
      { apply filter_In. split; [eapply nth_error_In; eauto | assumption]. }
      destruct (filter f l); [destruct Hin | simpl; lia].
    + assert (2 <= List.length (filter f l)) by (eapply (IH p q); eauto).
      destruct (f x); simpl; lia.
Qed.
End Counting.

(** ** Cumulative sums *)

Lemma cumsum_from_nth (l : list nat) : forall acc j,
  j < List.length l ->
  nth_error (cumsum_from acc l) j = Some (acc + prefix_sum l (S j)).
Proof.
  unfold prefix_sum.
  induction l as [|x t IH]; intros acc j Hj; simpl in Hj; [lia|].
  destruct j as [|j]; simpl.
  - f_equal. lia.
  - rewrite IH by lia. simpl. f_equal. lia.
Qed.

Lemma cumsum_from_length (l : list nat) : forall acc,
  List.length (cumsum_from acc l) = List.length l.
Proof. induction l; intros; simpl; auto. Qed.

Lemma profile_slice_ok (count : list nat) (j : nat) :
  j < List.length count ->
  profile_slice (np_cumsum count) j = Return (pslice count j).
Proof.
  intros Hj. unfold profile_slice, np_cumsum, getitem, pslice.
  destruct j as [|j].
  - cbn [bind]. rewrite (cumsum_from_nth count 0 Hj). reflexivity.
  - assert (j < List.length count) as Hj' by lia.
    rewrite (cumsum_from_nth count 0 Hj'). cbn [bind].
    rewrite (cumsum_from_nth count 0 Hj). reflexivity.
Qed.

Lemma mapM_profile_slice (count : list nat) (l : list nat) :
  Forall (fun j => j < List.length count) l ->
  mapM (profile_slice (np_cumsum count)) l = Return (map (pslice count) l).
Proof.
  induction 1 as [|j l Hj _ IH]; simpl; [reflexivity|].
  rewrite profile_slice_ok by assumption. simpl. rewrite IH. reflexivity.
Qed.

Lemma prefix_sum_cons (x : nat) (t : list nat) (j : nat) :
  prefix_sum (x :: t) (S j) = x + prefix_sum t j.
Proof. reflexivity. Qed.

(** Exactly one profile holds each position below the total. *)
Lemma cnt_pslice (count : list nat) : forall b k,
  cnt (fun j => (b + prefix_sum count j <=? k)
                && (k <? b + prefix_sum count (S j)))
      (seq 0 (List.length count))
  = if (b <=? k) && (k <? b + sum_list count) then 1 else 0.
Proof.
  induction count as [|x t IH]; intros b k.
  - simpl. unfold cnt. simpl.
    destruct (b <=? k) eqn:E1, (k <? b + 0) eqn:E2; simpl; try reflexivity.
    apply Nat.leb_le in E1. apply Nat.ltb_lt in E2. lia.
  - cbn [List.length seq]. rewrite <- seq_shift.
    unfold cnt in *. cbn [filter].
    assert (filter
              (fun j => (b + prefix_sum (x :: t) j <=? k)
                        && (k <? b + prefix_sum (x :: t) (S j)))
              (map S (seq 0 (List.length t)))
            = map S (filter
              (fun j => (b + x + prefix_sum t j <=? k)
                        && (k <? b + x + prefix_sum t (S j)))
              (seq 0 (List.length t)))) as Hshift.
    { generalize (seq 0 (List.length t)). intros l.
      induction l as [|j l IHl]; simpl; [reflexivity|].
      rewrite !prefix_sum_cons.
      replace (b + (x + prefix_sum t j)) with (b + x + prefix_sum t j) by lia.
      replace (b + (x + prefix_sum t (S j)))
        with (b + x + prefix_sum t (S j)) by lia.
      destruct ((b + x + prefix_sum t j <=? k)
                && (k <? b + x + prefix_sum t (S j))); simpl; rewrite IHl;
        reflexivity. }
    rewrite Hshift. clear Hshift.
    specialize (IH (b + x) k).
    unfold prefix_sum at 1 2. cbn [firstn sum_list fold_right].
    change (fold_right Nat.add 0 t) with (sum_list t).
    set (tl := filter _ _) in *.
    assert (forall c : bool,
             List.length (if c then 0 :: map S tl else map S tl)
             = (if c then 1 else 0) + List.length tl) as Hlen.
    { intros [|]; simpl; rewrite length_map; reflexivity. }
    rewrite Hlen, IH. clear Hlen IH tl.
    destruct (Nat.leb_spec (b + 0) k), (Nat.ltb_spec k (b + (x + 0))),
             (Nat.leb_spec (b + x) k), (Nat.ltb_spec k (b + x + sum_list t)),
             (Nat.leb_spec b k), (Nat.ltb_spec k (b + (x + sum_list t)));
      simpl; lia.
Qed.

(** ** Sorted distinct values *)

Lemma insert_unique_In (x y : nat) (l : list nat) :
  In y (insert_unique x l) <-> y = x \/ In y l.
Proof.
  induction l as [|z t IH]; simpl.
  - intuition.
  - destruct (Nat.ltb_spec x z).
    + simpl. intuition.
    + destruct (Nat.eqb_spec x z) as [->|Hne]; simpl; intuition.
Qed.

Lemma np_unique_In (x : nat) (l : list nat) :
  In x (np_unique l) <-> In x l.
Proof.
  induction l as [|y t IH]; simpl; [reflexivity|].
  rewrite insert_unique_In, IH. intuition.
Qed.

Lemma insert_unique_sorted (x : nat) (l : list nat) :
  StronglySorted lt l -> StronglySorted lt (insert_unique x l).
Proof.
  induction 1 as [|z t Hs IH Hall]; simpl.
  - repeat constructor.
  - destruct (Nat.ltb_spec x z) as [Hlt|Hge].
    + constructor; [constructor; assumption|].
      constructor; [assumption|].
      eapply Forall_impl; [|exact Hall]. simpl. intros; lia.
    + destruct (Nat.eqb_spec x z) as [->|Hne].
      * constructor; assumption.
      * constructor; [assumption|].
        apply Forall_forall. intros y Hy.
        apply insert_unique_In in Hy. destruct Hy as [->|Hy]; [lia|].
        rewrite Forall_forall in Hall. auto.
Qed.

Lemma np_unique_sorted (l : list nat) :
  StronglySorted lt (np_unique l).
Proof.
  induction l; simpl; [constructor | apply insert_unique_sorted; assumption].
Qed.

Lemma sorted_lt_NoDup (l : list nat) :
  StronglySorted lt l -> NoDup l.
Proof.
  induction 1 as [|z t Hs IH Hall]; constructor; [|assumption].
  intros Hin. rewrite Forall_forall in Hall. specialize (Hall z Hin). lia.
Qed.

Lemma np_unique_NoDup (l : list nat) : NoDup (np_unique l).
Proof. apply sorted_lt_NoDup, np_unique_sorted. Qed.

(** ** Positions of a feature's profiles *)

Lemma where_from_cons (off x : nat) (t : list nat) (i : nat) :
  where_from off (x :: t) i
  = (if x =? i then [off] else []) ++ where_from (S off) t i.
Proof.
  unfold where_from. simpl. destruct (x =? i); reflexivity.
Qed.

Lemma where_from_bound (index : list nat) (i : nat) : forall off,
  Forall (fun j => off <= j < off + List.length index) (where_from off index i).
Proof.
  induction index as [|x t IH]; intros off.
  - constructor.
  - rewrite where_from_cons. apply Forall_app. split.
    + destruct (x =? i); constructor; [simpl; lia | constructor].
    + eapply Forall_impl; [|apply IH]. simpl. intros; lia.
Qed.

Lemma cnt_flat_map_app (A B : Type) (g : B -> bool) (f1 f2 : A -> list B)
  (U : list A) :
  cnt g (flat_map (fun i => f1 i ++ f2 i) U)
  = cnt g (flat_map f1 U) + cnt g (flat_map f2 U).
Proof.
  induction U as [|u U IH]; simpl; [reflexivity|].
  rewrite !cnt_app, IH. lia.
Qed.

Lemma flat_map_single (x off : nat) (U : list nat) :
  NoDup U -> In x U ->
  flat_map (fun i => if x =? i then [off] else []) U = [off].
Proof.
  induction 1 as [|u U Hnin Hnd IH]; intros Hin; [destruct Hin|].
  simpl. destruct (Nat.eqb_spec x u) as [->|Hne].
  - simpl. f_equal.
    clear IH Hin Hnd. induction U as [|v U IHU]; simpl; [reflexivity|].
    destruct (Nat.eqb_spec u v) as [->|_].
    + exfalso. apply Hnin. left; reflexivity.
    + apply IHU. intros H. apply Hnin. right; assumption.
  - simpl. apply IH. destruct Hin; [congruence | assumption].
Qed.

(** The profile positions of the distinct features enumerate every
    profile exactly once. *)
Lemma cnt_where_partition (g : nat -> bool) (U : list nat) (index : list nat) :
  NoDup U -> (forall x, In x index -> In x U) ->
  forall off,
    cnt g (flat_map (where_from off index) U)
    = cnt g (seq off (List.length index)).
Proof.
  intros Hnd. induction index as [|x t IH]; intros Hcov off.
  - clear Hnd Hcov. induction U as [|u U IHU]; simpl; [reflexivity|].
    exact IHU.
  - rewrite (flat_map_ext _ (fun i => (if x =? i then [off] else [])
                                       ++ where_from (S off) t i))
      by (intros; apply where_from_cons).
    rewrite cnt_flat_map_app, flat_map_single
      by (auto; apply Hcov; left; reflexivity).
    rewrite IH by (intros; apply Hcov; right; assumption).
    change (seq off (List.length (x :: t)))
      with ([off] ++ seq (S off) (List.length t)).
    rewrite cnt_app. reflexivity.
Qed.

(** ** The compressed slices of the generator *)

Lemma feature_slices_ok (max_n_profiles : nat) (index count : list nat) (i : nat) :
  List.length index <= List.length count ->
  feature_slices max_n_profiles index (np_cumsum count) i
  = Return (feature_slices_pure max_n_profiles index count i).
Proof.
  intros Hlen. unfold feature_slices, feature_slices_pure.
  rewrite mapM_profile_slice; [reflexivity|].
  eapply Forall_impl; [|apply (where_from_bound index i 0)].
  simpl. intros; lia.
Qed.

Lemma concatM_map_ok (A B : Type) (F : A -> result (list B))
  (F' : A -> list B) (U : list A) :
  (forall u, In u U -> F u = Return (F' u)) ->
  concatM (map F U) = Return (flat_map F' U).
Proof.
  induction U as [|u U IH]; intros H; simpl; [reflexivity|].
  rewrite H by (left; reflexivity). simpl.
  rewrite IH by (intros; apply H; right; assumption). reflexivity.
Qed.

Lemma compressed_slices_ok (max_n_profiles : nat) (index count : list nat) :
  List.length index <= List.length count ->
  compressed_slices max_n_profiles index count
  = Return (flat_map (feature_slices_pure max_n_profiles index count)
              (np_unique index)).
Proof.
  intros Hlen. unfold compressed_slices.
  apply concatM_map_ok. intros; apply feature_slices_ok; assumption.
Qed.

Lemma cnt_map (A B : Type) (f : B -> bool) (h : A -> B) (l : list A) :
  cnt f (map h l) = cnt (fun a => f (h a)) l.
Proof.
  unfold cnt. induction l as [|a l IH]; simpl; [reflexivity|].
  destruct (f (h a)); simpl; rewrite IH; reflexivity.
Qed.

Lemma cnt_ext (A : Type) (f g : A -> bool) (l : list A) :
  (forall a, f a = g a) -> cnt f l = cnt g l.
Proof.
  intros H. unfold cnt. rewrite (filter_ext f g H). reflexivity.
Qed.

Lemma flat_map_map_out (A B C : Type) (h : B -> C) (f : A -> list B)
  (U : list A) :
  flat_map (fun i => map h (f i)) U = map h (flat_map f U).
Proof.
  induction U as [|u U IH]; simpl; [reflexivity|].
  rewrite map_app, IH. reflexivity.
Qed.

Lemma holders_compressed_slices (max_n_profiles : nat) (index count : list nat)
  (k : nat) :
  List.length index = List.length count ->
  holders k (flat_map (feature_slices_pure max_n_profiles index count)
               (np_unique index))
  = if k <? sum_list count then 1 else 0.
Proof.
  intros Hlen. change (holders k) with (cnt (slice_has k)).
  unfold feature_slices_pure.
  rewrite cnt_flat_map_app.
  assert (cnt (slice_has k)
            (flat_map (fun i => repeat ghost
               (max_n_profiles - List.length (np_where_eq index i)))
               (np_unique index)) = 0) as Hg.
  { induction (np_unique index) as [|u U IH]; simpl; [reflexivity|].
    rewrite cnt_app, IH, cnt_repeat_false; [reflexivity|].
    reflexivity. }
  rewrite Hg, Nat.add_0_r. clear Hg.
  rewrite flat_map_map_out, cnt_map.
  change (np_where_eq index) with (where_from 0 index).
  rewrite cnt_where_partition.
  - rewrite Hlen.
    rewrite (cnt_ext _ (fun j => (0 + prefix_sum count j <=? k)
                                 && (k <? 0 + prefix_sum count (S j))))
      by reflexivity.
    rewrite cnt_pslice. simpl. reflexivity.
  - apply np_unique_NoDup.
  - intros x Hx. apply np_unique_In. assumption.
Qed.

(** ** Cartesian products *)

Lemma product_repeat_single (A : Type) (a : A) (n : nat) :
  product (repeat [a] n) = [repeat a n].
Proof.
  induction n as [|n IH]; simpl; [reflexivity|]. rewrite IH. reflexivity.
Qed.

Lemma product_head (A : Type) (l : list A) (a : A) (n : nat) :
  product (l :: repeat [a] n) = map (fun s => s :: repeat a n) l.
Proof.
  simpl. rewrite product_repeat_single.
  induction l as [|s l IH]; simpl; [reflexivity|]. now f_equal.
Qed.

Lemma product_length (A : Type) (ls : list (list A)) :
  List.length (product ls)
  = fold_right Nat.mul 1 (map (@List.length A) ls).
Proof.
  induction ls as [|l ls IH]; simpl; [reflexivity|].
  induction l as [|a l IHl]; simpl; [reflexivity|].
  rewrite length_app, length_map, IHl, IH. reflexivity.
Qed.

(** ** The generator returns *)

Lemma subarrays_ok (x : RaggedIndexedContiguousArray)
  (n_features max_n_profiles : nat) (rest : list nat) (sn : nat) :
  ric_shape x = n_features :: max_n_profiles :: rest ->
  ric_source_ndim x = S sn ->
  List.length (ric_index x) <= List.length (ric_count x) ->
  subarrays x
  = Return
      {| u_indices :=
           product (map (fun i => slice_of i (i + 1)) (seq 0 n_features)
                    :: map (fun j => slice_of j (j + 1)) (seq 0 max_n_profiles)
                    :: repeat [slice_all] (List.length rest));
         u_shapes :=
           product (repeat 1 n_features :: repeat 1 max_n_profiles
                    :: map (fun n => [n]) rest);
         c_indices :=
           product (flat_map
                      (feature_slices_pure max_n_profiles
                         (ric_index x) (ric_count x))
                      (np_unique (ric_index x))
                    :: repeat [slice_all] sn);
         locations :=
           product (seq 0 n_features :: seq 0 max_n_profiles
                    :: repeat [0] (List.length rest)) |}.
Proof.
  intros Hshape Hsn Hlen. unfold subarrays.
  rewrite Hshape, Hsn. simpl.
  rewrite compressed_slices_ok by assumption. reflexivity.
Qed.

Lemma sample_slices_ok (ind : list pyslice) (sn : nat) :
  map (fun c => hd slice_all c) (product (ind :: repeat [slice_all] sn)) = ind.
Proof.
  rewrite product_head, map_map. simpl. apply map_id.
Qed.

(** C9. For every indexed contiguous ragged array with one Index entry
    per Count entry (an uncompressed shape of at least two dimensions
    and a compressed array of at least one), the generator returns, and
    the slices it emits along the sample dimension partition the
    interval from 0 to sum(Count): each position below sum(Count) lies
    in exactly one emitted slice, no position at or above it lies in
    any, and two slices emitted at different places share no position.
    This holds whether or not Index covers every feature, hence in
    particular when it does. *)
Theorem sample_slices_partition (x : RaggedIndexedContiguousArray) :
  2 <= List.length (ric_shape x) ->
  1 <= ric_source_ndim x ->
  List.length (ric_index x) = List.length (ric_count x) ->
  exists d,
    subarrays x = Return d /\
    (forall k, k < sum_list (ric_count x) ->
               holders k (sample_slices d) = 1) /\
    (forall k, sum_list (ric_count x) <= k ->
               holders k (sample_slices d) = 0) /\
    (forall p q s t k,
        p <> q ->
        nth_error (sample_slices d) p = Some s ->
        nth_error (sample_slices d) q = Some t ->
        slice_has k s = true -> slice_has k t = true -> False).
Proof.
  intros Hshape Hsrc Hlen.
  destruct (ric_shape x) as [|nf [|mp rest]] eqn:Es; simpl in Hshape; try lia.
  destruct (ric_source_ndim x) as [|sn] eqn:En; [lia|].
  eexists. split; [apply (subarrays_ok x Es En); lia|].
  unfold sample_slices. cbn [c_indices]. rewrite sample_slices_ok.
  assert (forall k,
    holders k (flat_map
      (feature_slices_pure mp (ric_index x) (ric_count x))
      (np_unique (ric_index x)))
    = if k <? sum_list (ric_count x) then 1 else 0) as Hh
    by (intros; apply holders_compressed_slices; assumption).
  repeat split.
  - intros k Hk. rewrite Hh. destruct (Nat.ltb_spec k (sum_list (ric_count x))); lia.
  - intros k Hk. rewrite Hh. destruct (Nat.ltb_spec k (sum_list (ric_count x))); lia.
  - intros p q s t k Hpq Hp Hq Hs Ht.
    pose proof (cnt_two_positions (slice_has k) _ Hpq Hp Hq Hs Ht) as H2.
    change (cnt (slice_has k)) with (holders k) in H2. rewrite Hh in H2.
    destruct (k <? sum_list (ric_count x)); lia.
Qed.

Lemma sample_slices_partition_witness :
  exists d,
    subarrays scenario_ric = Return d /\
    (forall k, k < 12 -> holders k (sample_slices d) = 1) /\
    (forall k, 12 <= k -> holders k (sample_slices d) = 0) /\
    (forall p q s t k,
        p <> q ->
        nth_error (sample_slices d) p = Some s ->
        nth_error (sample_slices d) q = Some t ->
        slice_has k s = true -> slice_has k t = true -> False).
Proof.
  apply (sample_slices_partition scenario_ric); simpl; lia.
Defined.

(** ** Every feature has a profile *)

Lemma sorted_range (n : nat) : forall a l,
  StronglySorted lt l ->
  (forall x, In x l <-> a <= x < a + n) ->
  l = seq a n.
Proof.
  induction n as [|n IH]; intros a l Hs Hin.
  - destruct l as [|x l]; [reflexivity|].
    exfalso. assert (a <= x < a + 0) by (apply Hin; left; reflexivity). lia.
  - destruct l as [|h t].
    + exfalso. assert (In a []) as [] by (apply Hin; lia).
    + inversion Hs as [|? ? Hst Hall]. subst.
      rewrite Forall_forall in Hall.
      assert (h = a) as ->.
      { assert (a <= h < a + S n) by (apply Hin; left; reflexivity).
        assert (In a (h :: t)) as [Ha|Ha] by (apply Hin; lia);
          [assumption|]. specialize (Hall a Ha). lia. }
      simpl. f_equal. apply IH; [assumption|].
      intros x. split.
      * intros Hx. specialize (Hall x Hx).
        assert (a <= x < a + S n) by (apply Hin; right; assumption). lia.
      * intros Hx. assert (In x (a :: t)) as [Hxa|Hxt] by (apply Hin; lia);
          [lia | assumption].
Qed.

Lemma np_unique_covering (index : list nat) (n : nat) :
  (forall i, In i index <-> i < n) -> np_unique index = seq 0 n.
Proof.
  intros Hcov. apply sorted_range; [apply np_unique_sorted|].
  intros x. rewrite np_unique_In, Hcov. lia.
Qed.

Lemma flat_map_length_const (A B : Type) (F : A -> list B) (m : nat)
  (l : list A) :
  (forall x, In x l -> List.length (F x) = m) ->
  List.length (flat_map F l) = List.length l * m.
Proof.
  induction l as [|a l IH]; intros H; simpl; [reflexivity|].
  rewrite length_app, H by (left; reflexivity).
  rewrite IH by (intros; apply H; right; assumption). reflexivity.
Qed.

Lemma product_singletons_length (A : Type) (ls : list (list A)) :
  Forall (fun l => List.length l = 1) ls ->
  fold_right Nat.mul 1 (map (@List.length A) ls) = 1.
Proof.
  induction 1 as [|l ls Hl _ IH]; simpl; [reflexivity|].
  rewrite Hl, IH. reflexivity.
Qed.

(** When Index names exactly the features and no feature has more
    profiles than the shape has profile slots, the four sequences have
    one element per slot, and the compressed slices are, feature by
    feature, those of its profiles followed by zero-sized slices. *)
Lemma descriptors_aligned_when_covered (x : RaggedIndexedContiguousArray)
  (n_features max_n_profiles : nat) (rest : list nat) (sn : nat) :
  ric_shape x = n_features :: max_n_profiles :: rest ->
  ric_source_ndim x = S sn ->
  List.length (ric_index x) = List.length (ric_count x) ->
  (forall i, In i (ric_index x) <-> i < n_features) ->
  (forall i, i < n_features ->
             List.length (np_where_eq (ric_index x) i) <= max_n_profiles) ->
  exists d,
    subarrays x = Return d /\
    sample_slices d
    = flat_map
        (feature_slices_pure max_n_profiles (ric_index x) (ric_count x))
        (seq 0 n_features) /\
    List.length (u_indices d) = n_features * max_n_profiles /\
    List.length (u_shapes d) = n_features * max_n_profiles /\
    List.length (c_indices d) = n_features * max_n_profiles /\
    List.length (locations d) = n_features * max_n_profiles.
Proof.
  intros Hshape Hsn Hlen Hcov Hmax.
  eexists. split; [apply (subarrays_ok x Hshape Hsn); lia|].
  rewrite (np_unique_covering _ Hcov).
  unfold sample_slices. cbn [c_indices u_indices u_shapes locations].
  rewrite sample_slices_ok.
  assert (List.length
            (flat_map
               (feature_slices_pure max_n_profiles (ric_index x) (ric_count x))
               (seq 0 n_features)) = n_features * max_n_profiles) as Hind.
  { rewrite (@flat_map_length_const _ _ _ max_n_profiles), length_seq;
      [reflexivity|].
    intros i Hi. apply in_seq in Hi. unfold feature_slices_pure.
    rewrite length_app, length_map, repeat_length.
    specialize (Hmax i ltac:(lia)). lia. }
  split; [reflexivity|].
  rewrite product_head, length_map, Hind.
  rewrite !product_length. cbn [map fold_right].
  rewrite !length_map, !length_seq, !repeat_length.
  rewrite !product_singletons_length.
  - repeat split; lia.
  - apply Forall_forall. intros l Hl. apply repeat_spec in Hl. subst.
    reflexivity.
  - apply Forall_forall. intros l Hl. apply in_map_iff in Hl.
    destruct Hl as (v & <- & _). reflexivity.
  - apply Forall_forall. intros l Hl. apply repeat_spec in Hl. subst.
    reflexivity.
Qed.

(** ** A feature without profiles *)

(** C5. For the 2 x 1 x 2 array whose first feature has no profile
    (Count = [2], Index = [1]) the generator returns three sequences of
    two descriptors and a sequence of one compressed index: the slice of
    the second feature's profile is paired with the window and the
    location of the first feature. *)
Theorem descriptors_misaligned :
  exists d,
    subarrays empty_feature_ric = Return d /\
    List.length (u_indices d) = 2 /\
    List.length (u_shapes d) = 2 /\
    List.length (locations d) = 2 /\
    List.length (c_indices d) = 1 /\
    combine (locations d) (c_indices d) = [([0; 0; 0], [slice_of 0 2])].
Proof.
  eexists. split; [reflexivity|]. repeat split.
Qed.

(** C2. For the 2 x 1 x 2 array whose first feature has no profile
    (Count = [2], Index = [1]) the generator emits the single compressed
    slice (0, 2): the profile slot of the first feature, which is a
    ghost slot, receives no zero-length slice, so the emitted list is
    not the one slice per slot, ghost slots included, that the layout
    calls for, and the decoder puts the values of the second feature at
    the location of the first. *)
Theorem no_ghost_slice_for_empty_feature :
  exists d,
    subarrays empty_feature_ric = Return d /\
    sample_slices d = [slice_of 0 2] /\
    sample_slices d <> [slice_of 0 0; slice_of 0 2] /\
    decode_ric [Some 10; Some 20] 2 d = [([0; 0; 0], [Some 10; Some 20])].
Proof.
  eexists. split; [reflexivity|]. repeat split. discriminate.
Qed.

(** The example of the docstring: the ghost slots of the second feature
    receive zero-length slices and decode to missing values only. *)
Lemma scenario_ghost_slots_masked (V : Type) (compressed : list (option V)) :
  exists d,
    subarrays scenario_ric = Return d /\
    sample_slices d
    = [slice_of 0 4; slice_of 4 6; slice_of 9 12;
       slice_of 6 9; slice_of 0 0; slice_of 0 0] /\
    nth_error (decode_ric compressed 4 d) 4
    = Some ([1; 1; 0], [None; None; None; None]) /\
    nth_error (decode_ric compressed 4 d) 5
    = Some ([1; 2; 0], [None; None; None; None]).
Proof.
  eexists. split; [reflexivity|]. split; [reflexivity|].
  split; reflexivity.
Qed.


(** ** Rows and counts *)

Lemma trim_leading (V : Type) (l : list (option V)) : forall last,
  trim last l = last - leading_missing l.
Proof.
  induction l as [|[v|] t IH]; intros last; simpl.
  - lia.
  - lia.
  - rewrite IH. lia.
Qed.

Lemma leading_missing_le (V : Type) (l : list (option V)) :
  leading_missing l <= List.length l.
Proof. induction l as [|[v|] t IH]; simpl; lia. Qed.

Lemma leading_missing_split (V : Type) (l : list (option V)) :
  l = repeat None (leading_missing l) ++ skipn (leading_missing l) l /\
  (forall t, skipn (leading_missing l) l <> None :: t).
Proof.
  induction l as [|[v|] t IH]; simpl.
  - split; [reflexivity | discriminate].
  - split; [reflexivity | discriminate].
  - destruct IH as [IH1 IH2]. split; [f_equal; exact IH1 | exact IH2].
Qed.

Lemma row_count_trailing (V : Type) (d : list (option V)) :
  row_count d = List.length d - trailing_missing d.
Proof.
  unfold row_count, trailing_missing. apply trim_leading.
Qed.

Lemma row_count_le (V : Type) (d : list (option V)) :
  row_count d <= List.length d.
Proof. rewrite row_count_trailing. lia. Qed.

(** A row is its first [row_count] elements followed by missing values
    only, and the last of those first elements is not missing. *)
Lemma row_count_split (V : Type) (d : list (option V)) :
  d = firstn (row_count d) d ++ repeat None (trailing_missing d) /\
  (forall t, rev (firstn (row_count d) d) <> None :: t).
Proof.
  pose proof (leading_missing_split (rev d)) as [Hs Hn].
  pose proof (leading_missing_le (rev d)) as Hle.
  rewrite length_rev in Hle.
  fold (trailing_missing d) in Hs, Hn, Hle.
  assert (rev (skipn (trailing_missing d) (rev d))
          = firstn (row_count d) d) as Hk.
  { rewrite row_count_trailing, skipn_rev, rev_involutive. reflexivity. }
  split.
  - rewrite <- Hk.
    apply (f_equal (@rev _)) in Hs.
    rewrite rev_involutive, rev_app_distr in Hs.
    rewrite Hs at 1. f_equal.
    clear. induction (trailing_missing d) as [|k IH]; simpl; [reflexivity|].
    rewrite IH. clear IH.
    induction k as [|k IH]; simpl; [reflexivity|]. rewrite <- IH. reflexivity.
  - intros t Ht. rewrite <- Hk, rev_involutive in Ht. exact (Hn t Ht).
Qed.

(** ** Filling the compressed array *)

Lemma skipn_repeat_sub (A : Type) (x : A) : forall a k,
  skipn a (repeat x k) = repeat x (k - a).
Proof.
  induction a as [|a IH]; intros k.
  - rewrite Nat.sub_0_r. reflexivity.
  - destruct k as [|k]; simpl; [reflexivity | apply IH].
Qed.

Lemma assign_slice_fresh (V : Type) (pre vals : list (option V)) (k : nat) :
  List.length vals <= k ->
  assign_slice (pre ++ repeat None k) (List.length pre)
    (List.length pre + List.length vals) vals
  = Return ((pre ++ vals) ++ repeat None (k - List.length vals)).
Proof.
  intros Hk. unfold assign_slice.
  rewrite length_app, repeat_length.
  replace (Nat.min (List.length pre) (List.length pre + k))
    with (List.length pre) by lia.
  replace (Nat.max (List.length pre)
             (Nat.min (List.length pre + List.length vals)
                (List.length pre + k)))
    with (List.length pre + List.length vals) by lia.
  replace (List.length pre + List.length vals - List.length pre)
    with (List.length vals) by lia.
  rewrite Nat.eqb_refl.
  rewrite firstn_app, firstn_all, Nat.sub_diag, firstn_O, app_nil_r.
  rewrite skipn_app, skipn_all2 by lia.
  replace (List.length pre + List.length vals - List.length pre)
    with (List.length vals) by lia.
  rewrite skipn_repeat_sub. simpl. rewrite <- app_assoc. reflexivity.
Qed.

Lemma sum_list_app (l1 l2 : list nat) :
  sum_list (l1 ++ l2) = sum_list l1 + sum_list l2.
Proof. induction l1; simpl; [reflexivity | rewrite IHl1; lia]. Qed.

Lemma row_prefixes_length (V : Type) (rows : list (list (option V))) :
  List.length (row_prefixes rows) = sum_list (map (@row_count V) rows).
Proof.
  unfold row_prefixes. induction rows as [|d rows IH]; simpl; [reflexivity|].
  rewrite length_app, IH, length_firstn.
  pose proof (row_count_le d). lia.
Qed.

Lemma fill_rows_fresh (V : Type) (rows : list (list (option V))) :
  forall pre,
    fill_rows (combine (map (@row_count V) rows) rows) (List.length pre)
      (pre ++ repeat None (sum_list (map (@row_count V) rows)))
    = Return (pre ++ row_prefixes rows).
Proof.
  induction rows as [|d rows IH]; intros pre.
  - simpl. reflexivity.
  - cbn [map combine fill_rows sum_list fold_right].
    change (fold_right Nat.add 0 (map (@row_count V) rows))
      with (sum_list (map (@row_count V) rows)).
    unfold row_prefixes. cbn [map concat]. fold (row_prefixes rows).
    destruct (Nat.eqb_spec (row_count d) 0) as [H0|Hn].
    + rewrite H0. simpl. apply IH.
    + pose proof (row_count_le d) as Hle.
      assert (List.length (firstn (row_count d) d) = row_count d) as Hl
        by (rewrite length_firstn; lia).
      rewrite <- Hl at 2.
      rewrite assign_slice_fresh by lia.
      cbn [bind]. rewrite Hl.
      replace (row_count d + sum_list (map (@row_count V) rows) - row_count d)
        with (sum_list (map (@row_count V) rows)) by lia.
      replace (List.length pre + row_count d)
        with (List.length (pre ++ firstn (row_count d) d))
        by (rewrite length_app, Hl; reflexivity).
      rewrite IH, <- app_assoc. reflexivity.
Qed.

Lemma fill_rows_ok (V : Type) (rows : list (list (option V))) :
  fill_rows (combine (map (@row_count V) rows) rows) 0
    (empty_compressed_data V (sum_list (map (@row_count V) rows)))
  = Return (row_prefixes rows).
Proof. exact (fill_rows_fresh rows []). Qed.

(** ** Transposition into the order the axes already have *)

Ltac monad_unfold := unfold mbind, mret, lift, get, put; cbn [fst snd].

Lemma is_permutation_seq (n : nat) : is_permutation n (seq 0 n) = true.
Proof.
  unfold is_permutation. rewrite length_seq, Nat.eqb_refl. simpl.
  apply forallb_forall. intros k Hk. apply existsb_exists.
  exists k. split; [assumption | apply Nat.eqb_refl].
Qed.

Lemma data_transpose_id (V : Type) (d : Data V) :
  data_transpose (seq 0 (data_ndim d)) d = Return d.
Proof.
  unfold data_transpose. rewrite is_permutation_seq. simpl.
  destruct (list_eq_dec Nat.eq_dec (seq 0 (data_ndim d)) (seq 0 (data_ndim d)));
    [reflexivity | contradiction].
Qed.

Lemma mapM_getitem_seq (A : Type) (l : list A) : forall pre,
  mapM (getitem (pre ++ l)) (seq (List.length pre) (List.length l)) = Return l.
Proof.
  induction l as [|a l IH]; intros pre; simpl; [reflexivity|].
  unfold getitem at 1. rewrite nth_error_app2, Nat.sub_diag by lia. simpl.
  specialize (IH (pre ++ [a])).
  rewrite <- app_assoc, length_app, Nat.add_1_r in IH. simpl in IH.
  rewrite IH. reflexivity.
Qed.

Lemma field_eta (V : Type) (f : Field V) :
  {| f_data := f_data f;
     f_data_axes := f_data_axes f;
     f_domain_axes := f_domain_axes f;
     f_constructs := f_constructs f |} = f.
Proof. destruct f; reflexivity. Qed.

Lemma transpose_id_no_constructs (V : Type) (f : Field V) (d : Data V) :
  f_data f = Some d ->
  List.length (f_data_axes f) = data_ndim d ->
  f_constructs f = [] ->
  transpose (Some (seq 0 (data_ndim d))) true f = (f, Return tt).
Proof.
  intros Hd Hax Hc. unfold transpose, field_data. monad_unfold.
  rewrite Hd. cbn [fst snd]. rewrite data_transpose_id.
  rewrite <- Hax.
  pose proof (mapM_getitem_seq (f_data_axes f) []) as Hm. simpl in Hm.
  cbn [data_ndim] in *. rewrite Hm.
  rewrite Hc. simpl.
  unfold mret, set_data_axes, set_data. simpl.
  rewrite <- Hd. rewrite field_eta. reflexivity.
Qed.

Lemma keeps_data_bind (V A B : Type) (m : M V A) (k : A -> M V B) :
  keeps_data m -> (forall a, keeps_data (k a)) -> keeps_data (mbind m k).
Proof.
  intros Hm Hk f. unfold mbind. specialize (Hm f).
  destruct (m f) as [f' [a|e]]; simpl in *.
  - rewrite Hk. exact Hm.
  - exact Hm.
Qed.

Lemma keeps_data_for_each (V A : Type) (l : list A) (body : A -> M V unit) :
  (forall a, keeps_data (body a)) -> keeps_data (for_each l body).
Proof.
  intros Hb. induction l as [|a l IH]; simpl.
  - intros f. reflexivity.
  - apply keeps_data_bind; [apply Hb | intros _; exact IH].
Qed.

Lemma keeps_data_transpose_construct (V : Type) (axes : list string) (i : nat) :
  keeps_data (@transpose_construct V axes i).
Proof.
  intros f. unfold transpose_construct. monad_unfold.
  destruct (getitem (f_constructs f) i) as [kc|e]; [|reflexivity].
  destruct (c_data (snd kc)) as [data|]; [|reflexivity].
  destruct (data_ndim data <? 2); [reflexivity|].
  destruct (mapM _ _) as [iaxes|e]; [|reflexivity].
  destruct (data_transpose iaxes data) as [data'|e]; [|reflexivity].
  destruct (setitem _ _ _) as [cs|e]; reflexivity.
Qed.

Lemma transpose_id_keeps_data (V : Type) (f : Field V) (d : Data V) :
  f_data f = Some d ->
  f_data (fst (transpose (Some (seq 0 (data_ndim d))) true f)) = Some d.
Proof.
  intros Hd. unfold transpose, field_data. monad_unfold.
  rewrite Hd. cbn [fst snd]. rewrite data_transpose_id.
  destruct (mapM _ _) as [axes|e]; [|reflexivity].
  rewrite keeps_data_for_each by (intros; apply keeps_data_transpose_construct).
  reflexivity.
Qed.

(** ** Contiguous compression of the field data *)

Lemma flattened_rows_2d (V : Type) (n m : nat) (values : list (option V)) :
  flattened_rows {| data_shape := [n; m]; data_source := NumpyArray values |}
  = Return (chunks n m values).
Proof.
  unfold flattened_rows, data_array. simpl. rewrite Nat.mul_1_r. reflexivity.
Qed.

Lemma compress_contiguous_no_constructs (V : Type) (f : Field V)
  (n m : nat) (values : list (option V)) :
  f_data f = Some {| data_shape := [n; m]; data_source := NumpyArray values |} ->
  List.length (f_data_axes f) = 2 ->
  f_constructs f = [] ->
  compress f "contiguous" false
  = (f, Return (Some
       (set_data f
          {| data_shape := [n; m];
             data_source :=
               RaggedContiguousArray (row_prefixes (chunks n m values))
                 (nonzero (map (@row_count V) (chunks n m values))) |}))).
Proof.
  intros Hd Hax Hc.
  unfold compress, inplace_enabled, compress_body.
  unfold mbind at 1. unfold get at 1. rewrite Hd.
  cbn [get_compression_type data_source replace_space String.eqb negb andb].
  unfold mbind at 1. unfold lift at 1.
  cbn [check_ndim data_ndim data_shape List.length String.eqb Ascii.eqb
       Bool.eqb Nat.eqb].
  unfold mbind at 1.
  pose proof (transpose_id_no_constructs f Hd Hax Hc) as Ht.
  cbn [data_ndim data_shape List.length] in Ht. rewrite Ht. clear Ht.
  cbn [String.eqb Ascii.eqb Bool.eqb].
  unfold mbind at 1. unfold get at 1.
  unfold mbind at 1. unfold lift at 1. unfold field_data. rewrite Hd.
  unfold mbind at 1. unfold lift at 1. rewrite flattened_rows_2d.
  unfold mbind at 1. unfold lift at 1. rewrite fill_rows_ok.
  unfold compress_metadata, set_CompressedArray.
  monad_unfold. rewrite Hc. simpl. unfold field_data. rewrite Hd. reflexivity.
Qed.

Lemma sum_list_nonzero (l : list nat) : sum_list (nonzero l) = sum_list l.
Proof.
  induction l as [|x l IH]; simpl; [reflexivity|].
  destruct x as [|x]; simpl; rewrite IH; reflexivity.
Qed.

Lemma nonzero_spec (l : list nat) (c : nat) :
  In c (nonzero l) <-> In c l /\ c <> 0.
Proof.
  unfold nonzero. rewrite filter_In.
  destruct (Nat.eqb_spec c 0); simpl; intuition congruence.
Qed.

(** C6. Contiguous ragged compression of a field whose data is an
    uncompressed n x m array returns a field whose compressed array is
    the concatenation, in row order, of each row's elements up to its
    trailing missing values, and whose stored count variable lists, in
    row order, the row length minus the number of trailing missing
    values of every row for which that number is not 0; the compressed
    array has sum(Count) elements. *)
Theorem ragged_encoding_counts (V : Type) (f : Field V) (n m : nat)
  (values : list (option V)) :
  f_data f = Some {| data_shape := [n; m]; data_source := NumpyArray values |} ->
  List.length (f_data_axes f) = 2 ->
  f_constructs f = [] ->
  let rows := chunks n m values in
  let count := map (fun d => List.length d - trailing_missing d) rows in
  exists g compressed count_variable,
    compress f "contiguous" false = (f, Return (Some g)) /\
    f_data g = Some {| data_shape := [n; m];
                       data_source :=
                         RaggedContiguousArray compressed count_variable |} /\
    count_variable = filter (fun c => negb (c =? 0)) count /\
    ~ In 0 count_variable /\
    compressed
    = concat (map (fun d => firstn (List.length d - trailing_missing d) d)
                rows) /\
    List.length compressed = sum_list count /\
    List.length compressed = sum_list count_variable.
Proof.
  intros Hd Hax Hc rows count.
  assert (map (@row_count V) rows = count) as Hcount.
  { unfold count. apply map_ext. intros d. apply row_count_trailing. }
  eexists _, _, _.
  split; [apply (compress_contiguous_no_constructs f Hd Hax Hc)|].
  split; [reflexivity|].
  fold rows. rewrite Hcount.
  split; [reflexivity|].
  split.
  { intros Hin. apply nonzero_spec in Hin. destruct Hin as [_ Hin].
    apply Hin; reflexivity. }
  split.
  { unfold row_prefixes. f_equal. apply map_ext. intros d.
    rewrite row_count_trailing. reflexivity. }
  rewrite row_prefixes_length, Hcount, sum_list_nonzero. split; reflexivity.
Qed.

Lemma ragged_encoding_counts_witness :
  exists g compressed count_variable,
    compress example_field "contiguous" false
    = (example_field, Return (Some g)) /\
    f_data g = Some {| data_shape := [4; 9];
                       data_source :=
                         RaggedContiguousArray compressed count_variable |} /\
    count_variable
    = filter (fun c => negb (c =? 0))
        (map (fun d => List.length d - trailing_missing d)
           (chunks 4 9 (concat example_rows))) /\
    ~ In 0 count_variable /\
    compressed
    = concat (map (fun d => firstn (List.length d - trailing_missing d) d)
                (chunks 4 9 (concat example_rows))) /\
    List.length compressed
    = sum_list (map (fun d => List.length d - trailing_missing d)
                  (chunks 4 9 (concat example_rows))) /\
    List.length compressed = sum_list count_variable.
Proof.
  apply (@ragged_encoding_counts R example_field 4 9 (concat example_rows));
    reflexivity.
Defined.

(** The stored count variable of the docstring example. *)
Lemma example_count_variable :
  nonzero (map (@row_count R) example_rows) = [3; 7; 5; 9].
Proof. reflexivity. Qed.

(** ** Decoding what contiguous compression stores *)

Lemma take_slice_head (A : Type) (pre rest : list A) :
  take_slice (pre ++ rest) (slice_of 0 (List.length pre)) = pre.
Proof.
  unfold take_slice, slice_len, slice_hi, slice_lo. simpl.
  rewrite length_app.
  replace (Nat.min (List.length pre) (List.length pre + List.length rest) - 0)
    with (List.length pre) by lia.
  rewrite firstn_app, Nat.sub_diag, firstn_all. simpl. apply app_nil_r.
Qed.

Lemma take_slice_shift (A : Type) (pre rest : list A) (a b : nat) :
  take_slice (pre ++ rest)
    (slice_of (List.length pre + a) (List.length pre + b))
  = take_slice rest (slice_of a b).
Proof.
  unfold take_slice, slice_len, slice_hi, slice_lo. simpl.
  rewrite length_app, skipn_app, skipn_all2 by lia.
  replace (List.length pre + a - List.length pre) with a by lia.
  simpl. f_equal. lia.
Qed.

Lemma row_without_values (V : Type) (d : list (option V)) :
  row_count d = 0 -> d = repeat None (List.length d).
Proof.
  intros H0. pose proof (row_count_split d) as [Hs _].
  pose proof (row_count_trailing d) as Ht.
  pose proof (leading_missing_le (rev d)) as Hle. rewrite length_rev in Hle.
  fold (trailing_missing d) in Hle.
  rewrite H0 in Hs. simpl in Hs.
  replace (List.length d) with (trailing_missing d) by lia. exact Hs.
Qed.

Lemma decode_row_with_values (V : Type) (d rest : list (option V)) :
  decode_subarray (firstn (row_count d) d ++ rest) (List.length d)
    (slice_of 0 (row_count d)) = d.
Proof.
  pose proof (row_count_le d) as Hle.
  pose proof (row_count_split d) as [Hs _].
  pose proof (row_count_trailing d) as Ht.
  unfold decode_subarray.
  assert (List.length (firstn (row_count d) d) = row_count d) as Hl
    by (rewrite length_firstn; lia).
  assert (take_slice (firstn (row_count d) d ++ rest)
            (slice_of 0 (row_count d)) = firstn (row_count d) d) as Hts.
  { pose proof (take_slice_head (firstn (row_count d) d) rest) as H.
    rewrite Hl in H. exact H. }
  rewrite Hts, Hl. rewrite Nat.min_l by lia.
  rewrite firstn_firstn, Nat.min_id.
  pose proof (leading_missing_le (rev d)) as Hlm. rewrite length_rev in Hlm.
  fold (trailing_missing d) in Hlm.
  replace (List.length d - row_count d) with (trailing_missing d) by lia.
  symmetry. exact Hs.
Qed.

Lemma empty_rows_last_tail (c : nat) (count : list nat) :
  empty_rows_last (c :: count) -> empty_rows_last count.
Proof.
  intros H pre post E. apply (H (c :: pre) post). rewrite E. reflexivity.
Qed.

Lemma nonzero_all_zero (count : list nat) :
  Forall (fun c => c = 0) count -> nonzero count = [].
Proof.
  induction 1 as [|c l Hc _ IH]; simpl; [reflexivity|]. subst c. exact IH.
Qed.

Lemma row_prefixes_all_zero (V : Type) (rows : list (list (option V))) :
  Forall (fun c => c = 0) (map (@row_count V) rows) -> row_prefixes rows = [].
Proof.
  unfold row_prefixes. induction rows as [|d rows IH]; simpl; intros H.
  - reflexivity.
  - inversion H as [|? ? H0 Hr]. rewrite H0, IH by assumption. reflexivity.
Qed.

(** Decoding the stored prefixes with the stored counts gives the rows
    back when no row without values comes before a row with values. *)
Lemma decode_rows (V : Type) (m : nat) (rows : list (list (option V))) :
  Forall (fun d => List.length d = m) rows ->
  empty_rows_last (map (@row_count V) rows) ->
  map (fun i =>
         if i <? List.length (nonzero (map (@row_count V) rows))
         then decode_subarray (row_prefixes rows) m
                (pslice (nonzero (map (@row_count V) rows)) i)
         else repeat None m)
      (seq 0 (List.length rows))
  = rows.
Proof.
  induction rows as [|d rows IH]; intros Hm Hlast; [reflexivity|].
  inversion Hm as [|? ? Hd Hrows]. subst.
  cbn [List.length seq]. rewrite <- seq_shift. cbn [map]. rewrite map_map.
  destruct (Nat.eqb_spec (row_count d) 0) as [H0|Hn0].
  - assert (Forall (fun c => c = 0) (map (@row_count V) rows)) as Hz.
    { apply (Hlast [] (map (@row_count V) rows)). cbn [map app].
      rewrite H0. reflexivity. }
    assert (nonzero (row_count d :: map (@row_count V) rows) = []) as Hnz.
    { apply nonzero_all_zero. constructor; assumption. }
    rewrite Hnz. cbn [List.length seq map]. f_equal.
    + symmetry. apply row_without_values. assumption.
    + rewrite <- (IH Hrows (empty_rows_last_tail Hlast)) at 2.
      rewrite (nonzero_all_zero Hz). apply map_ext. intros; reflexivity.
  - assert (nonzero (row_count d :: map (@row_count V) rows)
            = row_count d :: nonzero (map (@row_count V) rows)) as Hnz.
    { unfold nonzero. simpl. destruct (row_count d); [congruence|reflexivity]. }
    rewrite Hnz. unfold row_prefixes. cbn [map concat]. fold (row_prefixes rows).
    cbn [List.length]. f_equal.
    + destruct (Nat.ltb_spec 0
                  (S (List.length (nonzero (map (@row_count V) rows)))));
        [|lia].
      unfold pslice, prefix_sum, sum_list. cbn [firstn fold_right].
      rewrite Nat.add_0_r. apply decode_row_with_values.
    + rewrite <- (IH Hrows (empty_rows_last_tail Hlast)) at 2.
      apply map_ext. intros i.
      destruct (Nat.ltb_spec (S i)
                  (S (List.length (nonzero (map (@row_count V) rows))))),
               (Nat.ltb_spec i
                  (List.length (nonzero (map (@row_count V) rows))));
        try lia; [|reflexivity].
      unfold decode_subarray, pslice.
      rewrite !prefix_sum_cons.
      assert (List.length (firstn (row_count d) d) = row_count d) as Hl
        by (rewrite length_firstn; pose proof (row_count_le d); lia).
      assert (forall a b,
                take_slice (firstn (row_count d) d ++ row_prefixes rows)
                  (slice_of (row_count d + a) (row_count d + b))
                = take_slice (row_prefixes rows) (slice_of a b)) as Hsh.
      { intros a b.
        pose proof (take_slice_shift (firstn (row_count d) d)
                      (row_prefixes rows) a b) as Hs.
        rewrite Hl in Hs. exact Hs. }
      rewrite !Hsh. reflexivity.
Qed.

Lemma chunks_length (A : Type) (m : nat) : forall n (l : list A),
  List.length l = n * m ->
  Forall (fun d => List.length d = m) (chunks n m l) /\
  List.length (chunks n m l) = n /\
  concat (chunks n m l) = l.
Proof.
  induction n as [|n IH]; intros l Hl; simpl in *.
  - destruct l; [|discriminate]. repeat split. constructor.
  - destruct (IH (skipn m l)) as (H1 & H2 & H3).
    { rewrite length_skipn. lia. }
    repeat split.
    + constructor; [rewrite length_firstn; lia | assumption].
    + lia.
    + rewrite H3. apply firstn_skipn.
Qed.

(** Contiguous compression followed by uncompression gives the field
    back when its array has n x m elements and no row without values
    comes before a row with values. *)
Lemma roundtrip_when_empty_rows_last (V : Type) (f : Field V) (n m : nat)
  (values : list (option V)) :
  f_data f = Some {| data_shape := [n; m]; data_source := NumpyArray values |} ->
  List.length values = n * m ->
  List.length (f_data_axes f) = 2 ->
  f_constructs f = [] ->
  empty_rows_last (map (@row_count V) (chunks n m values)) ->
  exists g,
    compress f "contiguous" false = (f, Return (Some g)) /\
    uncompress g false = (g, Return (Some f)).
Proof.
  intros Hd Hlen Hax Hc Hlast.
  eexists. split; [apply (compress_contiguous_no_constructs f Hd Hax Hc)|].
  destruct (chunks_length m n values Hlen) as (Hm & Hn & Hcat).
  unfold uncompress, inplace_enabled, uncompress_body, set_data.
  monad_unfold. cbn [f_data f_constructs data_uncompress data_source
                     data_array data_shape bind].
  rewrite Hc. cbn [List.length seq for_each]. unfold mret.
  unfold decode_contiguous.
  pose proof (decode_rows Hm Hlast) as Hdec. rewrite Hn in Hdec.
  rewrite Hdec, Hcat. cbn [f_data_axes f_domain_axes f_constructs].
  clear Hdec Hlast Hm Hn Hcat.
  destruct f as [fd fa fdom fc]. cbn in Hd, Hc. subst fd fc. reflexivity.
Qed.

(** ** A row without values before a row with values *)

(** C1. The 3 x 2 array with rows (1, --), (--, --), (2, 3) has its
    missing values at the ends of its rows only.  Contiguous
    compression stores the values 1, 2, 3 with the counts 1, 2 and the
    shape (3, 2), which is also what it stores for the array with rows
    (1, --), (2, 3), (--, --); uncompressing gives the latter array, not
    the one that was compressed. *)
Theorem roundtrip_loses_empty_row :
  exists g,
    compress empty_row_inside "contiguous" false
    = (empty_row_inside, Return (Some g)) /\
    compress empty_row_last "contiguous" false
    = (empty_row_last, Return (Some g)) /\
    f_data g = Some {| data_shape := [3; 2];
                       data_source :=
                         RaggedContiguousArray [Some 1; Some 2; Some 3]
                           [1; 2] |} /\
    uncompress g false = (g, Return (Some empty_row_last)) /\
    empty_row_last <> empty_row_inside.
Proof.
  eexists. repeat split; try reflexivity. discriminate.
Qed.

(** The docstring example decodes to the array that was compressed. *)
Lemma example_roundtrip :
  exists g,
    compress example_field "contiguous" false
    = (example_field, Return (Some g)) /\
    uncompress g false = (g, Return (Some example_field)).
Proof.
  eexists. split; [vm_compute; reflexivity|]. vm_compute. reflexivity.
Qed.

(** ** Methods that are not available *)

Lemma ragged_prefix_eqb (s t : string) :
  ("ragged_" ++ s =? "ragged_" ++ t)%string = (s =? t)%string.
Proof. reflexivity. Qed.

Lemma not_already_compressed (V : Type) (d : Data V) (method : string) :
  method <> "contiguous"%string ->
  method <> "indexed"%string ->
  method <> "indexed_contiguous"%string ->
  negb (replace_space (get_compression_type d) =? EmptyString)%string
  && (replace_space (get_compression_type d) =? "ragged_" ++ method)%string
  = false.
Proof.
  intros H1 H2 H3. unfold get_compression_type.
  destruct (data_source d); try reflexivity.
  - change (replace_space "ragged contiguous")
      with ("ragged_" ++ "contiguous")%string.
    rewrite ragged_prefix_eqb. apply andb_false_intro2.
    apply String.eqb_neq. congruence.
  - change (replace_space "ragged indexed")
      with ("ragged_" ++ "indexed")%string.
    rewrite ragged_prefix_eqb. apply andb_false_intro2.
    apply String.eqb_neq. congruence.
  - change (replace_space "ragged indexed contiguous")
      with ("ragged_" ++ "indexed_contiguous")%string.
    rewrite ragged_prefix_eqb. apply andb_false_intro2.
    apply String.eqb_neq. congruence.
Qed.

Lemma check_ndim_unsupported (method : string) (ndim : nat) :
  method <> "contiguous"%string ->
  method <> "indexed"%string ->
  method <> "indexed_contiguous"%string ->
  check_ndim method ndim = Return tt.
Proof.
  intros H1 H2 H3. unfold check_ndim.
  apply String.eqb_neq in H1, H2, H3. rewrite H1, H2, H3. reflexivity.
Qed.

Lemma compress_body_unsupported (V : Type) (f : Field V) (d : Data V)
  (method : string) :
  f_data f = Some d ->
  method <> "contiguous"%string ->
  method <> "indexed"%string ->
  method <> "indexed_contiguous"%string ->
  exists e,
    compress_body method f
    = (fst (transpose (Some (seq 0 (data_ndim d))) true f), Raise e).
Proof.
  intros Hd H1 H2 H3. unfold compress_body.
  unfold mbind at 1. unfold get at 1. rewrite Hd.
  rewrite not_already_compressed by assumption.
  unfold mbind at 1. unfold lift at 1.
  rewrite check_ndim_unsupported by assumption.
  unfold mbind at 1.
  destruct (transpose (Some (seq 0 (data_ndim d))) true f) as [f1 [[]|e]];
    cbn [fst]; [|eexists; reflexivity].
  destruct (method =? "gathered")%string; [eexists; reflexivity|].
  monad_unfold.
  destruct (field_data f1) as [d1|e]; [|eexists; reflexivity].
  destruct (flattened_rows d1) as [rows|e]; [|eexists; reflexivity].
  destruct (fill_rows _ _ _) as [c|e]; [|eexists; reflexivity].
  apply String.eqb_neq in H1, H2, H3. rewrite H1, H2, H3.
  eexists; reflexivity.
Qed.

(** C8 (as amended). Let the method be 'gathered' or any other name
    than 'contiguous', 'indexed' and 'indexed_contiguous'.  For a field
    construct that has data, compression raises an error and returns no
    field; when the operation is not in place the field construct is
    left as it was, when it is in place the field construct is left as
    [transpose(range(ndim), constructs=True)] leaves it, and in both
    cases its data is the data it had: no compressed array is attached.
    A field construct without data is returned as it is, and no error is
    raised. *)
Theorem compress_unsupported_raises (V : Type) (f : Field V)
  (method : string) (inplace : bool) :
  method <> "contiguous"%string ->
  method <> "indexed"%string ->
  method <> "indexed_contiguous"%string ->
  (forall d, f_data f = Some d ->
     exists e f',
       compress f method inplace = (f', Raise e) /\
       f' = (if inplace
             then fst (transpose (Some (seq 0 (data_ndim d))) true f)
             else f) /\
       f_data f' = Some d) /\
  (f_data f = None ->
     compress f method inplace
     = (f, Return (if inplace then None else Some f))).
Proof.
  intros H1 H2 H3. split.
  - intros d Hd.
    destruct (compress_body_unsupported f Hd H1 H2 H3) as [e He].
    unfold compress, inplace_enabled. rewrite He.
    exists e. destruct inplace; eexists; repeat split.
    + apply transpose_id_keeps_data. assumption.
    + assumption.
  - intros Hn. unfold compress, inplace_enabled, compress_body.
    unfold mbind, get. rewrite Hn. unfold mret. destruct inplace; reflexivity.
Qed.

Lemma compress_unsupported_raises_witness :
  (forall d, f_data example_field = Some d ->
     exists e f',
       compress example_field "gathered" false = (f', Raise e) /\
       f' = example_field /\
       f_data f' = Some d) /\
  (f_data example_field = None ->
     compress example_field "gathered" false
     = (example_field, Return (Some example_field))).
Proof.
  apply (@compress_unsupported_raises R example_field "gathered" false);
    discriminate.
Defined.

(** In place, the error is raised after the metadata constructs were
    put in the axis order of the data: the construct that spanned
    (axis 1, axis 0) spans (axis 0, axis 1) afterwards, with its values
    transposed, while the data of the field is as it was. *)
Lemma compress_in_place_failure_reorders_construct :
  exists f',
    compress field_with_transposed_construct "gathered" true
    = (f', Raise ValueError) /\
    f_data f' = f_data field_with_transposed_construct /\
    f_constructs f'
    = [("auxiliarycoordinate0"%string,
        {| c_axes := ["domainaxis0"; "domainaxis1"]%string;
           c_data := Some {| data_shape := [2; 3];
                             data_source :=
                               NumpyArray
                                 (map Some [10; 12; 14; 11; 13; 15]) |} |})] /\
    f' <> field_with_transposed_construct.
Proof.
  eexists. split; [vm_compute; reflexivity|].
  split; [reflexivity|]. split; [reflexivity|]. discriminate.
Qed.

(** C8 (as stated) fails on a field construct without data: compression
    by 'gathered' returns the field and raises nothing. *)
Lemma compress_gathered_without_data_returns :
  compress no_data_field "gathered" false
  = (no_data_field, Return (Some no_data_field)) /\
  ~ raises (snd (compress no_data_field "gathered" false)).
Proof.
  split; [reflexivity|]. intros [e He]. discriminate He.
Qed.

(** ** Interpolation coefficients of the geographic formulas *)

Local Open Scope R_scope.

Lemma fplus_zero (cv v : vector) : fplus cv (fmultiply 0 v) = cv.
Proof.
  destruct cv as [[a b] c]. unfold fplus, fmultiply, vx, vy, vz. simpl.
  f_equal; [f_equal|]; ring.
Qed.

(** C7. The coefficient formula gives the same vector when [ce] is
    absent as when [ce] is 0, and the same vector when [ca] is absent as
    when [ca] is 0, whatever the other arguments are. *)
Theorem fcea2cv_absent_is_zero (va vb : vector) (ce ca : option R) :
  fcea2cv va vb None ca = fcea2cv va vb (Some 0) ca /\
  fcea2cv va vb ce None = fcea2cv va vb ce (Some 0).
Proof.
  unfold fcea2cv. split.
  - replace (1 - 0 * 0) with 1 by ring.
    rewrite fplus_zero. reflexivity.
  - destruct ce as [ce|].
    + replace (1 - ce * ce - 0 * 0) with (1 - ce * ce) by ring.
      rewrite fplus_zero. reflexivity.
    + replace (1 - 0 * 0) with 1 by ring.
      rewrite fplus_zero. reflexivity.
Qed.

Local Close Scope R_scope.

(** ** The linear scenario *)

Local Open Scope R_scope.

Lemma scenario_subareas :
  interpolation_subareas [0; 4; 7; 8; 11]%nat
  = [ {| tp_index := 0; u_start := 0; u_stop := 5; subarea_size := 5;
         new_area := true |};
      {| tp_index := 1; u_start := 5; u_stop := 8; subarea_size := 4;
         new_area := false |};
      {| tp_index := 3; u_start := 8; u_stop := 12; subarea_size := 4;
         new_area := true |} ].
Proof. reflexivity. Qed.

Lemma scenario_first_segment :
  linear_interpolation 15 135 5 true = [15; 45; 75; 105; 135].
Proof.
  unfold linear_interpolation, s_coefficients. simpl.
  repeat (f_equal; try lra).
Qed.

(** The first pass of the loop stops at the name [d]: when the two
    tie points of the first subarea are there, the loop raises
    NameError and leaves the buffer as it was. *)
Lemma interpolate_subareas_raises (d0 : nat) (tie_points : list R)
  (a : subarea) (rest : list subarea) (uarray : list (option R)) :
  (tp_index a + 1 < List.length tie_points)%nat ->
  interpolate_subareas d0 tie_points (a :: rest) uarray
  = (uarray, Raise NameError).
Proof.
  intros Hlen. cbn [interpolate_subareas]. unfold interpolate_subarea, getitem.
  destruct (nth_error tie_points (tp_index a)) as [ua|] eqn:Ha.
  - destruct (nth_error tie_points (tp_index a + 1)) as [ub|] eqn:Hb.
    + reflexivity.
    + apply nth_error_None in Hb. lia.
  - apply nth_error_None in Ha. lia.
Qed.

(** C3. The full decoding of the scenario raises NameError, for the
    index expression [...] as for [:]: [__getitem__] stops in the first
    pass of its loop, at the name [d], and returns no values.  Called
    with the two tie points of the first subarea, [_linear_interpolation]
    gives the five values 15, 45, 75, 105, 135. *)
Theorem linear_decode_raises :
  sampled_linear_getitem linear_scenario [Ellipsis] = Raise NameError /\
  sampled_linear_getitem linear_scenario [full_slice] = Raise NameError /\
  (forall values,
     sampled_linear_getitem linear_scenario [Ellipsis] <> Return values) /\
  linear_interpolation 15 135 5 true = [15; 45; 75; 105; 135].
Proof.
  assert (sampled_linear_getitem linear_scenario [Ellipsis]
          = Raise NameError) as H1.
  { unfold sampled_linear_getitem.
    replace (first_or_last_index linear_scenario [Ellipsis])
      with (@Raise (list (option R)) IndexError) by reflexivity.
    cbv zeta. cbn [sla_tie_point_indices sla_tie_points linear_scenario].
    rewrite scenario_subareas.
    rewrite interpolate_subareas_raises by (simpl; lia).
    reflexivity. }
  split; [exact H1|].
  split.
  { unfold sampled_linear_getitem.
    replace (first_or_last_index linear_scenario [full_slice])
      with (@Raise (list (option R)) IndexError) by reflexivity.
    cbv zeta. cbn [sla_tie_point_indices sla_tie_points linear_scenario].
    rewrite scenario_subareas.
    rewrite interpolate_subareas_raises by (simpl; lia).
    reflexivity. }
  split; [intros values H; rewrite H1 in H; discriminate|].
  exact scenario_first_segment.
Qed.

(** ** The values of a subarea *)

Lemma linear_interpolation_values (ua ub : R) (size : nat) :
  linear_interpolation ua ub size true
  = map (fun i => ua * (1 - INR i / INR (size - 1))
                  + ub * (INR i / INR (size - 1)))
      (seq 0 size).
Proof.
  unfold linear_interpolation, s_coefficients. simpl.
  induction (seq 0 size) as [|i l IH]; simpl; [reflexivity|].
  rewrite IH. reflexivity.
Qed.

Lemma linear_interpolation_drop (ua ub : R) (size : nat) :
  linear_interpolation ua ub size false
  = tl (linear_interpolation ua ub size true).
Proof.
  unfold linear_interpolation. destruct (s_coefficients size) as [s oms].
  simpl. destruct (map _ _); reflexivity.
Qed.

Lemma linear_interpolation_length (ua ub : R) (size : nat) (new : bool) :
  List.length (linear_interpolation ua ub size new)
  = (size - (if new then 0 else 1))%nat.
Proof.
  destruct new.
  - rewrite linear_interpolation_values, length_map, length_seq. lia.
  - rewrite linear_interpolation_drop, linear_interpolation_values.
    destruct size as [|n]; [reflexivity|].
    simpl. rewrite length_map, length_seq. lia.
Qed.

Lemma linear_interpolation_first (ua ub : R) (size : nat) :
  (1 <= size)%nat ->
  hd 0 (linear_interpolation ua ub size true) = ua.
Proof.
  intros Hs. rewrite linear_interpolation_values.
  destruct size as [|n]; [lia|]. simpl. unfold Rdiv. ring.
Qed.

Lemma linear_interpolation_last (ua ub : R) (size : nat) :
  (2 <= size)%nat ->
  last (linear_interpolation ua ub size true) 0 = ub.
Proof.
  intros Hs. rewrite linear_interpolation_values.
  destruct size as [|n]; [lia|].
  rewrite seq_S, map_app. simpl map. rewrite last_last.
  rewrite Nat.sub_0_r.
  assert (INR n <> 0) by (apply not_0_INR; lia).
  field. assumption.
Qed.

Local Close Scope R_scope.

(** ** The windows of the subareas *)

Lemma subareas_from_cons (i : nat) (nw : bool) (x y : nat) (rest : list nat) :
  subareas_from i nw (x :: y :: rest)
  = if y - x <=? 1 then subareas_from (S i) true (y :: rest)
    else {| tp_index := i;
            u_start := if nw then x else x + 1;
            u_stop := y + 1;
            subarea_size := y - x + 1;
            new_area := nw |}
         :: subareas_from (S i) false (y :: rest).
Proof. reflexivity. Qed.

Lemma subareas_from_new_head (tpi : list nat) : forall i b tail,
  subareas_from i true tpi = b :: tail -> new_area b = true.
Proof.
  induction tpi as [|x rest IH]; intros i b tail H; [discriminate|].
  destruct rest as [|y rest']; [discriminate|].
  rewrite subareas_from_cons in H. destruct (y - x <=? 1).
  - eapply IH; eassumption.
  - remember (subareas_from (S i) false (y :: rest')) as rest_areas.
    injection H as <- _. reflexivity.
Qed.

Lemma subareas_from_head (i : nat) (nw : bool) (y : nat) (rest : list nat)
  (b : subarea) (tail : list subarea) :
  subareas_from i nw (y :: rest) = b :: tail ->
  new_area b = false ->
  u_start b = y + 1 /\ tp_index b = i.
Proof.
  intros H Hb. destruct rest as [|y1 r]; [discriminate|].
  rewrite subareas_from_cons in H. destruct (y1 - y <=? 1).
  - apply subareas_from_new_head in H. congruence.
  - remember (subareas_from (S i) false (y1 :: r)) as rest_areas.
    injection H as <- _. simpl in Hb. subst nw. split; reflexivity.
Qed.

Lemma subareas_from_adjacent (tpi : list nat) : forall i nw pre a b post,
  subareas_from i nw tpi = pre ++ a :: b :: post ->
  new_area b = false ->
  u_start b = u_stop a /\ tp_index b = tp_index a + 1.
Proof.
  induction tpi as [|x rest IH]; intros i nw pre a b post H Hb.
  - destruct pre; discriminate.
  - destruct rest as [|y rest']; [destruct pre; discriminate|].
    rewrite subareas_from_cons in H. destruct (y - x <=? 1).
    + eapply IH; eassumption.
    + remember (subareas_from (S i) false (y :: rest')) as rest_areas eqn:Er.
      destruct pre as [|c pre']; cbn [app] in H.
      * injection H as <- Ht. rewrite Er in Ht.
        destruct (@subareas_from_head (S i) false y rest' b post Ht Hb)
          as [Hs Hi].
        cbn [u_stop tp_index]. rewrite Hs, Hi. lia.
      * injection H as _ Ht. rewrite Er in Ht. eapply IH; eassumption.
Qed.

Lemma subareas_from_facts (rest : list nat) : forall x i nw,
  StronglySorted le (x :: rest) ->
  Forall (area_facts x) (subareas_from i nw (x :: rest)).
Proof.
  induction rest as [|y rest' IH]; intros x i nw Hs; [constructor|].
  rewrite subareas_from_cons.
  assert (x <= y) as Hxy.
  { inversion Hs as [|? ? _ Hall]. inversion Hall. assumption. }
  assert (StronglySorted le (y :: rest')) as Hs' by (inversion Hs; assumption).
  assert (Forall (area_facts x) (subareas_from (S i) true (y :: rest'))
          /\ Forall (area_facts x) (subareas_from (S i) false (y :: rest')))
    as [Ht Hf].
  { split; (eapply Forall_impl; [|apply IH; exact Hs']);
      unfold area_facts; intros c Hc; destruct (new_area c); lia. }
  destruct (Nat.leb_spec (y - x) 1) as [Hle|Hgt]; [exact Ht|].
  constructor; [|exact Hf].
  unfold area_facts. simpl. destruct nw; lia.
Qed.

Lemma subareas_from_order (tpi : list nat) : forall i nw,
  StronglySorted le tpi ->
  StronglySorted window_order (subareas_from i nw tpi).
Proof.
  induction tpi as [|x rest IH]; intros i nw Hs; [constructor|].
  destruct rest as [|y rest']; [constructor|].
  assert (StronglySorted le (y :: rest')) as Hs' by (inversion Hs; assumption).
  rewrite subareas_from_cons. destruct (y - x <=? 1); [apply IH; exact Hs'|].
  constructor; [apply IH; exact Hs'|].
  eapply Forall_impl; [|apply subareas_from_facts; exact Hs'].
  unfold area_facts, window_order. simpl. intros c Hc.
  destruct (new_area c); lia.
Qed.

Lemma strongly_sorted_split (A : Type) (Rel : A -> A -> Prop)
  (l1 : list A) (x : A) (l2 : list A) :
  StronglySorted Rel (l1 ++ x :: l2) ->
  Forall (fun c => Rel c x) l1 /\ Forall (Rel x) l2.
Proof.
  induction l1 as [|c l1 IH]; simpl; intros Hs.
  - inversion Hs. split; [constructor | assumption].
  - inversion Hs as [|? ? Hs' Hall]. destruct (IH Hs') as [H1 H2].
    split; [|assumption]. constructor; [|assumption].
    rewrite Forall_forall in Hall. apply Hall.
    apply in_or_app. right. left. reflexivity.
Qed.

(** What [_linear_interpolation] returns for two subareas that follow
    one another, and the windows that [interpolation_subareas] has for
    them.  Let [b] not be the first of a continuous area, for tie point
    indices that do not decrease.  The values [b] returns are the
    computed ones without the value at its first position, as many as
    its window has positions; the window of [b] starts right after the
    position [p] of the tie point the two share, which is the last
    position of the window of [a] and lies in the window of no other
    subarea; and the value [a] computes at its last position and the
    value [b] computes at its first position are both the shared tie
    point [ub]. *)
Lemma adjacent_subareas_meet (tie_point_indices : list nat)
  (pre post : list subarea) (a b : subarea) (ua ub uc : R) :
  StronglySorted le tie_point_indices ->
  interpolation_subareas tie_point_indices = pre ++ a :: b :: post ->
  new_area b = false ->
  let p := u_stop a - 1 in
  linear_interpolation ub uc (subarea_size b) false
  = tl (linear_interpolation ub uc (subarea_size b) true) /\
  List.length (linear_interpolation ua ub (subarea_size a) (new_area a))
  = u_stop a - u_start a /\
  List.length (linear_interpolation ub uc (subarea_size b) false)
  = u_stop b - u_start b /\
  tp_index b = tp_index a + 1 /\
  u_start a <= p < u_stop a /\
  u_start b = p + 1 /\
  (forall c, In c (pre ++ b :: post) -> ~ (u_start c <= p < u_stop c)) /\
  last (linear_interpolation ua ub (subarea_size a) true) 0%R = ub /\
  hd 0%R (linear_interpolation ub uc (subarea_size b) true) = ub.
Proof.
  intros Hs Hareas Hb p.
  unfold interpolation_subareas in Hareas.
  destruct (@subareas_from_adjacent tie_point_indices 0 true pre a b post
              Hareas Hb) as [Hadj Htp].
  assert (forall c, In c (pre ++ a :: b :: post) ->
            u_start c + 2 <= u_stop c /\
            subarea_size c
            = u_stop c - u_start c + (if new_area c then 0 else 1)) as Hfacts.
  { rewrite <- Hareas. destruct tie_point_indices as [|x rest].
    - intros c [].
    - pose proof (@subareas_from_facts rest x 0 true Hs) as Hf.
      rewrite Forall_forall in Hf. intros c Hc.
      destruct (Hf c Hc) as (_ & H2 & H3). split; assumption. }
  assert (In a (pre ++ a :: b :: post)) as Ha
    by (apply in_or_app; right; left; reflexivity).
  assert (In b (pre ++ a :: b :: post)) as Hbin
    by (apply in_or_app; right; right; left; reflexivity).
  destruct (Hfacts a Ha) as [Ha2 Ha3]. destruct (Hfacts b Hbin) as [Hb2 Hb3].
  rewrite Hb in Hb3.
  pose proof (@subareas_from_order tie_point_indices 0 true Hs) as Hord.
  rewrite Hareas in Hord.
  destruct (@strongly_sorted_split _ _ pre a (b :: post) Hord) as [Hpre _].
  replace (pre ++ a :: b :: post) with ((pre ++ [a]) ++ b :: post) in Hord
    by (rewrite <- app_assoc; reflexivity).
  destruct (@strongly_sorted_split _ _ (pre ++ [a]) b post Hord)
    as [_ Hpost].
  split; [apply linear_interpolation_drop|].
  split; [rewrite linear_interpolation_length, Ha3;
          destruct (new_area a); lia|].
  split; [rewrite linear_interpolation_length, Hb3; lia|].
  split; [exact Htp|].
  split; [unfold p; lia|].
  split; [unfold p; lia|].
  split.
  { intros c Hc [Hc1 Hc2]. unfold p in *.
    apply in_app_or in Hc. destruct Hc as [Hc|[<-|Hc]].
    - rewrite Forall_forall in Hpre. specialize (Hpre c Hc).
      unfold window_order in Hpre. destruct (new_area a); lia.
    - lia.
    - rewrite Forall_forall in Hpost. specialize (Hpost c Hc).
      unfold window_order in Hpost. destruct (new_area c); lia. }
  split.
  - apply linear_interpolation_last. rewrite Ha3. destruct (new_area a); lia.
  - apply linear_interpolation_first. rewrite Hb3. lia.
Qed.

Lemma adjacent_subareas_meet_example :
  let a := {| tp_index := 0; u_start := 0; u_stop := 5; subarea_size := 5;
              new_area := true |} in
  let b := {| tp_index := 1; u_start := 5; u_stop := 8; subarea_size := 4;
              new_area := false |} in
  let c := {| tp_index := 3; u_start := 8; u_stop := 12; subarea_size := 4;
              new_area := true |} in
  linear_interpolation 135 225 4 false
  = tl (linear_interpolation 135 225 4 true) /\
  List.length (linear_interpolation 15 135 5 true) = 5 /\
  List.length (linear_interpolation 135 225 4 false) = 3 /\
  tp_index b = tp_index a + 1 /\
  u_start a <= 4 < u_stop a /\
  u_start b = 5 /\
  (forall c', In c' ([] ++ b :: [c]) -> ~ (u_start c' <= 4 < u_stop c')) /\
  last (linear_interpolation 15 135 5 true) 0%R = 135%R /\
  hd 0%R (linear_interpolation 135 225 4 true) = 135%R.
Proof.
  intros a b c.
  apply (@adjacent_subareas_meet [0; 4; 7; 8; 11] [] [c] a b
           15%R 135%R 225%R).
  - repeat constructor.
  - reflexivity.
  - reflexivity.
Qed.

Local Open Scope R_scope.

Lemma scenario_second_segment :
  linear_interpolation 135 225 4 false = [165; 195; 225].
Proof.
  unfold linear_interpolation, s_coefficients. simpl.
  repeat (f_equal; try lra).
Qed.

(** C4. In the scenario the second subarea is not the first of a
    continuous area and shares the tie point at position 4 with the
    first subarea.  [_linear_interpolation] drops the value at its first
    position, returning 165, 195, 225 for it, and the value that the
    first subarea computes at its last position and the value that the
    second computes at its first position are both 135.  But the loop
    of [__getitem__], which is to write these values, raises NameError
    in its first pass: it leaves the buffer wholly masked, so nothing
    has been written at position 4, nor at any other position. *)
Theorem shared_tie_point_never_written :
  let tie_points := [15; 135; 225; 255; 345] in
  let areas := interpolation_subareas [0; 4; 7; 8; 11]%nat in
  (exists a b c, areas = [a; b; c] /\ new_area b = false /\
                 (u_stop a - 1 = 4)%nat /\ u_start b = 5%nat) /\
  linear_interpolation 135 225 4 false
  = tl (linear_interpolation 135 225 4 true) /\
  linear_interpolation 135 225 4 false = [165; 195; 225] /\
  last (linear_interpolation 15 135 5 true) 0 = 135 /\
  hd 0 (linear_interpolation 135 225 4 true) = 135 /\
  interpolate_subareas 0 tie_points areas (repeat None 12)
  = (repeat None 12, Raise NameError) /\
  (forall p, nth p (fst (interpolate_subareas 0 tie_points areas
                           (repeat None 12))) None = None).
Proof.
  intros tie_points areas.
  assert (interpolate_subareas 0 tie_points areas (repeat None 12)
          = (repeat None 12, Raise NameError)) as Hloop.
  { unfold areas. rewrite scenario_subareas.
    apply interpolate_subareas_raises. simpl. lia. }
  split.
  { unfold areas. rewrite scenario_subareas.
    eexists _, _, _. repeat split; reflexivity. }
  split; [apply linear_interpolation_drop|].
  split; [exact scenario_second_segment|].
  split; [apply linear_interpolation_last; lia|].
  split; [apply linear_interpolation_first; lia|].
  split; [exact Hloop|].
  intros p. rewrite Hloop. cbn [fst].
  apply nth_repeat.
Qed.

Local Close Scope R_scope.

(** ** Subspacing *)

Lemma docstring_shapes :
  result_shape (field_getitem docstring_field
                  [full_slice; full_slice; Int 1]) = Some [1; 10; 1] /\
  result_shape (field_getitem docstring_field
                  [full_slice; Int 0]) = Some [1; 1; 9] /\
  result_shape (field_getitem docstring_field
                  [Ellipsis; SliceIndex (Some 6%Z) (Some 3%Z) (Some (-1)%Z);
                   SliceIndex (Some 3%Z) (Some 6%Z) None]) = Some [1; 3; 3] /\
  result_shape (field_getitem docstring_field
                  [Int 0; ListIndex [2%Z; 9%Z]; ListIndex [4%Z; 8%Z]])
  = Some [1; 2; 2] /\
  result_shape (field_getitem docstring_field
                  [Int 0; full_slice; Int (-2)]) = Some [1; 10; 1].
Proof. repeat split; vm_compute; reflexivity. Qed.

Lemma normalise_in_range (size : nat) (i : Z) :
  in_range size i = true ->
  exists p, normalise size i = Return p /\ p < size.
Proof.
  unfold in_range, normalise. intros H.
  apply andb_prop in H. destruct H as [H1 H2].
  apply Z.leb_le in H1. apply Z.ltb_lt in H2.
  destruct (Z.ltb_spec i 0) as [Hneg|Hpos].
  - exists (Z.to_nat (i + Z.of_nat size)).
    destruct (Z.leb_spec 0 (i + Z.of_nat size)); [|lia].
    destruct (Z.ltb_spec (i + Z.of_nat size) (Z.of_nat size)); [|lia].
    simpl. split; [reflexivity | lia].
  - exists (Z.to_nat i).
    destruct (Z.leb_spec 0 i); [|lia].
    destruct (Z.ltb_spec i (Z.of_nat size)); [|lia].
    simpl. split; [reflexivity | lia].
Qed.

Lemma normalise_of_nat (size p : nat) :
  p < size -> normalise size (Z.of_nat p) = Return p.
Proof.
  intros Hp. unfold normalise.
  destruct (Z.ltb_spec (Z.of_nat p) 0); [lia|].
  destruct (Z.leb_spec 0 (Z.of_nat p)); [|lia].
  destruct (Z.ltb_spec (Z.of_nat p) (Z.of_nat size)); [|lia].
  simpl. rewrite Nat2Z.id. reflexivity.
Qed.

Lemma mapM_normalise (size : nat) (l : list Z) :
  forallb (in_range size) l = true ->
  exists l', mapM (normalise size) l = Return l' /\
             Forall (fun p => p < size) l' /\
             List.length l' = List.length l.
Proof.
  induction l as [|i l IH]; simpl; intros H.
  - exists []. repeat split. constructor.
  - apply andb_prop in H. destruct H as [Hi Hl].
    destruct (normalise_in_range _ _ Hi) as (p & Hp & Hlt).
    destruct (IH Hl) as (l' & Hl' & Hall & Hlen).
    exists (p :: l'). rewrite Hp, Hl'. simpl.
    repeat split; [constructor; assumption | lia].
Qed.

Lemma mapM_normalise_of_nat (size : nat) (l' : list nat) :
  Forall (fun p => p < size) l' ->
  mapM (normalise size) (map Z.of_nat l') = Return l'.
Proof.
  induction 1 as [|p l' Hp _ IH]; simpl; [reflexivity|].
  rewrite normalise_of_nat by assumption. simpl. rewrite IH. reflexivity.
Qed.

Lemma slice_positions_unit (size p : nat) :
  p < size ->
  slice_positions size (Some (Z.of_nat p)) (Some (Z.of_nat p + 1)%Z)
    (Some 1%Z) = [p].
Proof.
  intros Hp. unfold slice_positions.
  change (0 <? 1)%Z with true. cbv iota.
  destruct (Z.ltb_spec (Z.of_nat p) 0); [lia|].
  destruct (Z.ltb_spec (Z.of_nat p + 1) 0); [lia|].
  rewrite (Z.min_l (Z.of_nat p)) by lia.
  rewrite (Z.min_l (Z.of_nat p + 1)) by lia.
  destruct (Z.ltb_spec (Z.of_nat p) (Z.of_nat p + 1)); [|lia].
  replace (Z.of_nat p + 1 - Z.of_nat p - 1)%Z with 0%Z by lia.
  simpl. rewrite Z.add_0_r, Nat2Z.id. reflexivity.
Qed.

Lemma normalise_value (size : nat) (i : Z) :
  in_range size i = true ->
  normalise size i
  = Return (Z.to_nat (if (i <? 0)%Z then (i + Z.of_nat size)%Z else i)) /\
  Z.to_nat (if (i <? 0)%Z then (i + Z.of_nat size)%Z else i) < size.
Proof.
  unfold in_range, normalise. intros H.
  apply andb_prop in H. destruct H as [H1 H2].
  apply Z.leb_le in H1. apply Z.ltb_lt in H2.
  destruct (Z.ltb_spec i 0) as [Hneg|Hpos].
  - destruct (Z.leb_spec 0 (i + Z.of_nat size)); [|lia].
    destruct (Z.ltb_spec (i + Z.of_nat size) (Z.of_nat size)); [|lia].
    simpl. split; [reflexivity | lia].
  - destruct (Z.leb_spec 0 i); [|lia].
    destruct (Z.ltb_spec i (Z.of_nat size)); [|lia].
    simpl. split; [reflexivity | lia].
Qed.

Lemma in_range_of_nat (size : nat) (l : list nat) :
  Forall (fun p => p < size) l ->
  forallb (in_range size) (map Z.of_nat l) = true.
Proof.
  induction 1 as [|p l Hp _ IH]; simpl; [reflexivity|].
  rewrite IH, andb_true_r. unfold in_range.
  apply andb_true_intro. split; [apply Z.leb_le | apply Z.ltb_lt]; lia.
Qed.

(** One component: it parses into a component that is valid again, it
    selects positions, and an integer selects the one position it
    names, counted from the end when it is negative. *)
Lemma parse_index_valid (size : nat) (idx : index) :
  valid_index size idx = true ->
  exists idx' pos,
    parse_index size idx = Return idx' /\
    index_positions size idx' = Return pos /\
    valid_index size idx' = true /\
    (forall i, idx = Int i ->
       pos = [Z.to_nat (if (i <? 0)%Z then (i + Z.of_nat size)%Z else i)]).
Proof.
  destruct idx as [i|start stop step|l|]; cbn [valid_index]; intros H.
  - destruct (normalise_value _ _ H) as [Hp Hlt].
    unfold parse_index. rewrite Hp. cbn [bind].
    eexists _, _. split; [reflexivity|]. cbn [index_positions].
    split; [rewrite slice_positions_unit by assumption; reflexivity|].
    split; [reflexivity|].
    intros i' Hi. injection Hi as <-. reflexivity.
  - destruct step as [[|s|s]|]; try discriminate;
      (eexists _, _; split; [reflexivity|]; split; [reflexivity|];
       split; [reflexivity|]; intros i Hi; discriminate).
  - destruct (mapM_normalise _ _ H) as (l' & Hl' & Hall & _).
    unfold parse_index. rewrite Hl'. cbn [bind].
    eexists _, _. split; [reflexivity|]. cbn [index_positions].
    split; [apply mapM_normalise_of_nat; assumption|].
    split; [cbn [valid_index]; apply in_range_of_nat; assumption|].
    intros i Hi. discriminate.
  - discriminate.
Qed.

Lemma parse_positions_valid (shape : list nat) : forall expanded,
  List.length expanded = List.length shape ->
  forallb (fun p => valid_index (fst p) (snd p)) (combine shape expanded)
  = true ->
  exists parsed positions,
    mapM (fun p => parse_index (fst p) (snd p)) (combine shape expanded)
    = Return parsed /\
    mapM (fun p => index_positions (fst p) (snd p)) (combine shape parsed)
    = Return positions /\
    List.length positions = List.length shape /\
    List.length parsed = List.length shape /\
    forallb (fun p => valid_index (fst p) (snd p)) (combine shape parsed)
    = true /\
    (forall k i size, nth_error expanded k = Some (Int i) ->
       nth_error shape k = Some size ->
       nth_error positions k
       = Some [Z.to_nat (if (i <? 0)%Z then (i + Z.of_nat size)%Z else i)]).
Proof.
  induction shape as [|size shape IH]; intros expanded Hlen Hv.
  - destruct expanded; [|discriminate]. exists [], []. simpl.
    repeat split. intros [|k] i size H; discriminate.
  - destruct expanded as [|idx expanded]; [discriminate|].
    simpl in Hlen, Hv. apply andb_prop in Hv. destruct Hv as [Hv1 Hv2].
    destruct (parse_index_valid _ _ Hv1)
      as (idx' & pos & Hp & Hpos & Hval & Hint).
    destruct (IH expanded ltac:(lia) Hv2)
      as (parsed & positions & Hps & Hposs & Hl & Hl' & Hvals & Hk).
    exists (idx' :: parsed), (pos :: positions). simpl.
    rewrite Hp. simpl. rewrite Hps. simpl.
    rewrite Hpos. simpl. rewrite Hposs. simpl.
    rewrite Hval, Hvals.
    repeat split; [lia | lia |].
    intros [|k] i n H Hn; simpl in *.
    + injection H as ->. injection Hn as ->.
      rewrite (Hint i eq_refl). reflexivity.
    + eapply Hk; eassumption.
Qed.

Lemma filter_partition_length (A : Type) (f : A -> bool) (l : list A) :
  List.length (filter f l) + List.length (filter (fun a => negb (f a)) l)
  = List.length l.
Proof.
  induction l as [|a l IH]; simpl; [reflexivity|].
  destruct (f a); simpl; lia.
Qed.

Lemma expand_fill_length (m : nat) (l : list index) :
  List.length (flat_map
    (fun i => if is_ellipsis i then repeat full_slice m else [i]) l)
  = List.length (filter (fun i => negb (is_ellipsis i)) l)
    + m * List.length (filter is_ellipsis l).
Proof.
  induction l as [|a l IHl]; simpl; [lia|].
  rewrite length_app, IHl.
  destruct (is_ellipsis a); simpl; rewrite ?repeat_length; lia.
Qed.

Lemma expand_indices_length (ndim : nat) (indices expanded : list index) :
  expand_indices ndim indices = Return expanded ->
  List.length expanded = ndim.
Proof.
  unfold expand_indices.
  pose proof (filter_partition_length is_ellipsis indices) as Hpart.
  pose proof (expand_fill_length
    (ndim - List.length (filter (fun i => negb (is_ellipsis i)) indices))
    indices) as Hflat.
  set (given := List.length (filter (fun i => negb (is_ellipsis i)) indices))
    in *.
  set (dots := List.length (filter is_ellipsis indices)) in *.
  destruct (Nat.ltb_spec 1 dots) as [|Hd]; [discriminate|].
  destruct (Nat.ltb_spec ndim given) as [|Hg]; [discriminate|].
  intros H. injection H as <-.
  destruct (Nat.eqb_spec dots 0) as [H0|Hn0].
  - rewrite length_app, repeat_length. lia.
  - rewrite Hflat. assert (dots = 1) as -> by lia. lia.
Qed.

(* ================================================================== *)
(** * Further properties                                               *)
(* ================================================================== *)

(** ** The vector formulas of the quadratic geographic interpolation *)

Local Open Scope R_scope.

(** X1. The cross product [_fcross(va, vb)] is orthogonal to both of
    its arguments, changes sign when they are exchanged, and its squared
    length is |va|^2 |vb|^2 - (va . vb)^2. *)
Theorem fcross_orthogonal (va vb : vector) :
  fdot (fcross va vb) va = 0 /\ fdot (fcross va vb) vb = 0 /\
  fcross vb va = fmultiply (-1) (fcross va vb) /\
  fdot (fcross va vb) (fcross va vb)
  = fdot va va * fdot vb vb - fdot va vb * fdot va vb.
Proof.
  destruct va as [[ax ay] az], vb as [[bx by_] bz].
  unfold fdot, fcross, fmultiply, vx, vy, vz. cbn [fst snd].
  repeat split; try ring.
  f_equal; [f_equal|]; ring.
Qed.

(** X2. [_fcv2cea] inverts [_fcea2cv]: for tie point vectors [va] and
    [vb] of the same length that are neither equal nor opposite, and
    coefficients with ce^2 + ca^2 <= 1, the parametric coefficients read
    back from the cartesian representation [_fcea2cv(va, vb, ce, ca)]
    are [ce] and [ca] again; a coefficient that was absent is read back
    as 0. *)
Theorem fcv2cea_inverts_fcea2cv (va vb : vector) (ce ca : option R) :
  fdot va va = fdot vb vb ->
  fdot (fminus va vb) (fminus va vb) <> 0 ->
  fdot (fplus va vb) (fplus va vb) <> 0 ->
  absent_as_zero ce * absent_as_zero ce
  + absent_as_zero ca * absent_as_zero ca <= 1 ->
  fcv2cea va vb (fcea2cv va vb ce ca) = (absent_as_zero ce, absent_as_zero ca).
Proof.
  intros Hn Hg Hr _.
  unfold fcv2cea, fcea2cv.
  set (cr := fsqrt _ - fsqrt _). clearbody cr.
  destruct va as [[ax ay] az], vb as [[bx by_] bz].
  unfold fdot, fcross, fmultiply, fplus, fminus, vx, vy, vz in *.
  cbn [fst snd] in *.
  set (g := (ax - bx) * (ax - bx) + (ay - by_) * (ay - by_)
            + (az - bz) * (az - bz)) in *.
  set (r := (ax + bx) * (1 / 2) * ((ax + bx) * (1 / 2))
            + (ay + by_) * (1 / 2) * ((ay + by_) * (1 / 2))
            + (az + bz) * (1 / 2) * ((az + bz) * (1 / 2))).
  assert (r <> 0) as Hr'.
  { unfold r. intros E. apply Hr. lra. }
  assert (r * g = (ay * bz - az * by_) * (ay * bz - az * by_)
                  + (az * bx - ax * bz) * (az * bx - ax * bz)
                  + (ax * by_ - ay * bx) * (ax * by_ - ay * bx)) as Hrg.
  { unfold r, g.
    assert (forall n1 n2 d, n1 = n2 ->
       ((n1 + n2 + 2 * d) * / 4) * (n1 + n2 - 2 * d) = n1 * n2 - d * d) as L.
    { intros; subst; field. }
    transitivity ((ax * ax + ay * ay + az * az) * (bx * bx + by_ * by_ + bz * bz)
                  - (ax * bx + ay * by_ + az * bz) * (ax * bx + ay * by_ + az * bz));
      [|ring].
    rewrite <- (L _ _ _ Hn). field. }
  destruct ce as [ce|], ca as [ca|]; cbn [absent_as_zero fst snd];
    f_equal.
  all: try (apply (Rmult_eq_reg_r g); [|exact Hg];
            unfold Rdiv; rewrite Rmult_assoc, Rinv_l, Rmult_1_r by exact Hg).
  all: try (apply (Rmult_eq_reg_r (r * g));
            [|apply Rmult_integral_contrapositive_currified; assumption];
            unfold Rdiv; rewrite Rmult_assoc, Rinv_l, Rmult_1_r
              by (apply Rmult_integral_contrapositive_currified; assumption)).
  all: try rewrite Hrg.
  all: unfold g.
  all: try ring.
  all: match goal with
       | |- ?L = ?R =>
           replace L
             with (R + cr * / 2 * ((ax * ax + ay * ay + az * az)
                                   - (bx * bx + by_ * by_ + bz * bz)))
             by ring
       end; rewrite Hn; ring.
Qed.

Lemma fcv2cea_inverts_fcea2cv_witness :
  fcv2cea (1, 0, 0) (0, 1, 0)
    (fcea2cv (1, 0, 0) (0, 1, 0) (Some (1 / 2)) (Some (1 / 4)))
  = (1 / 2, 1 / 4).
Proof.
  apply (@fcv2cea_inverts_fcea2cv (1, 0, 0) (0, 1, 0) (Some (1 / 2))
           (Some (1 / 4)));
    unfold fdot, fminus, fplus, vx, vy, vz, absent_as_zero; cbn [fst snd]; lra.
Defined.

(** X3. The vector [_fll2v(lat, lon)] of a latitude and a longitude has
    length 1. *)
Theorem fll2v_unit (lat lon : R) :
  fdot (fll2v lat lon) (fll2v lat lon) = 1.
Proof.
  unfold fdot, fll2v, vx, vy, vz. cbn [fst snd].
  pose proof (sin2_cos2 lat) as H1. pose proof (sin2_cos2 lon) as H2.
  unfold Rsqr in *.
  replace (cos lat * cos lon * (cos lat * cos lon)
           + cos lat * sin lon * (cos lat * sin lon) + sin lat * sin lat)
    with (cos lat * cos lat * (sin lon * sin lon + cos lon * cos lon)
          + sin lat * sin lat) by ring.
  rewrite H2. lra.
Qed.

Lemma fll2v_horizontal (lat lon : R) :
  0 <= cos lat ->
  fsqrt (vx (fll2v lat lon) * vx (fll2v lat lon)
         + vy (fll2v lat lon) * vy (fll2v lat lon)) = cos lat.
Proof.
  intros Hc. unfold fsqrt, fll2v, vx, vy. cbn [fst snd].
  pose proof (sin2_cos2 lon) as H2. unfold Rsqr in H2.
  replace (cos lat * cos lon * (cos lat * cos lon)
           + cos lat * sin lon * (cos lat * sin lon))
    with (cos lat * cos lat * (sin lon * sin lon + cos lon * cos lon)) by ring.
  rewrite H2, Rmult_1_r. apply sqrt_square. exact Hc.
Qed.

(** X4. [_fv2lat] inverts [_fll2v]: for a latitude between -pi/2 and
    pi/2, both included, and any longitude, the latitude of the vector
    [_fll2v(lat, lon)] is [lat]. *)
Theorem fv2lat_inverts_fll2v (lat lon : R) :
  - (PI / 2) <= lat <= PI / 2 ->
  fv2lat (fll2v lat lon) = lat.
Proof.
  intros [Hlo Hhi]. unfold fv2lat.
  assert (0 <= cos lat) as Hc.
  { destruct (Req_dec lat (PI / 2)) as [->|Hn1]; [rewrite cos_PI2; lra|].
    destruct (Req_dec lat (- (PI / 2))) as [->|Hn2];
      [rewrite cos_neg, cos_PI2; lra|].
    left. apply cos_gt_0; lra. }
  rewrite fll2v_horizontal by exact Hc.
  replace (vz (fll2v lat lon)) with (sin lat) by reflexivity.
  unfold np_arctan2.
  destruct (Rlt_dec 0 (cos lat)) as [Hpos|Hnpos].
  - change (sin lat / cos lat) with (tan lat).
    apply atan_tan.
    destruct (Req_dec lat (PI / 2)) as [->|Hn1]; [rewrite cos_PI2 in Hpos; lra|].
    destruct (Req_dec lat (- (PI / 2))) as [->|Hn2];
      [rewrite cos_neg, cos_PI2 in Hpos; lra|].
    lra.
  - destruct (Rlt_dec (cos lat) 0) as [Hneg|_]; [lra|].
    assert (lat = PI / 2 \/ lat = - (PI / 2)) as [->| ->].
    { destruct (Req_dec lat (PI / 2)) as [|Hn1]; [left; assumption|].
      destruct (Req_dec lat (- (PI / 2))) as [|Hn2]; [right; assumption|].
      exfalso. apply Hnpos. apply cos_gt_0; lra. }
    + rewrite sin_PI2. destruct (Rlt_dec 0 1); [reflexivity | lra].
    + rewrite sin_neg, sin_PI2.
      repeat match goal with
             | |- context [Rlt_dec ?a ?b] => destruct (Rlt_dec a b)
             end; try reflexivity; lra.
Qed.

Lemma fv2lat_inverts_fll2v_witness :
  fv2lat (fll2v (PI / 4) (PI / 3)) = PI / 4.
Proof.
  apply (@fv2lat_inverts_fll2v (PI / 4) (PI / 3)).
  pose proof PI_RGT_0. lra.
Defined.

(** X5. [_fv2lon] inverts [_fll2v]: for a latitude strictly between
    -pi/2 and pi/2 (away from the poles) and a longitude in the range
    from -pi (excluded) to pi (included), the longitude of the vector
    [_fll2v(lat, lon)] is [lon]. *)
Theorem fv2lon_inverts_fll2v (lat lon : R) :
  - (PI / 2) < lat < PI / 2 ->
  - PI < lon <= PI ->
  fv2lon (fll2v lat lon) = lon.
Proof.
  intros [Hlo Hhi] [Hl Hh]. unfold fv2lon, fll2v, vx, vy. cbn [fst snd].
  assert (0 < cos lat) as Hc by (apply cos_gt_0; lra).
  assert (cos lon <> 0 ->
          cos lat * sin lon / (cos lat * cos lon) = tan lon) as Htan.
  { intros Hn. unfold tan. field. split; lra. }
  unfold np_arctan2.
  destruct (Rlt_dec 0 (cos lat * cos lon)) as [Hp|Hnp].
  - assert (0 < cos lon) as Hcl by nra.
    rewrite Htan by lra. apply atan_tan.
    split.
    + destruct (Rlt_dec (- (PI / 2)) lon) as [|Hn]; [assumption|].
      exfalso.
      destruct (Req_dec lon (- (PI / 2))) as [E|E].
      * rewrite E, cos_neg, cos_PI2 in Hcl. lra.
      * assert (cos (- lon) < 0) by (apply cos_lt_0; lra).
        rewrite cos_neg in *. lra.
    + destruct (Rlt_dec lon (PI / 2)) as [|Hn]; [assumption|].
      exfalso.
      destruct (Req_dec lon (PI / 2)) as [E|E].
      * rewrite E, cos_PI2 in Hcl. lra.
      * assert (cos lon < 0) by (apply cos_lt_0; lra). lra.
  - destruct (Rlt_dec (cos lat * cos lon) 0) as [Hn|Hnn].
    + assert (cos lon < 0) as Hcl by nra.
      rewrite Htan by lra.
      assert (~ (- (PI / 2) <= lon <= PI / 2)) as Hout.
      { intros [H1 H2].
        destruct (Req_dec lon (PI / 2)) as [E|E];
          [rewrite E, cos_PI2 in Hcl; lra|].
        destruct (Req_dec lon (- (PI / 2))) as [E'|E'];
          [rewrite E', cos_neg, cos_PI2 in Hcl; lra|].
        assert (0 < cos lon) by (apply cos_gt_0; lra). lra. }
      destruct (Rle_dec 0 (cos lat * sin lon)) as [Hs|Hs].
      * assert (0 <= sin lon) as Hsl by nra.
        assert (PI / 2 < lon) as Hq.
        { destruct (Rlt_dec (PI / 2) lon) as [|Hq]; [assumption|].
          exfalso. destruct (Rlt_dec lon 0) as [Hlt|Hge].
          - assert (sin lon < 0) by (apply sin_lt_0_var; lra). lra.
          - apply Hout. lra. }
        replace (tan lon) with (tan (lon - PI)).
        -- rewrite atan_tan by lra. ring.
        -- unfold tan. rewrite sin_minus, cos_minus, sin_PI, cos_PI. field. lra.
      * assert (sin lon < 0) as Hsl by nra.
        assert (lon < - (PI / 2)) as Hq.
        { destruct (Rlt_dec lon (- (PI / 2))) as [|Hq]; [assumption|].
          exfalso. destruct (Rle_dec 0 lon) as [Hge|Hlt].
          - assert (0 <= sin lon) by (apply sin_ge_0; lra). lra.
          - apply Hout. lra. }
        replace (tan lon) with (tan (lon + PI)).
        -- rewrite atan_tan by lra. ring.
        -- unfold tan. rewrite sin_plus, cos_plus, sin_PI, cos_PI. field. lra.
    + assert (cos lon = 0) as Hz by nra.
      assert (lon = PI / 2 \/ lon = - (PI / 2)) as [->| ->].
      { destruct (Rlt_dec lon (- (PI / 2))) as [H1|H1].
        - assert (cos (- lon) < 0) by (apply cos_lt_0; lra).
          rewrite cos_neg in *. lra.
        - destruct (Rlt_dec (PI / 2) lon) as [H2|H2].
          + assert (cos lon < 0) by (apply cos_lt_0; lra). lra.
          + destruct (Req_dec lon (PI / 2)) as [|E]; [left; assumption|].
            destruct (Req_dec lon (- (PI / 2))) as [|E']; [right; assumption|].
            assert (0 < cos lon) by (apply cos_gt_0; lra). lra. }
      * rewrite sin_PI2, Rmult_1_r.
        destruct (Rlt_dec 0 (cos lat)); [reflexivity | lra].
      * rewrite sin_neg, sin_PI2.
        destruct (Rlt_dec 0 (cos lat * - (1))) as [H|_]; [nra|].
        destruct (Rlt_dec (cos lat * - (1)) 0) as [_|H]; [reflexivity | nra].
Qed.

Lemma fv2lon_inverts_fll2v_witness :
  fv2lon (fll2v (PI / 4) (PI / 3)) = PI / 3.
Proof.
  apply (@fv2lon_inverts_fll2v (PI / 4) (PI / 3));
    pose proof PI_RGT_0; lra.
Defined.

Local Close Scope R_scope.

(** ** The descriptors of the indexed contiguous ragged array *)

Lemma product_singletons (A : Type) (l : list A) :
  product (map (fun a => [a]) l) = [l].
Proof.
  induction l as [|a l IH]; simpl; [reflexivity|]. rewrite IH. reflexivity.
Qed.

Lemma product_two (A : Type) (l1 l2 tail : list A) :
  product (l1 :: l2 :: map (fun a => [a]) tail)
  = flat_map (fun x => map (fun y => x :: y :: tail) l2) l1.
Proof.
  cbn [product]. rewrite product_singletons.
  apply flat_map_ext. intros x.
  induction l2 as [|y l2 IH]; simpl; [reflexivity|].
  f_equal. exact IH.
Qed.

Lemma nth_error_flat_map_block (A B : Type) (F : A -> list B) (m : nat)
  (l : list A) : forall i k a,
  (forall x, In x l -> List.length (F x) = m) ->
  nth_error l i = Some a -> k < m ->
  nth_error (flat_map F l) (i * m + k) = nth_error (F a) k.
Proof.
  induction l as [|x l IH]; intros i k a Hlen Hi Hk.
  - destruct i; discriminate.
  - destruct i as [|i]; simpl in Hi.
    + injection Hi as ->. simpl.
      rewrite nth_error_app1; [reflexivity|].
      rewrite Hlen by (left; reflexivity). exact Hk.
    + simpl. rewrite nth_error_app2;
        rewrite (Hlen x) by (left; reflexivity); [|lia].
      replace (m + i * m + k - m) with (i * m + k) by lia.
      apply IH; [|assumption|assumption].
      intros y Hy. apply Hlen. right. exact Hy.
Qed.

Lemma nth_error_seq_lt (a n i : nat) :
  i < n -> nth_error (seq a n) i = Some (a + i).
Proof.
  revert a i. induction n as [|n IH]; intros a i Hi; [lia|].
  destruct i as [|i]; simpl; [f_equal; lia|].
  rewrite IH by lia. f_equal. lia.
Qed.

Lemma repeat_singletons (A : Type) (a : A) (n : nat) :
  repeat [a] n = map (fun b => [b]) (repeat a n).
Proof.
  induction n as [|n IH]; simpl; [reflexivity|]. rewrite IH. reflexivity.
Qed.

Lemma where_from_In (index : list nat) (i : nat) : forall off j,
  In j (where_from off index i)
  <-> off <= j /\ nth_error index (j - off) = Some i.
Proof.
  induction index as [|x t IH]; intros off j.
  - unfold where_from. simpl. split; [intros []|].
    intros [_ H]. destruct (j - off); discriminate.
  - rewrite where_from_cons. 
    destruct (Nat.eqb_spec x i) as [->|Hne].
    + cbn [app In]. rewrite IH. split.
      * intros [<-|[H1 H2]].
        -- rewrite Nat.sub_diag. simpl. split; [lia|reflexivity].
        -- split; [lia|]. replace (j - off) with (S (j - S off)) by lia.
           exact H2.
      * intros [H1 H2]. destruct (Nat.eq_dec off j) as [|Hn]; [left; assumption|].
        right. split; [lia|].
        replace (j - off) with (S (j - S off)) in H2 by lia. exact H2.
    + cbn [app]. rewrite IH. split.
      * intros [H1 H2]. split; [lia|].
        replace (j - off) with (S (j - S off)) by lia. exact H2.
      * intros [H1 H2]. destruct (Nat.eq_dec off j) as [<-|Hn].
        -- rewrite Nat.sub_diag in H2. simpl in H2. congruence.
        -- split; [lia|].
           replace (j - off) with (S (j - S off)) in H2 by lia. exact H2.
Qed.

Lemma np_where_eq_In (index : list nat) (i j : nat) :
  In j (np_where_eq index i) <-> nth_error index j = Some i.
Proof.
  change (np_where_eq index i) with (where_from 0 index i).
  rewrite where_from_In, Nat.sub_0_r. split; [intros [_ H]; exact H|].
  intros H; split; [lia | exact H].
Qed.

Lemma profile_slice_fails (cps : list nat) (j : nat) :
  List.length cps <= j -> profile_slice cps j = Raise IndexError.
Proof.
  intros Hj. unfold profile_slice.
  assert (getitem cps j = Raise IndexError) as Hs.
  { unfold getitem. destruct (nth_error cps j) eqn:E; [|reflexivity].
    assert (nth_error cps j <> None) as Hn by congruence.
    apply nth_error_Some in Hn. lia. }
  destruct j as [|j']; cbn [bind]; [rewrite Hs; reflexivity|].
  unfold getitem at 1. destruct (nth_error cps j'); cbn [bind];
    [rewrite Hs|]; reflexivity.
Qed.

Lemma profile_slice_only_IndexError (cps : list nat) (j : nat) (e : exn) :
  profile_slice cps j = Raise e -> e = IndexError.
Proof.
  unfold profile_slice, getitem.
  destruct j as [|j']; cbn [bind].
  - destruct (nth_error cps 0); cbn [bind]; congruence.
  - destruct (nth_error cps j'); cbn [bind]; [|congruence].
    destruct (nth_error cps (S j')); cbn [bind]; congruence.
Qed.

Lemma mapM_raises (A B : Type) (f : A -> result B) (e : exn) (l : list A) :
  (forall a e', f a = Raise e' -> e' = e) ->
  Exists (fun a => f a = Raise e) l ->
  mapM f l = Raise e.
Proof.
  intros Honly Hex. induction l as [|a l IH]; [inversion Hex|].
  cbn [mapM]. destruct (f a) as [b|e'] eqn:Ea; cbn [bind].
  - inversion Hex as [? ? H|? ? H]; subst; [congruence|].
    rewrite (IH H). reflexivity.
  - rewrite (Honly a e' Ea). reflexivity.
Qed.

Lemma concatM_raises (A : Type) (e : exn) (l : list (result (list A))) :
  Forall (fun m => forall e', m = Raise e' -> e' = e) l ->
  Exists (fun m => m = Raise e) l ->
  concatM l = Raise e.
Proof.
  intros Honly Hex. induction l as [|m l IH]; [inversion Hex|].
  inversion Honly as [|? ? Hm Hl]; subst.
  cbn [concatM]. destruct m as [a|e']; cbn [bind].
  - inversion Hex as [? ? H|? ? H]; subst; [discriminate|].
    rewrite (IH Hl H). reflexivity.
  - rewrite (Hm e' eq_refl). reflexivity.
Qed.

Lemma feature_slices_only_IndexError (mp : nat) (index cps : list nat)
  (i : nat) (e : exn) :
  feature_slices mp index cps i = Raise e -> e = IndexError.
Proof.
  unfold feature_slices.
  destruct (mapM (profile_slice cps) (np_where_eq index i)) as [sl|e'] eqn:E;
    cbn [bind]; [discriminate|].
  intros H; injection H as <-.
  revert E. generalize (np_where_eq index i) as l.
  induction l as [|a l IH]; cbn [mapM]; [discriminate|].
  destruct (profile_slice cps a) as [s|e''] eqn:Ea; cbn [bind].
  - destruct (mapM (profile_slice cps) l) as [r|e3]; cbn [bind];
      [discriminate|].
    intros H; injection H as <-. apply IH. reflexivity.
  - intros H; injection H as <-.
    apply (profile_slice_only_IndexError _ _ Ea).
Qed.

Lemma compressed_slices_fails (mp : nat) (index count : list nat) :
  List.length count < List.length index ->
  compressed_slices mp index count = Raise IndexError.
Proof.
  intros Hlen. unfold compressed_slices.
  apply concatM_raises.
  - apply Forall_forall. intros m Hm e' ->.
    apply in_map_iff in Hm. destruct Hm as (i & Hi & _).
    apply (feature_slices_only_IndexError _ _ _ _ Hi).
  - apply Exists_exists.
    destruct (nth_error index (List.length index - 1)) as [i|] eqn:Ei;
      [|apply nth_error_None in Ei; lia].
    exists (feature_slices mp index (np_cumsum count) i). split.
    + apply in_map. apply np_unique_In. apply (nth_error_In _ _ Ei).
    + unfold feature_slices.
      rewrite (@mapM_raises _ _ (profile_slice (np_cumsum count)) IndexError);
        [reflexivity | |].
      * intros a e'. apply profile_slice_only_IndexError.
      * apply Exists_exists. exists (List.length index - 1). split.
        -- apply np_where_eq_In. exact Ei.
        -- apply profile_slice_fails. unfold np_cumsum.
           rewrite cumsum_from_length. lia.
Qed.

(** X6. The descriptor generator fails exactly when the uncompressed
    shape has fewer than two dimensions, the compressed array has no
    dimension, or Index has more entries than Count (a profile without
    a count); the exception is then an IndexError, and the generator
    raises no other exception. *)
Theorem subarrays_raises_iff (x : RaggedIndexedContiguousArray) :
  (subarrays x = Raise IndexError
   <-> List.length (ric_shape x) < 2 \/ ric_source_ndim x = 0
       \/ List.length (ric_count x) < List.length (ric_index x))
  /\ (forall e, subarrays x = Raise e -> e = IndexError).
Proof.
  destruct (ric_shape x) as [|nf [|mp rest]] eqn:Es.
  - unfold subarrays. rewrite Es. cbn.
    split; [split; [intros _; left; lia | reflexivity]|].
    intros e H; congruence.
  - unfold subarrays. rewrite Es. cbn.
    split; [split; [intros _; left; lia | reflexivity]|].
    intros e H; congruence.
  - destruct (le_lt_dec (List.length (ric_index x)) (List.length (ric_count x)))
      as [Hle|Hgt].
    + destruct (ric_source_ndim x) as [|sn] eqn:En.
      * assert (subarrays x = Raise IndexError) as Hr.
        { unfold subarrays. rewrite Es, En. cbn.
          rewrite compressed_slices_ok by exact Hle. reflexivity. }
        rewrite Hr. split; [split; [intros _; right; left; reflexivity
                                   | reflexivity]|].
        intros e H; congruence.
      * rewrite (subarrays_ok x Es En Hle).
        split; [split; [discriminate|]|discriminate].
        cbn [List.length]. intros [H|[H|H]]; [lia | discriminate | lia].
    + assert (subarrays x = Raise IndexError) as Hr.
      { unfold subarrays. rewrite Es. cbn.
        rewrite compressed_slices_fails by exact Hgt. reflexivity. }
      rewrite Hr. split; [split; [intros _; right; right; exact Hgt
                                 | reflexivity]|].
      intros e H; congruence.
Qed.

Lemma feature_slices_pure_length (mp : nat) (index count : list nat) (i : nat) :
  List.length (feature_slices_pure mp index count i)
  = Nat.max mp (List.length (np_where_eq index i)).
Proof.
  unfold feature_slices_pure.
  rewrite length_app, length_map, repeat_length. lia.
Qed.

Lemma flat_map_length_sum (A B : Type) (F : A -> list B) (l : list A) :
  List.length (flat_map F l)
  = sum_list (map (fun a => List.length (F a)) l).
Proof.
  induction l as [|a l IH]; simpl; [reflexivity|].
  rewrite length_app, IH. reflexivity.
Qed.

Lemma product_two_length (A : Type) (l1 l2 tail : list A) :
  List.length (product (l1 :: l2 :: map (fun a => [a]) tail))
  = List.length l1 * List.length l2.
Proof.
  rewrite product_two.
  rewrite (@flat_map_length_const _ _ _ (List.length l2)); [reflexivity|].
  intros. apply length_map.
Qed.

(** X7. Whenever the generator returns (a shape of at least two
    dimensions, a compressed array of at least one, no more Index
    entries than Count entries), the windows, the shapes and the
    locations have n_features x max_n_profiles elements each, whatever
    Count and Index hold, while the compressed indices have, for each
    distinct value of Index, max_n_profiles elements or as many as the
    feature has profiles if these are more. *)
Theorem descriptor_lengths (x : RaggedIndexedContiguousArray)
  (n_features max_n_profiles : nat) (rest : list nat) :
  ric_shape x = n_features :: max_n_profiles :: rest ->
  1 <= ric_source_ndim x ->
  List.length (ric_index x) <= List.length (ric_count x) ->
  exists d,
    subarrays x = Return d /\
    List.length (u_indices d) = n_features * max_n_profiles /\
    List.length (u_shapes d) = n_features * max_n_profiles /\
    List.length (locations d) = n_features * max_n_profiles /\
    List.length (c_indices d)
    = sum_list
        (map (fun i => Nat.max max_n_profiles
                         (List.length (np_where_eq (ric_index x) i)))
           (np_unique (ric_index x))).
Proof.
  intros Hshape Hsn Hlen.
  destruct (ric_source_ndim x) as [|sn] eqn:En; [lia|].
  eexists. split; [apply (subarrays_ok x Hshape En Hlen)|].
  cbn [u_indices u_shapes locations c_indices].
  rewrite !repeat_singletons.
  rewrite !product_two_length, !length_map, !length_seq, !repeat_length.
  split; [reflexivity|]. split; [reflexivity|]. split; [reflexivity|].
  rewrite <- repeat_singletons, product_head, length_map.
  rewrite flat_map_length_sum. f_equal.
  apply map_ext. intros i. apply feature_slices_pure_length.
Qed.

Lemma descriptor_lengths_witness :
  exists d,
    subarrays empty_feature_ric = Return d /\
    List.length (u_indices d) = 2 * 1 /\
    List.length (u_shapes d) = 2 * 1 /\
    List.length (locations d) = 2 * 1 /\
    List.length (c_indices d)
    = sum_list
        (map (fun i => Nat.max 1
                         (List.length (np_where_eq [1] i)))
           (np_unique [1])).
Proof.
  apply (@descriptor_lengths empty_feature_ric 2 1 [2]);
    [reflexivity | simpl; lia | simpl; lia].
Defined.

Lemma Return_inj (A : Type) (a b : A) : Return a = Return b -> a = b.
Proof. intros H. injection H as H. exact H. Qed.

Lemma subarrays_inv (x : RaggedIndexedContiguousArray) (d : descriptors) :
  subarrays x = Return d ->
  exists nf mp rest sn,
    ric_shape x = nf :: mp :: rest /\
    ric_source_ndim x = S sn /\
    List.length (ric_index x) <= List.length (ric_count x) /\
    d = {| u_indices :=
             product (map (fun i => slice_of i (i + 1)) (seq 0 nf)
                      :: map (fun j => slice_of j (j + 1)) (seq 0 mp)
                      :: repeat [slice_all] (List.length rest));
           u_shapes :=
             product (repeat 1 nf :: repeat 1 mp :: map (fun n => [n]) rest);
           c_indices :=
             product (flat_map
                        (feature_slices_pure mp (ric_index x) (ric_count x))
                        (np_unique (ric_index x))
                      :: repeat [slice_all] sn);
           locations :=
             product (seq 0 nf :: seq 0 mp
                      :: repeat [0] (List.length rest)) |}.
Proof.
  intros Hd.
  destruct (ric_shape x) as [|nf [|mp rest]] eqn:Es;
    try (unfold subarrays in Hd; rewrite Es in Hd; cbn in Hd; discriminate).
  destruct (le_lt_dec (List.length (ric_index x)) (List.length (ric_count x)))
    as [Hle|Hgt].
  - destruct (ric_source_ndim x) as [|sn] eqn:En.
    + unfold subarrays in Hd. rewrite Es, En in Hd. cbn in Hd.
      rewrite compressed_slices_ok in Hd by exact Hle. discriminate.
    + exists nf, mp, rest, sn.
      rewrite (subarrays_ok x Es En Hle) in Hd.
      apply Return_inj in Hd. auto.
  - unfold subarrays in Hd. rewrite Es in Hd. cbn in Hd.
    rewrite compressed_slices_fails in Hd by exact Hgt. discriminate.
Qed.

Lemma subarrays_sample_slices (x : RaggedIndexedContiguousArray)
  (d : descriptors) (nf mp : nat) (rest : list nat) :
  ric_shape x = nf :: mp :: rest ->
  subarrays x = Return d ->
  sample_slices d
  = flat_map (feature_slices_pure mp (ric_index x) (ric_count x))
      (np_unique (ric_index x)).
Proof.
  intros Es Hd.
  destruct (subarrays_inv x Hd) as (nf' & mp' & rest' & sn & Es' & _ & _ & ->).
  rewrite Es in Es'. injection Es' as <- <- <-.
  unfold sample_slices. cbn [c_indices]. apply sample_slices_ok.
Qed.

Lemma prefix_sum_S (count : list nat) : forall j,
  prefix_sum count (S j) = prefix_sum count j + nth j count 0.
Proof.
  unfold prefix_sum. induction count as [|c t IH]; intros j.
  - destruct j; reflexivity.
  - destruct j as [|j].
    + simpl. lia.
    + change (firstn (S (S j)) (c :: t)) with (c :: firstn (S j) t).
      change (firstn (S j) (c :: t)) with (c :: firstn j t).
      change (nth (S j) (c :: t) 0) with (nth j t 0).
      cbn [sum_list fold_right]. 
      change (fold_right Nat.add 0 (firstn (S j) t))
        with (sum_list (firstn (S j) t)).
      change (fold_right Nat.add 0 (firstn j t))
        with (sum_list (firstn j t)).
      rewrite IH. lia.
Qed.

(** X8. The subarrays are listed feature by feature and, within a
    feature, profile slot by profile slot: for i < n_features and
    j < max_n_profiles the descriptors at place i * max_n_profiles + j
    are the location (i, j, 0, ...), the window
    (slice(i, i+1), slice(j, j+1), slice(None), ...) and the shape
    (1, 1, then the trailing uncompressed sizes). *)
Theorem subarray_slot (x : RaggedIndexedContiguousArray)
  (n_features max_n_profiles : nat) (rest : list nat) (d : descriptors)
  (i j : nat) :
  ric_shape x = n_features :: max_n_profiles :: rest ->
  subarrays x = Return d ->
  i < n_features -> j < max_n_profiles ->
  nth_error (locations d) (i * max_n_profiles + j)
  = Some (i :: j :: repeat 0 (List.length rest)) /\
  nth_error (u_indices d) (i * max_n_profiles + j)
  = Some (slice_of i (i + 1) :: slice_of j (j + 1)
          :: repeat slice_all (List.length rest)) /\
  nth_error (u_shapes d) (i * max_n_profiles + j) = Some (1 :: 1 :: rest).
Proof.
  intros Hshape Hd Hi Hj.
  destruct (subarrays_inv x Hd) as (nf & mp & rest' & sn & Es & _ & _ & ->).
  rewrite Hshape in Es. apply eq_sym in Es.
  injection Es as -> -> ->.
  cbn [u_indices u_shapes locations].
  rewrite !repeat_singletons, !product_two.
  split; [|split].
  - rewrite (@nth_error_flat_map_block _ _ _ max_n_profiles _ i j i).
    + rewrite nth_error_map, nth_error_seq_lt by assumption. reflexivity.
    + intros. rewrite length_map, length_seq. reflexivity.
    + apply nth_error_seq_lt. assumption.
    + assumption.
  - rewrite (@nth_error_flat_map_block _ _ _ max_n_profiles _ i j
               (slice_of i (i + 1))).
    + rewrite !nth_error_map, nth_error_seq_lt by assumption. reflexivity.
    + intros. rewrite !length_map, length_seq. reflexivity.
    + rewrite nth_error_map, nth_error_seq_lt by assumption. reflexivity.
    + assumption.
  - rewrite (@nth_error_flat_map_block _ _ _ max_n_profiles _ i j 1).
    + rewrite nth_error_map.
      rewrite (nth_error_repeat 1 Hj). reflexivity.
    + intros. rewrite length_map, repeat_length. reflexivity.
    + apply nth_error_repeat. assumption.
    + assumption.
Qed.

Lemma subarray_slot_witness :
  exists d, subarrays scenario_ric = Return d /\
  nth_error (locations d) (1 * 3 + 2) = Some (1 :: 2 :: repeat 0 1) /\
  nth_error (u_indices d) (1 * 3 + 2)
  = Some (slice_of 1 (1 + 1) :: slice_of 2 (2 + 1) :: repeat slice_all 1) /\
  nth_error (u_shapes d) (1 * 3 + 2) = Some (1 :: 1 :: [4]).
Proof.
  eexists. split; [reflexivity|].
  apply (@subarray_slot scenario_ric 2 3 [4] _ 1 2);
    [reflexivity | reflexivity | lia | lia].
Defined.


(** X9. Whenever the generator returns, every profile j of Index has
    its slice among the compressed slices, from the sum of the counts
    before it to that sum plus Count[j]; and every compressed slice is
    the slice of a profile or the zero-sized slice(0, 0). *)
Theorem profile_slices_emitted (x : RaggedIndexedContiguousArray)
  (d : descriptors) :
  subarrays x = Return d ->
  (forall j, j < List.length (ric_index x) ->
     In (slice_of (prefix_sum (ric_count x) j)
           (prefix_sum (ric_count x) j + nth j (ric_count x) 0))
        (sample_slices d)) /\
  (forall s, In s (sample_slices d) ->
     s = slice_of 0 0 \/
     exists j, j < List.length (ric_index x) /\
       s = slice_of (prefix_sum (ric_count x) j)
             (prefix_sum (ric_count x) j + nth j (ric_count x) 0)).
Proof.
  intros Hd.
  destruct (subarrays_inv x Hd) as (nf & mp & rest & sn & Es & _ & _ & _).
  rewrite (subarrays_sample_slices x Es Hd).
  split.
  - intros j Hj.
    destruct (nth_error (ric_index x) j) as [i|] eqn:Ei;
      [|apply nth_error_None in Ei; lia].
    apply in_flat_map. exists i. split.
    + apply np_unique_In. apply (nth_error_In _ _ Ei).
    + unfold feature_slices_pure. apply in_or_app. left.
      rewrite <- prefix_sum_S. change (slice_of _ _) with (pslice (ric_count x) j).
      apply in_map. apply np_where_eq_In. exact Ei.
  - intros s Hs. apply in_flat_map in Hs. destruct Hs as (i & Hi & Hs).
    unfold feature_slices_pure in Hs. apply in_app_or in Hs.
    destruct Hs as [Hs|Hs].
    + right. apply in_map_iff in Hs. destruct Hs as (j & <- & Hj).
      apply np_where_eq_In in Hj. exists j. split.
      * apply nth_error_Some. congruence.
      * unfold pslice. rewrite prefix_sum_S. reflexivity.
    + left. apply repeat_spec in Hs. exact Hs.
Qed.

Lemma profile_slices_emitted_witness :
  exists d, subarrays scenario_ric = Return d /\
  (forall j, j < 4 ->
     In (slice_of (prefix_sum [4; 2; 3; 3] j)
           (prefix_sum [4; 2; 3; 3] j + nth j [4; 2; 3; 3] 0))
        (sample_slices d)) /\
  (forall s, In s (sample_slices d) ->
     s = slice_of 0 0 \/
     exists j, j < 4 /\
       s = slice_of (prefix_sum [4; 2; 3; 3] j)
             (prefix_sum [4; 2; 3; 3] j + nth j [4; 2; 3; 3] 0)).
Proof.
  eexists. split; [reflexivity|].
  apply (@profile_slices_emitted scenario_ric). reflexivity.
Defined.

(** X10. When Index names exactly the features 0 .. n_features - 1 and
    no feature has more profiles than the shape has profile slots, the
    descriptors correspond place by place: at place
    i * max_n_profiles + k the location is (i, k, 0, ...) and the
    compressed slice is that of the k-th profile of feature i, in the
    order of the sample dimension, or slice(0, 0) when the feature has
    no k-th profile. *)
Theorem profile_lands_at_its_location (x : RaggedIndexedContiguousArray)
  (n_features max_n_profiles : nat) (rest : list nat) (d : descriptors)
  (i k : nat) :
  ric_shape x = n_features :: max_n_profiles :: rest ->
  subarrays x = Return d ->
  (forall i, In i (ric_index x) <-> i < n_features) ->
  (forall i, i < n_features ->
             List.length (np_where_eq (ric_index x) i) <= max_n_profiles) ->
  i < n_features -> k < max_n_profiles ->
  nth_error (locations d) (i * max_n_profiles + k)
  = Some (i :: k :: repeat 0 (List.length rest)) /\
  nth_error (sample_slices d) (i * max_n_profiles + k)
  = Some (match nth_error (np_where_eq (ric_index x) i) k with
          | Some j => slice_of (prefix_sum (ric_count x) j)
                        (prefix_sum (ric_count x) j + nth j (ric_count x) 0)
          | None => slice_of 0 0
          end).
Proof.
  intros Es Hd Hcov Hmax Hi Hk.
  split.
  - destruct (subarrays_inv x Hd) as (nf' & mp' & rest' & sn & Es' & _ & _ & E).
    rewrite Es in Es'. injection Es' as <- <- <-. rewrite E.
    cbn [locations]. rewrite repeat_singletons, product_two.
    rewrite (@nth_error_flat_map_block _ _ _ max_n_profiles _ i k i).
    + rewrite nth_error_map, nth_error_seq_lt by assumption. reflexivity.
    + intros. rewrite length_map, length_seq. reflexivity.
    + apply nth_error_seq_lt. assumption.
    + assumption.
  - rewrite (subarrays_sample_slices x Es Hd).
    rewrite (np_unique_covering _ Hcov).
    rewrite (@nth_error_flat_map_block _ _ _ max_n_profiles _ i k i).
    + unfold feature_slices_pure.
      destruct (nth_error (np_where_eq (ric_index x) i) k) as [j|] eqn:Ej.
      * rewrite nth_error_app1
          by (rewrite length_map; apply nth_error_Some; congruence).
        rewrite nth_error_map, Ej. cbn [option_map].
        unfold pslice. rewrite prefix_sum_S. reflexivity.
      * apply nth_error_None in Ej.
        rewrite nth_error_app2 by (rewrite length_map; exact Ej).
        rewrite length_map. apply nth_error_repeat. lia.
    + intros u Hu. apply in_seq in Hu. rewrite feature_slices_pure_length.
      specialize (Hmax u ltac:(lia)). lia.
    + apply nth_error_seq_lt. assumption.
    + assumption.
Qed.

Lemma profile_lands_at_its_location_witness :
  exists d, subarrays scenario_ric = Return d /\
  nth_error (locations d) (0 * 3 + 2) = Some (0 :: 2 :: repeat 0 1) /\
  nth_error (sample_slices d) (0 * 3 + 2)
  = Some (match nth_error (np_where_eq [0; 0; 1; 0] 0) 2 with
          | Some j => slice_of (prefix_sum [4; 2; 3; 3] j)
                        (prefix_sum [4; 2; 3; 3] j + nth j [4; 2; 3; 3] 0)
          | None => slice_of 0 0
          end).
Proof.
  eexists. split; [reflexivity|].
  apply (@profile_lands_at_its_location scenario_ric 2 3 [4] _ 0 2).
  - reflexivity.
  - reflexivity.
  - intros i. simpl. split; [intros [H|[H|[H|[H|[]]]]]; lia|].
    intros H. destruct i as [|[|i]]; [tauto | tauto | lia].
  - intros i Hi. destruct i as [|[|i]]; [simpl; lia | simpl; lia | lia].
  - lia.
  - lia.
Defined.

(** ** Compression of a field construct, once more *)

Lemma compress_body_noop (V : Type) (f : Field V) (d : Data V)
  (method : string) :
  f_data f = Some d ->
  replace_space (get_compression_type d) = ("ragged_" ++ method)%string ->
  compress_body method f = (f, Return tt).
Proof.
  intros Hd Ht. unfold compress_body. monad_unfold. rewrite Hd, Ht.
  rewrite String.eqb_refl. reflexivity.
Qed.

Lemma set_CompressedArray_result (V : Type) (x : source V) (f f' : Field V) :
  set_CompressedArray x f = (f', Return tt) ->
  exists d', f_data f' = Some d' /\ data_source d' = x.
Proof.
  unfold set_CompressedArray, field_data. monad_unfold.
  destruct (f_data f) as [d|]; [|discriminate].
  intros H. injection H as <-. eexists. split; reflexivity.
Qed.

Ltac step_bind :=
  match goal with
  | H : context [match ?m with (_, _) => _ end] |- _ =>
      let f := fresh "f" in let a := fresh "a" in let e := fresh "e" in
      let E := fresh "E" in
      destruct m as [f [a|e]] eqn:E; [|discriminate]
  end.

Lemma compress_body_returns (V : Type) (method : string) (f f' : Field V) :
  compress_body method f = (f', Return tt) ->
  compress_body method f' = (f', Return tt).
Proof.
  intros H. pose proof H as H0. unfold compress_body in H.
  unfold mbind at 1 in H. unfold get at 1 in H.
  destruct (f_data f) as [data|] eqn:Hd.
  - destruct (negb (replace_space (get_compression_type data) =? EmptyString)%string
              && (replace_space (get_compression_type data) =? "ragged_" ++ method)%string)
      eqn:Hc.
    + unfold mret in H. injection H as <-. exact H0.
    + clear H0.
      unfold mbind at 1 in H. step_bind.
      unfold mbind at 1 in H. step_bind.
      destruct (method =? "gathered")%string; [discriminate|].
      unfold mbind at 1 in H. unfold get at 1 in H.
      unfold mbind at 1 in H. step_bind.
      unfold mbind at 1 in H. step_bind.
      unfold mbind at 1 in H. step_bind.
      destruct (method =? "contiguous")%string eqn:M1.
      { apply String.eqb_eq in M1. subst method.
        unfold mbind at 1 in H. step_bind.
        apply set_CompressedArray_result in H. destruct H as (d' & Hd' & Hs).
        apply (compress_body_noop _ Hd').
        unfold get_compression_type. rewrite Hs. reflexivity. }
      destruct (method =? "indexed")%string eqn:M2.
      { apply String.eqb_eq in M2. subst method.
        unfold mbind at 1 in H. step_bind.
        apply set_CompressedArray_result in H. destruct H as (d' & Hd' & Hs).
        apply (compress_body_noop _ Hd').
        unfold get_compression_type. rewrite Hs. reflexivity. }
      destruct (method =? "indexed_contiguous")%string eqn:M3; [|discriminate].
      apply String.eqb_eq in M3. subst method.
      unfold mbind at 1 in H. step_bind.
      unfold mbind at 1 in H. step_bind.
      unfold mbind at 1 in H. step_bind.
      unfold mbind at 1 in H. step_bind.
      apply set_CompressedArray_result in H. destruct H as (d' & Hd' & Hs).
      apply (compress_body_noop _ Hd').
      unfold get_compression_type. rewrite Hs. reflexivity.
  - unfold mret in H. injection H as <-. exact H0.
Qed.

(** X11. Compressing twice by the same method is compressing once:
    when [compress(method)] returns a field construct, compressing that
    field construct again by the same method returns it as it is. *)
Theorem compress_idempotent (V : Type) (f g : Field V) (method : string) :
  compress f method false = (f, Return (Some g)) ->
  compress g method false = (g, Return (Some g)).
Proof.
  unfold compress, inplace_enabled.
  destruct (compress_body method f) as [f' [[]|e]] eqn:E; [|discriminate].
  intros H. injection H as <-.
  rewrite (compress_body_returns _ _ E). reflexivity.
Qed.

Lemma compress_idempotent_witness :
  exists g,
    compress empty_row_inside "contiguous" false
    = (empty_row_inside, Return (Some g)) /\
    compress g "contiguous" false = (g, Return (Some g)).
Proof.
  eexists. split; [reflexivity|].
  apply (@compress_idempotent nat empty_row_inside). reflexivity.
Defined.

(** X12. A field construct whose data is not yet compressed by the
    method and does not have the number of dimensions the method
    requires (2 for 'contiguous' and 'indexed', 3 for
    'indexed_contiguous') makes [compress] raise a ValueError; the
    check comes before any change, so the field construct is left
    as it was, also when the operation is in place. *)
Theorem compress_wrong_ndim (V : Type) (f : Field V) (d : Data V)
  (method : string) (inplace : bool) :
  f_data f = Some d ->
  replace_space (get_compression_type d) <> ("ragged_" ++ method)%string ->
  ((method = "contiguous" \/ method = "indexed")%string /\ data_ndim d <> 2) \/
  (method = "indexed_contiguous"%string /\ data_ndim d <> 3) ->
  compress f method inplace = (f, Raise ValueError).
Proof.
  intros Hd Ht Hm.
  assert (compress_body method f = (f, Raise ValueError)) as Hb.
  { unfold compress_body. monad_unfold. rewrite Hd.
    apply String.eqb_neq in Ht. rewrite Ht, andb_false_r.
    assert (check_ndim method (data_ndim d) = Raise ValueError) as ->;
      [|reflexivity].
    unfold check_ndim.
    destruct Hm as [[[-> | ->] Hn]|[-> Hn]]; cbn [String.eqb Ascii.eqb Bool.eqb];
      apply Nat.eqb_neq in Hn; rewrite Hn; reflexivity. }
  unfold compress, inplace_enabled. rewrite Hb. destruct inplace; reflexivity.
Qed.

Lemma compress_wrong_ndim_witness :
  compress docstring_field "contiguous" true
  = (docstring_field, Raise ValueError).
Proof.
  apply (@compress_wrong_ndim nat docstring_field docstring_data
           "contiguous" true).
  - reflexivity.
  - simpl. discriminate.
  - left. split; [left; reflexivity | vm_compute; lia].
Defined.

(** ** Indexed compression *)

Lemma index_from_cons (off c : nat) (count : list nat) :
  index_from off (c :: count) = repeat off c ++ index_from (S off) count.
Proof. reflexivity. Qed.

Lemma index_from_length (count : list nat) : forall off,
  List.length (index_from off count) = sum_list count.
Proof.
  induction count as [|c t IH]; intros off; [reflexivity|].
  rewrite index_from_cons, length_app, repeat_length, IH. reflexivity.
Qed.

Lemma index_from_bounds (count : list nat) : forall off,
  Forall (fun i => off <= i < off + List.length count) (index_from off count).
Proof.
  induction count as [|c t IH]; intros off; [constructor|].
  rewrite index_from_cons. apply Forall_app. split.
  - apply Forall_forall. intros i Hi. apply repeat_spec in Hi. subst.
    simpl. lia.
  - eapply Forall_impl; [|apply IH]. simpl. intros; lia.
Qed.

Lemma cnt_repeat_eq (i j n : nat) :
  cnt (Nat.eqb i) (repeat j n) = if i =? j then n else 0.
Proof.
  unfold cnt. induction n as [|n IH]; simpl.
  - destruct (i =? j); reflexivity.
  - destruct (i =? j) eqn:E; simpl; rewrite IH; reflexivity.
Qed.

Lemma index_from_occurrences (count : list nat) : forall off i,
  cnt (Nat.eqb i) (index_from off count)
  = if off <=? i then nth (i - off) count 0 else 0.
Proof.
  induction count as [|c t IH]; intros off i.
  - simpl. destruct (off <=? i); [destruct (i - off)|]; reflexivity.
  - rewrite index_from_cons, cnt_app, cnt_repeat_eq, IH.
    destruct (Nat.eqb_spec i off) as [->|Hne].
    + rewrite Nat.leb_refl, Nat.sub_diag. cbn [nth].
      destruct (Nat.leb_spec (S off) off); lia.
    + destruct (Nat.leb_spec off i) as [H1|H1];
        destruct (Nat.leb_spec (S off) i) as [H2|H2]; try lia.
      replace (i - off) with (S (i - S off)) by lia. reflexivity.
Qed.

Lemma index_from_sorted (count : list nat) : forall off,
  StronglySorted le (index_from off count).
Proof.
  induction count as [|c t IH]; intros off; [constructor|].
  rewrite index_from_cons.
  induction c as [|c IHc]; simpl; [apply IH|].
  constructor; [exact IHc|].
  apply Forall_app. split.
  - apply Forall_forall. intros i Hi. apply repeat_spec in Hi. lia.
  - eapply Forall_impl; [|apply (index_from_bounds t (S off))].
    simpl. intros; lia.
Qed.

Lemma compress_indexed_no_constructs (V : Type) (f : Field V)
  (n m : nat) (values : list (option V)) :
  f_data f = Some {| data_shape := [n; m]; data_source := NumpyArray values |} ->
  List.length (f_data_axes f) = 2 ->
  f_constructs f = [] ->
  compress f "indexed" false
  = (f, Return (Some
       (set_data f
          {| data_shape := [n; m];
             data_source :=
               RaggedIndexedArray (row_prefixes (chunks n m values))
                 (indexed_index (map (@row_count V) (chunks n m values))) |}))).
Proof.
  intros Hd Hax Hc.
  unfold compress, inplace_enabled, compress_body.
  unfold mbind at 1. unfold get at 1. rewrite Hd.
  cbn [get_compression_type data_source replace_space String.eqb negb andb].
  unfold mbind at 1. unfold lift at 1.
  cbn [check_ndim data_ndim data_shape List.length String.eqb Ascii.eqb
       Bool.eqb Nat.eqb].
  unfold mbind at 1.
  pose proof (transpose_id_no_constructs f Hd Hax Hc) as Ht.
  cbn [data_ndim data_shape List.length] in Ht. rewrite Ht. clear Ht.
  cbn [String.eqb Ascii.eqb Bool.eqb].
  unfold mbind at 1. unfold get at 1.
  unfold mbind at 1. unfold lift at 1. unfold field_data. rewrite Hd.
  unfold mbind at 1. unfold lift at 1. rewrite flattened_rows_2d.
  unfold mbind at 1. unfold lift at 1. rewrite fill_rows_ok.
  unfold compress_metadata, set_CompressedArray.
  monad_unfold. rewrite Hc. simpl. unfold field_data. rewrite Hd. reflexivity.
Qed.

(** X13. Indexed ragged compression of a field whose data is an
    uncompressed n x m array stores the concatenation, in row order, of
    each row's elements up to its trailing missing values, and an index
    variable with one entry per stored element: the entries do not
    decrease, name rows of the array, and each row is named as many
    times as it has elements before its trailing missing values (a row
    without values is named by no entry). *)
Theorem indexed_encoding (V : Type) (f : Field V) (n m : nat)
  (values : list (option V)) :
  f_data f = Some {| data_shape := [n; m]; data_source := NumpyArray values |} ->
  List.length values = n * m ->
  List.length (f_data_axes f) = 2 ->
  f_constructs f = [] ->
  exists g compressed index_variable,
    compress f "indexed" false = (f, Return (Some g)) /\
    f_data g = Some {| data_shape := [n; m];
                       data_source :=
                         RaggedIndexedArray compressed index_variable |} /\
    compressed = row_prefixes (chunks n m values) /\
    List.length index_variable = List.length compressed /\
    StronglySorted le index_variable /\
    Forall (fun i => i < n) index_variable /\
    (forall i d, nth_error (chunks n m values) i = Some d ->
       cnt (Nat.eqb i) index_variable = m - trailing_missing d).
Proof.
  intros Hd Hlen Hax Hc.
  destruct (chunks_length m n values Hlen) as (Hm & Hn & Hcat).
  eexists _, _, _.
  split; [apply (compress_indexed_no_constructs f Hd Hax Hc)|].
  split; [reflexivity|]. split; [reflexivity|].
  change (indexed_index ?c) with (index_from 0 c).
  split; [|split; [|split]].
  - rewrite index_from_length, row_prefixes_length. reflexivity.
  - apply index_from_sorted.
  - eapply Forall_impl; [|apply index_from_bounds].
    simpl. intros i Hi. rewrite length_map, Hn in Hi. lia.
  - intros i d Hi. rewrite index_from_occurrences. simpl.
    rewrite Nat.sub_0_r.
    rewrite (nth_error_nth (map (@row_count V) (chunks n m values)) i 0
               (x := row_count d))
      by (rewrite nth_error_map, Hi; reflexivity).
    rewrite row_count_trailing.
    rewrite Forall_forall in Hm.
    rewrite (Hm d (nth_error_In _ _ Hi)). reflexivity.
Qed.

Lemma indexed_encoding_witness :
  exists g compressed index_variable,
    compress empty_row_inside "indexed" false
    = (empty_row_inside, Return (Some g)) /\
    f_data g = Some {| data_shape := [3; 2];
                       data_source :=
                         RaggedIndexedArray compressed index_variable |} /\
    compressed
    = row_prefixes
        (chunks 3 2 [Some 1; None; None; None; Some 2; Some 3]) /\
    List.length index_variable = List.length compressed /\
    StronglySorted le index_variable /\
    Forall (fun i => i < 3) index_variable /\
    (forall i d,
       nth_error (chunks 3 2 [Some 1; None; None; None; Some 2; Some 3]) i
       = Some d ->
       cnt (Nat.eqb i) index_variable = 2 - trailing_missing d).
Proof.
  apply (@indexed_encoding nat empty_row_inside 3 2
           [Some 1; None; None; None; Some 2; Some 3]); reflexivity.
Defined.

Lemma filter_combine_repeat_eq (V : Type) (i : nat) (p : list (option V)) :
  filter (fun q => fst q =? i) (combine (repeat i (List.length p)) p)
  = combine (repeat i (List.length p)) p.
Proof.
  induction p as [|a p IH]; simpl; [reflexivity|].
  rewrite Nat.eqb_refl, IH. reflexivity.
Qed.

Lemma filter_combine_repeat_ne (V : Type) (i j : nat) (p : list (option V)) :
  i <> j ->
  filter (fun q => fst q =? i) (combine (repeat j (List.length p)) p) = [].
Proof.
  intros Hne. induction p as [|a p IH]; simpl; [reflexivity|].
  destruct (Nat.eqb_spec j i); [congruence | exact IH].
Qed.

Lemma combine_app_same (A B : Type) (l1 l2 : list A) (r1 r2 : list B) :
  List.length l1 = List.length r1 ->
  combine (l1 ++ l2) (r1 ++ r2) = combine l1 r1 ++ combine l2 r2.
Proof.
  revert r1. induction l1 as [|a l1 IH]; intros [|b r1] H; simpl in *;
    try discriminate; [reflexivity|].
  rewrite IH by lia. reflexivity.
Qed.

Lemma map_snd_combine_repeat (V : Type) (i : nat) (p : list (option V)) :
  map snd (combine (repeat i (List.length p)) p) = p.
Proof.
  induction p as [|a p IH]; simpl; [reflexivity|]. rewrite IH. reflexivity.
Qed.

(** The elements of the compressed array that the index variable gives
    to feature [i]. *)
Lemma own_elements (V : Type) (rows : list (list (option V))) :
  forall off i,
    map snd (filter (fun q => fst q =? i)
               (combine (index_from off (map (@row_count V) rows))
                  (row_prefixes rows)))
    = match nth_error rows (i - off) with
      | Some d => if off <=? i then firstn (row_count d) d else []
      | None => []
      end.
Proof.
  induction rows as [|d rows IH]; intros off i.
  - simpl. destruct (i - off); reflexivity.
  - cbn [map]. rewrite index_from_cons.
    change (row_prefixes (d :: rows))
      with (firstn (row_count d) d ++ row_prefixes rows).
    assert (List.length (firstn (row_count d) d) = row_count d) as Hl
      by (apply firstn_length_le, row_count_le).
    set (p := firstn (row_count d) d) in *.
    rewrite <- Hl. clear Hl.
    rewrite combine_app_same by (rewrite repeat_length; reflexivity).
    rewrite filter_app, map_app, IH.
    destruct (Nat.eqb_spec i off) as [->|Hne].
    + rewrite filter_combine_repeat_eq, map_snd_combine_repeat.
      rewrite Nat.sub_diag, Nat.leb_refl. cbn [nth_error].
      destruct (Nat.leb_spec (S off) off) as [H|H]; [lia|].
      destruct (nth_error rows (off - S off)); apply app_nil_r.
    + rewrite filter_combine_repeat_ne by exact Hne. cbn [map app].
      destruct (Nat.leb_spec off i) as [H1|H1];
        destruct (Nat.leb_spec (S off) i) as [H2|H2]; try lia.
      * replace (i - off) with (S (i - S off)) by lia. reflexivity.
      * destruct (nth_error rows (i - S off));
          destruct (nth_error (d :: rows) (i - off)); reflexivity.
Qed.

Lemma decode_indexed_rows (V : Type) (m : nat) (rows : list (list (option V))) :
  Forall (fun d => List.length d = m) rows ->
  decode_indexed (List.length rows) m (row_prefixes rows)
    (indexed_index (map (@row_count V) rows))
  = concat rows.
Proof.
  intros Hm. unfold decode_indexed. f_equal.
  change (indexed_index ?c) with (index_from 0 c).
  apply nth_error_ext. intros i.
  rewrite nth_error_map.
  destruct (Nat.lt_ge_cases i (List.length rows)) as [Hi|Hi].
  - rewrite nth_error_seq_lt by exact Hi. cbn [option_map Nat.add].
    rewrite own_elements, Nat.sub_0_r. cbn [Nat.leb].
    destruct (nth_error rows i) as [d|] eqn:Ed;
      [|apply nth_error_None in Ed; lia].
    f_equal. rewrite Forall_forall in Hm.
    pose proof (Hm d (nth_error_In _ _ Ed)) as Hd.
    pose proof (row_count_le d) as Hle.
    rewrite firstn_length_le by exact Hle.
    rewrite firstn_all2 by (rewrite firstn_length_le by exact Hle; lia).
    pose proof (row_count_split d) as [Hs _].
    rewrite <- Hd. replace (List.length d - row_count d) with (trailing_missing d)
      by (rewrite row_count_trailing;
          assert (trailing_missing d <= List.length d); [|lia];
          unfold trailing_missing; rewrite <- length_rev;
          apply leading_missing_le).
    symmetry. exact Hs.
  - destruct (nth_error (seq 0 (List.length rows)) i) eqn:E.
    + assert (nth_error (seq 0 (List.length rows)) i <> None) as Hn by congruence.
      apply nth_error_Some in Hn. rewrite length_seq in Hn. lia.
    + apply nth_error_None in Hi. rewrite Hi. reflexivity.
Qed.

(** X14. Indexed ragged compression loses nothing: for every
    uncompressed n x m array, rows without values included, compressing
    by 'indexed' and uncompressing gives back the field construct that
    was compressed (the decoder is the one modelled from the
    specification). *)
Theorem indexed_roundtrip (V : Type) (f : Field V) (n m : nat)
  (values : list (option V)) :
  f_data f = Some {| data_shape := [n; m]; data_source := NumpyArray values |} ->
  List.length values = n * m ->
  List.length (f_data_axes f) = 2 ->
  f_constructs f = [] ->
  exists g,
    compress f "indexed" false = (f, Return (Some g)) /\
    uncompress g false = (g, Return (Some f)).
Proof.
  intros Hd Hlen Hax Hc.
  eexists. split; [apply (compress_indexed_no_constructs f Hd Hax Hc)|].
  destruct (chunks_length m n values Hlen) as (Hm & Hn & Hcat).
  unfold uncompress, inplace_enabled, uncompress_body, set_data.
  monad_unfold. cbn [f_data f_constructs data_uncompress data_source
                     data_array data_shape bind].
  rewrite Hc. cbn [List.length seq for_each]. unfold mret.
  pose proof (decode_indexed_rows Hm) as Hdec. rewrite Hn in Hdec.
  rewrite Hdec, Hcat. cbn [f_data_axes f_domain_axes f_constructs].
  clear Hdec Hm Hn Hcat.
  destruct f as [fd fa fdom fc]. cbn in Hd, Hc. subst fd fc. reflexivity.
Qed.

Lemma indexed_roundtrip_witness :
  exists g,
    compress empty_row_inside "indexed" false
    = (empty_row_inside, Return (Some g)) /\
    uncompress g false = (g, Return (Some empty_row_inside)).
Proof.
  apply (@indexed_roundtrip nat empty_row_inside 3 2
           [Some 1; None; None; None; Some 2; Some 3]); reflexivity.
Defined.

(** X15. When no row without values comes before a row with values,
    contiguous ragged compression followed by uncompression gives back
    the field construct that was compressed (the decoder is the one
    modelled from the specification), and compressing the compressed
    field construct again by 'contiguous' changes nothing. *)
Theorem contiguous_roundtrip (V : Type) (f : Field V) (n m : nat)
  (values : list (option V)) :
  f_data f = Some {| data_shape := [n; m]; data_source := NumpyArray values |} ->
  List.length values = n * m ->
  List.length (f_data_axes f) = 2 ->
  f_constructs f = [] ->
  empty_rows_last (map (@row_count V) (chunks n m values)) ->
  exists g,
    compress f "contiguous" false = (f, Return (Some g)) /\
    uncompress g false = (g, Return (Some f)) /\
    (forall inplace, compress g "contiguous" inplace
                     = (g, Return (if inplace then None else Some g))).
Proof.
  intros Hd Hlen Hax Hc Hlast.
  destruct (roundtrip_when_empty_rows_last f Hd Hlen Hax Hc Hlast)
    as (g & Hg & Hu).
  exists g. split; [exact Hg|]. split; [exact Hu|].
  intros inplace.
  assert (compress_body "contiguous" g = (g, Return tt)) as Hb.
  { apply (@compress_body_returns V "contiguous" f g).
    unfold compress, inplace_enabled in Hg.
    destruct (compress_body "contiguous" f) as [f' [[]|e]]; [|discriminate].
    injection Hg as <-. reflexivity. }
  unfold compress, inplace_enabled. rewrite Hb. destruct inplace; reflexivity.
Qed.

Lemma contiguous_roundtrip_witness :
  exists g,
    compress empty_row_last "contiguous" false
    = (empty_row_last, Return (Some g)) /\
    uncompress g false = (g, Return (Some empty_row_last)) /\
    (forall inplace, compress g "contiguous" inplace
                     = (g, Return (if inplace then None else Some g))).
Proof.
  apply (@contiguous_roundtrip nat empty_row_last 3 2
           [Some 1; None; Some 2; Some 3; None; None]);
    try reflexivity.
  intros pre post E. simpl in E.
  destruct pre as [|a [|b [|c [|x pre]]]]; simpl in E; try discriminate.
  injection E as _ _ E. subst post. constructor.
Defined.

(** ** Indexed contiguous compression *)

Lemma flattened_rows_3d (V : Type) (s0 s1 m : nat) (values : list (option V)) :
  flattened_rows {| data_shape := [s0; s1; m];
                    data_source := NumpyArray values |}
  = Return (chunks (s0 * s1) m values).
Proof.
  unfold flattened_rows, data_array. simpl.
  rewrite Nat.mul_1_r, (Nat.mul_comm s1 s0). reflexivity.
Qed.

Lemma compress_indexed_contiguous_no_constructs (V : Type) (f : Field V)
  (s0 s1 m : nat) (values : list (option V)) :
  f_data f = Some {| data_shape := [s0; s1; m];
                     data_source := NumpyArray values |} ->
  List.length (f_data_axes f) = 3 ->
  f_constructs f = [] ->
  compress f "indexed_contiguous" false
  = (f, Return (Some
       (set_data f
          {| data_shape := [s0; s1; m];
             data_source :=
               RaggedIndexedContiguous
                 (row_prefixes (chunks (s0 * s1) m values))
                 (nonzero (map (@row_count V) (chunks (s0 * s1) m values)))
                 (indexed_contiguous_index s0 s1
                    (map (@row_count V) (chunks (s0 * s1) m values))) |}))).
Proof.
  intros Hd Hax Hc.
  unfold compress, inplace_enabled, compress_body.
  unfold mbind at 1. unfold get at 1. rewrite Hd.
  cbn [get_compression_type data_source replace_space String.eqb negb andb].
  unfold mbind at 1. unfold lift at 1.
  cbn [check_ndim data_ndim data_shape List.length String.eqb Ascii.eqb
       Bool.eqb Nat.eqb].
  unfold mbind at 1.
  pose proof (transpose_id_no_constructs f Hd Hax Hc) as Ht.
  cbn [data_ndim data_shape List.length] in Ht. rewrite Ht. clear Ht.
  cbn [String.eqb Ascii.eqb Bool.eqb].
  unfold mbind at 1. unfold get at 1.
  unfold mbind at 1. unfold lift at 1. unfold field_data. rewrite Hd.
  unfold mbind at 1. unfold lift at 1. rewrite flattened_rows_3d.
  unfold mbind at 1. unfold lift at 1. rewrite fill_rows_ok.
  unfold compress_metadata, set_CompressedArray.
  monad_unfold. rewrite Hc. simpl. unfold field_data. rewrite Hd.
  cbn [bind data_shape getitem nth_error]. unfold mret. cbn [fst snd].
  rewrite Hd. cbn [bind data_shape getitem nth_error].
  rewrite Hc. cbn [List.length seq for_each]. unfold mret.
  rewrite Hd. reflexivity.
Qed.

Lemma count_positive_bound (count : list nat) (start stop : nat) :
  count_positive count start stop <= stop - start.
Proof.
  unfold count_positive.
  etransitivity; [apply filter_length_le|]. rewrite length_firstn. lia.
Qed.

Lemma count_positive_shift (s1 : nat) (count : list nat) (i : nat) :
  count_positive count (s1 * S i) (s1 * S i + s1)
  = count_positive (skipn s1 count) (s1 * i) (s1 * i + s1).
Proof.
  unfold count_positive. rewrite skipn_skipn.
  replace (s1 * S i + s1 - s1 * S i) with s1 by lia.
  replace (s1 * i + s1 - s1 * i) with s1 by lia.
  replace (s1 * S i) with (s1 * i + s1) by lia. reflexivity.
Qed.

Lemma positive_blocks (s1 : nat) : forall s0 count,
  sum_list (map (fun i => count_positive count (s1 * i) (s1 * i + s1))
              (seq 0 s0))
  = List.length (filter (fun n => 0 <? n) (firstn (s0 * s1) count)).
Proof.
  induction s0 as [|s0 IH]; intros count; [reflexivity|].
  rewrite <- cons_seq, <- seq_shift. cbn [map]. rewrite map_map.
  cbn [sum_list fold_right].
  change (fold_right Nat.add 0 ?l) with (sum_list l).
  rewrite (map_ext _ (fun i => count_positive (skipn s1 count)
                                 (s1 * i) (s1 * i + s1)))
    by (intros; apply count_positive_shift).
  rewrite IH. unfold count_positive.
  rewrite Nat.mul_0_r. cbn [skipn Nat.add].
  replace (s1 - 0) with s1 by lia.
  replace (S s0 * s1) with (s1 + s0 * s1) by lia.
  rewrite <- (firstn_skipn s1 count) at 3.
  rewrite firstn_app, filter_app, length_app.
  rewrite firstn_firstn, length_firstn.
  replace (Nat.min (s1 + s0 * s1) s1) with s1 by lia.
  f_equal. f_equal. f_equal.
  destruct (Nat.le_ge_cases s1 (List.length count)) as [H|H].
  - f_equal. lia.
  - rewrite (skipn_all2 count H), !firstn_nil. reflexivity.
Qed.

Lemma nonzero_length (count : list nat) :
  List.length (nonzero count)
  = List.length (filter (fun n => 0 <? n) count).
Proof.
  unfold nonzero. f_equal. apply filter_ext. intros n.
  destruct n; reflexivity.
Qed.

Lemma indexed_contiguous_index_length (s0 s1 : nat) (count : list nat) :
  List.length count = s0 * s1 ->
  List.length (indexed_contiguous_index s0 s1 count)
  = List.length (nonzero count).
Proof.
  intros Hlen. unfold indexed_contiguous_index.
  rewrite length_concat, map_map.
  rewrite (map_ext _ (fun i => count_positive count (s1 * i) (s1 * i + s1)))
    by (intros; apply repeat_length).
  change (list_sum ?l) with (sum_list l).
  rewrite positive_blocks, <- Hlen, firstn_all, nonzero_length. reflexivity.
Qed.

Lemma cnt_labelled_blocks (g : nat -> nat) (i : nat) : forall n a,
  cnt (Nat.eqb i) (concat (map (fun j => repeat j (g j)) (seq a n)))
  = if (a <=? i) && (i <? a + n) then g i else 0.
Proof.
  induction n as [|n IH]; intros a.
  - simpl. destruct (Nat.leb_spec a i), (Nat.ltb_spec i (a + 0));
      try reflexivity; lia.
  - cbn [seq map concat]. rewrite cnt_app, cnt_repeat_eq, IH.
    destruct (Nat.eqb_spec i a) as [->|Hne].
    + destruct (Nat.leb_spec (S a) a), (Nat.leb_spec a a),
        (Nat.ltb_spec a (a + S n)); cbn [andb]; lia.
    + destruct (Nat.leb_spec (S a) i), (Nat.leb_spec a i),
        (Nat.ltb_spec i (S a + n)), (Nat.ltb_spec i (a + S n));
        cbn [andb]; lia.
Qed.

(** X16. Indexed contiguous ragged compression of a field whose data is
    an uncompressed s0 x s1 x m array stores a count variable and an
    index variable that fit each other and the descriptor generator:
    one Index entry per Count entry, counts that are positive and sum
    to the number of stored elements, Index values below the number of
    features, no feature named more often than there are profile
    slots; and [subarrays] returns on the stored array. *)
Theorem indexed_contiguous_encoding (V : Type) (f : Field V)
  (s0 s1 m : nat) (values : list (option V)) :
  f_data f = Some {| data_shape := [s0; s1; m];
                     data_source := NumpyArray values |} ->
  List.length values = s0 * s1 * m ->
  List.length (f_data_axes f) = 3 ->
  f_constructs f = [] ->
  exists g compressed count_variable index_variable,
    compress f "indexed_contiguous" false = (f, Return (Some g)) /\
    f_data g = Some {| data_shape := [s0; s1; m];
                       data_source :=
                         RaggedIndexedContiguous compressed count_variable
                           index_variable |} /\
    List.length index_variable = List.length count_variable /\
    sum_list count_variable = List.length compressed /\
    Forall (fun c => 0 < c) count_variable /\
    Forall (fun i => i < s0) index_variable /\
    (forall i, cnt (Nat.eqb i) index_variable <= s1) /\
    exists d,
      subarrays {| ric_shape := [s0; s1; m];
                   ric_source_ndim := 1;
                   ric_count := count_variable;
                   ric_index := index_variable |} = Return d.
Proof.
  intros Hd Hlen Hax Hc.
  destruct (chunks_length m (s0 * s1) values Hlen) as (Hm & Hn & Hcat).
  assert (List.length (map (@row_count V) (chunks (s0 * s1) m values))
          = s0 * s1) as Hcount by (rewrite length_map; exact Hn).
  pose proof (indexed_contiguous_index_length s0 s1 _ Hcount) as Hil.
  eexists _, _, _, _.
  split; [apply (compress_indexed_contiguous_no_constructs f Hd Hax Hc)|].
  split; [reflexivity|].
  split; [exact Hil|].
  split; [rewrite sum_list_nonzero, row_prefixes_length; reflexivity|].
  split.
  { apply Forall_forall. intros c Hin. apply nonzero_spec in Hin. lia. }
  split.
  { apply Forall_forall. intros i Hi. unfold indexed_contiguous_index in Hi.
    apply in_concat in Hi. destruct Hi as (l & Hl & Hi).
    apply in_map_iff in Hl. destruct Hl as (j & <- & Hj).
    apply repeat_spec in Hi. subst. apply in_seq in Hj. lia. }
  split.
  { intros i. unfold indexed_contiguous_index.
    rewrite (cnt_labelled_blocks
               (fun j => count_positive
                           (map (@row_count V) (chunks (s0 * s1) m values))
                           (s1 * j) (s1 * j + s1)) i s0 0).
    destruct ((0 <=? i) && (i <? 0 + s0)); [|lia].
    etransitivity; [apply count_positive_bound|]. lia. }
  eexists. eapply subarrays_ok; [reflexivity | reflexivity |].
  cbn [ric_index ric_count]. rewrite Hil. apply Nat.le_refl.
Qed.

Lemma indexed_contiguous_encoding_witness :
  exists g compressed count_variable index_variable,
    compress profiles_3d "indexed_contiguous" false
    = (profiles_3d, Return (Some g)) /\
    f_data g = Some {| data_shape := [2; 2; 2];
                       data_source :=
                         RaggedIndexedContiguous compressed count_variable
                           index_variable |} /\
    List.length index_variable = List.length count_variable /\
    sum_list count_variable = List.length compressed /\
    Forall (fun c => 0 < c) count_variable /\
    Forall (fun i => i < 2) index_variable /\
    (forall i, cnt (Nat.eqb i) index_variable <= 2) /\
    exists d,
      subarrays {| ric_shape := [2; 2; 2];
                   ric_source_ndim := 1;
                   ric_count := count_variable;
                   ric_index := index_variable |} = Return d.
Proof.
  apply (@indexed_contiguous_encoding nat profiles_3d 2 2 2
           [Some 1; Some 2; None; None; None; None; Some 3; None]);
    reflexivity.
Defined.

(** ** The axis order of a transposed construct *)

Lemma mem_string_In (a : string) (l : list string) :
  mem_string a l = true <-> In a l.
Proof.
  unfold mem_string. rewrite existsb_exists. split.
  - intros (x & Hx & E). apply String.eqb_eq in E. subst. exact Hx.
  - intros H. exists a. split; [exact H | apply String.eqb_refl].
Qed.

Lemma mem_string_not_In (a : string) (l : list string) :
  mem_string a l = false <-> ~ In a l.
Proof.
  rewrite <- mem_string_In. destruct (mem_string a l); split; congruence.
Qed.

Lemma list_insert_In (A : Type) (i : nat) (x a : A) (l : list A) :
  In a (list_insert i x l) <-> a = x \/ In a l.
Proof.
  unfold list_insert. rewrite in_app_iff. cbn [In].
  assert (In a l <-> In a (firstn i l) \/ In a (skipn i l)) as ->
    by (rewrite <- in_app_iff, firstn_skipn; reflexivity).
  intuition congruence.
Qed.

Lemma list_insert_NoDup (A : Type) (i : nat) (x : A) (l : list A) :
  ~ In x l -> NoDup l -> NoDup (list_insert i x l).
Proof.
  intros Hx Hl. unfold list_insert.
  apply (NoDup_Add (Add_app x (firstn i l) (skipn i l))).
  rewrite firstn_skipn. split; assumption.
Qed.

Lemma list_insert_filter (A : Type) (p : A -> bool) (i : nat) (x : A)
  (l : list A) :
  p x = false -> filter p (list_insert i x l) = filter p l.
Proof.
  intros Hx. unfold list_insert. rewrite filter_app. cbn [filter].
  rewrite Hx, <- filter_app, firstn_skipn. reflexivity.
Qed.

(** The loop that inserts the axes of the construct that are not yet in
    the new order. *)
Lemma insert_missing_axes (p : string -> bool) :
  forall (todo : list (nat * string)) (acc : list string),
    let r := fold_left
               (fun acc q => if mem_string (snd q) acc then acc
                             else list_insert (fst q) (snd q) acc)
               todo acc in
    (forall a, In a r <-> In a acc \/ In a (map snd todo)) /\
    (NoDup acc -> NoDup r) /\
    ((forall x, In x (map snd todo) -> p x = true -> In x acc) ->
     filter p r = filter p acc).
Proof.
  induction todo as [|[i x] todo IH]; intros acc.
  - cbn. split; [intros a; tauto|]. split; [tauto|]. reflexivity.
  - cbn [fold_left fst snd map].
    destruct (mem_string x acc) eqn:Ex.
    + apply mem_string_In in Ex.
      destruct (IH acc) as (H1 & H2 & H3).
      split; [|split; [exact H2|]].
      * intros a. rewrite H1. cbn [In]. split; [tauto|].
        intros [H|[<-|H]]; tauto.
      * intros H. apply H3. intros y Hy. apply H. right. exact Hy.
    + apply mem_string_not_In in Ex.
      destruct (IH (list_insert i x acc)) as (H1 & H2 & H3).
      split; [|split].
      * intros a. rewrite H1, list_insert_In. cbn [In]. split.
        -- intros [[->|H]|H]; auto.
        -- intros [H|[<-|H]]; auto.
      * intros Hnd. apply H2. apply list_insert_NoDup; assumption.
      * intros H. rewrite H3.
        -- apply list_insert_filter.
           destruct (p x) eqn:Epx; [|reflexivity].
           exfalso. apply Ex. apply H; [left; reflexivity | exact Epx].
        -- intros y Hy Hpy. apply list_insert_In. right.
           apply H; [right; exact Hy | exact Hpy].
Qed.

Lemma map_snd_combine_seq (A : Type) (l : list A) (k : nat) :
  map snd (combine (seq k (List.length l)) l) = l.
Proof.
  revert k. induction l as [|a l IH]; intros k; simpl; [reflexivity|].
  rewrite IH. reflexivity.
Qed.

Lemma reorder_construct_axes_In (new cons : list string) (a : string) :
  In a (reorder_construct_axes new cons) <-> In a cons.
Proof.
  unfold reorder_construct_axes.
  destruct (insert_missing_axes (fun _ => true)
              (combine (seq 0 (List.length cons)) cons)
              (filter (fun axis => mem_string axis cons) new)) as (H1 & _ & _).
  rewrite H1, map_snd_combine_seq, filter_In, mem_string_In. tauto.
Qed.

Lemma reorder_construct_axes_NoDup (new cons : list string) :
  NoDup new -> NoDup (reorder_construct_axes new cons).
Proof.
  intros Hn. unfold reorder_construct_axes.
  destruct (insert_missing_axes (fun _ => true)
              (combine (seq 0 (List.length cons)) cons)
              (filter (fun axis => mem_string axis cons) new)) as (_ & H2 & _).
  apply H2. apply NoDup_filter. exact Hn.
Qed.

Lemma filter_all (A : Type) (p : A -> bool) (l : list A) :
  (forall x, In x l -> p x = true) -> filter p l = l.
Proof.
  induction l as [|a l IH]; intros H; simpl; [reflexivity|].
  rewrite (H a) by (left; reflexivity).
  rewrite IH by (intros; apply H; right; assumption). reflexivity.
Qed.

Lemma reorder_construct_axes_order (new cons : list string) :
  filter (fun a => mem_string a new) (reorder_construct_axes new cons)
  = filter (fun a => mem_string a cons) new.
Proof.
  unfold reorder_construct_axes.
  destruct (insert_missing_axes (fun a => mem_string a new)
              (combine (seq 0 (List.length cons)) cons)
              (filter (fun axis => mem_string axis cons) new)) as (_ & _ & H3).
  rewrite H3.
  - apply filter_all. intros x Hx. apply filter_In in Hx.
    apply mem_string_In. tauto.
  - rewrite map_snd_combine_seq. intros x Hx Hm. apply filter_In.
    split; [apply mem_string_In; exact Hm | apply mem_string_In; exact Hx].
Qed.

Lemma list_index_In (x : string) (l : list string) :
  In x l -> exists i, list_index x l = Return i /\ nth_error l i = Some x.
Proof.
  induction l as [|y l IH]; intros H; [destruct H|].
  cbn [list_index]. destruct (String.eqb_spec y x) as [->|Hne].
  - exists 0. split; reflexivity.
  - destruct H as [H|H]; [congruence|].
    destruct (IH H) as (i & Hi & Hn). exists (S i). rewrite Hi.
    split; [reflexivity | exact Hn].
Qed.

Lemma list_index_nth (l : list string) : forall k x,
  NoDup l -> nth_error l k = Some x -> list_index x l = Return k.
Proof.
  induction l as [|y l IH]; intros k x Hnd Hk; [destruct k; discriminate|].
  cbn [list_index]. inversion Hnd as [|? ? Hy Hl]; subst.
  destruct k as [|k]; cbn in Hk.
  - injection Hk as ->. rewrite String.eqb_refl. reflexivity.
  - destruct (String.eqb_spec y x) as [->|Hne].
    + exfalso. apply Hy. apply (nth_error_In _ _ Hk).
    + rewrite (IH k x Hl Hk). reflexivity.
Qed.

Lemma mapM_list_index (cons : list string) : forall r,
  (forall a, In a r -> In a cons) ->
  exists iaxes,
    mapM (fun axis => list_index axis cons) r = Return iaxes /\
    List.length iaxes = List.length r /\
    (forall j a, nth_error r j = Some a ->
       exists k, nth_error iaxes j = Some k /\ nth_error cons k = Some a).
Proof.
  induction r as [|x r IH]; intros H.
  - exists []. split; [reflexivity|]. split; [reflexivity|].
    intros j a Hj. destruct j; discriminate.
  - destruct (list_index_In x cons) as (i & Hi & Hn);
      [apply H; left; reflexivity|].
    destruct IH as (iaxes & Hm & Hl & Hnth);
      [intros; apply H; right; assumption|].
    exists (i :: iaxes). cbn [mapM]. rewrite Hi. cbn [bind]. rewrite Hm.
    split; [reflexivity|]. split; [simpl; rewrite Hl; reflexivity|].
    intros j a Hj. destruct j as [|j]; cbn in Hj.
    + injection Hj as <-. exists i. split; [reflexivity | exact Hn].
    + apply Hnth. exact Hj.
Qed.

(** X17. The new axis order that [Field.transpose] computes for a
    metadata construct is a rearrangement of the axes of the construct:
    when neither the data axes nor the construct axes repeat a key, the
    new order holds every axis of the construct exactly once and no
    other, the axes that the data spans come in the order they have in
    the data, and the positions looked up in the old order are a
    permutation of range(ndim), so that the look-up never fails. *)
Theorem reorder_construct_axes_permutes (new_data_axes construct_axes : list string) :
  NoDup new_data_axes -> NoDup construct_axes ->
  (forall a, In a (reorder_construct_axes new_data_axes construct_axes)
             <-> In a construct_axes) /\
  NoDup (reorder_construct_axes new_data_axes construct_axes) /\
  List.length (reorder_construct_axes new_data_axes construct_axes)
  = List.length construct_axes /\
  filter (fun a => mem_string a new_data_axes)
    (reorder_construct_axes new_data_axes construct_axes)
  = filter (fun a => mem_string a construct_axes) new_data_axes /\
  exists iaxes,
    mapM (fun axis => list_index axis construct_axes)
      (reorder_construct_axes new_data_axes construct_axes) = Return iaxes /\
    is_permutation (List.length construct_axes) iaxes = true /\
    (forall j k, nth_error iaxes j = Some k ->
       nth_error (reorder_construct_axes new_data_axes construct_axes) j
       = nth_error construct_axes k).
Proof.
  intros Hnew Hcons.
  set (r := reorder_construct_axes new_data_axes construct_axes).
  assert (forall a, In a r <-> In a construct_axes) as Hin
    by (intros; apply reorder_construct_axes_In).
  assert (NoDup r) as Hnd by (apply reorder_construct_axes_NoDup; exact Hnew).
  assert (List.length r = List.length construct_axes) as Hlen.
  { apply Nat.le_antisymm; apply NoDup_incl_length; try assumption;
      intros a Ha; apply Hin; exact Ha. }
  split; [exact Hin|]. split; [exact Hnd|]. split; [exact Hlen|].
  split; [apply reorder_construct_axes_order|].
  destruct (mapM_list_index construct_axes r) as (iaxes & Hm & Hl & Hnth);
    [intros a Ha; apply Hin; exact Ha|].
  exists iaxes. split; [exact Hm|]. split.
  - unfold is_permutation. rewrite Hl, Hlen, Nat.eqb_refl. cbn [andb].
    apply forallb_forall. intros k Hk. apply in_seq in Hk.
    apply existsb_exists.
    destruct (nth_error construct_axes k) as [a|] eqn:Ea;
      [|apply nth_error_None in Ea; lia].
    assert (In a r) as Har by (apply Hin; apply (nth_error_In _ _ Ea)).
    apply In_nth_error in Har. destruct Har as (j & Hj).
    destruct (Hnth j a Hj) as (k' & Hk' & Ek').
    exists k'. split; [apply (nth_error_In _ _ Hk')|].
    apply Nat.eqb_eq.
    pose proof (@list_index_nth construct_axes k a Hcons Ea) as E1.
    pose proof (@list_index_nth construct_axes k' a Hcons Ek') as E2.
    congruence.
  - intros j k Hj.
    destruct (nth_error r j) as [a|] eqn:Ea.
    + destruct (Hnth j a Ea) as (k' & Hk' & Ek'). congruence.
    + apply nth_error_None in Ea.
      assert (nth_error iaxes j <> None) as Hn by congruence.
      apply nth_error_Some in Hn. lia.
Qed.

Lemma reorder_construct_axes_permutes_witness :
  (forall a, In a (reorder_construct_axes ["y"; "x"]%string ["x"; "z"; "y"]%string)
             <-> In a ["x"; "z"; "y"]%string) /\
  NoDup (reorder_construct_axes ["y"; "x"]%string ["x"; "z"; "y"]%string) /\
  List.length (reorder_construct_axes ["y"; "x"]%string ["x"; "z"; "y"]%string)
  = List.length ["x"; "z"; "y"]%string /\
  filter (fun a => mem_string a ["y"; "x"]%string)
    (reorder_construct_axes ["y"; "x"]%string ["x"; "z"; "y"]%string)
  = filter (fun a => mem_string a ["x"; "z"; "y"]%string) ["y"; "x"]%string /\
  exists iaxes,
    mapM (fun axis => list_index axis ["x"; "z"; "y"]%string)
      (reorder_construct_axes ["y"; "x"]%string ["x"; "z"; "y"]%string) = Return iaxes /\
    is_permutation (List.length ["x"; "z"; "y"]%string) iaxes = true /\
    (forall j k, nth_error iaxes j = Some k ->
       nth_error (reorder_construct_axes ["y"; "x"]%string ["x"; "z"; "y"]%string) j
       = nth_error ["x"; "z"; "y"]%string k).
Proof.
  apply (@reorder_construct_axes_permutes ["y"; "x"]%string
           ["x"; "z"; "y"]%string).
  - repeat constructor; simpl; intuition discriminate.
  - repeat constructor; simpl; intuition discriminate.
Defined.

(** ** The data axes under transposition *)

Lemma mapM_getitem_nth (A : Type) (l : list A) : forall iaxes r,
  mapM (getitem l) iaxes = Return r ->
  forall j a, nth_error iaxes j = Some a -> nth_error r j = nth_error l a.
Proof.
  induction iaxes as [|i iaxes IH]; intros r Hm j a Hj;
    [destruct j; discriminate|].
  cbn [mapM] in Hm. unfold getitem at 1 in Hm.
  destruct (nth_error l i) as [x|] eqn:Ex; cbn [bind] in Hm; [|discriminate].
  destruct (mapM (getitem l) iaxes) as [r'|e]; cbn [bind] in Hm;
    [|discriminate].
  apply Return_inj in Hm. subst r.
  destruct j as [|j]; cbn in Hj |- *.
  - injection Hj as <-. symmetry. exact Ex.
  - apply (IH r' eq_refl j a Hj).
Qed.

Lemma data_transpose_shape (V : Type) (iaxes : list nat) (d d' : Data V) :
  data_transpose iaxes d = Return d' ->
  forall j a, nth_error iaxes j = Some a ->
    nth j (data_shape d') 0 = nth a (data_shape d) 0.
Proof.
  unfold data_transpose. intros H j a Hj.
  destruct (negb (is_permutation (data_ndim d) iaxes)); [discriminate|].
  destruct (list_eq_dec Nat.eq_dec iaxes (seq 0 (data_ndim d))) as [E|_].
  - apply Return_inj in H. subst d'. rewrite E in Hj.
    assert (j < data_ndim d) as Hlt.
    { assert (nth_error (seq 0 (data_ndim d)) j <> None) as Hn by congruence.
      apply nth_error_Some in Hn. rewrite length_seq in Hn. exact Hn. }
    rewrite nth_error_seq_lt in Hj by exact Hlt.
    injection Hj as <-. reflexivity.
  - destruct (data_array d) as [values|e]; cbn [bind] in H; [|discriminate].
    apply Return_inj in H. subst d'. cbn [data_shape].
    apply nth_error_nth. rewrite nth_error_map, Hj. reflexivity.
Qed.

Lemma transpose_construct_keeps_axes (V : Type) (axes : list string) (i : nat)
  (f : Field V) :
  f_data_axes (fst (transpose_construct axes i f)) = f_data_axes f /\
  f_domain_axes (fst (transpose_construct axes i f)) = f_domain_axes f.
Proof.
  unfold transpose_construct. monad_unfold.
  destruct (getitem (f_constructs f) i) as [kc|e]; [|split; reflexivity].
  destruct (c_data (snd kc)) as [data|]; [|split; reflexivity].
  destruct (data_ndim data <? 2); [split; reflexivity|].
  destruct (mapM _ _) as [iaxes|e]; [|split; reflexivity].
  destruct (data_transpose iaxes data) as [data'|e]; [|split; reflexivity].
  destruct (setitem _ _ _) as [cs|e]; split; reflexivity.
Qed.

Lemma for_each_transpose_construct_keeps (V : Type) (axes : list string)
  (l : list nat) : forall f : Field V,
  f_data (fst (for_each l (transpose_construct axes) f)) = f_data f /\
  f_data_axes (fst (for_each l (transpose_construct axes) f)) = f_data_axes f /\
  f_domain_axes (fst (for_each l (transpose_construct axes) f))
  = f_domain_axes f.
Proof.
  induction l as [|i l IH]; intros f; [repeat split|].
  cbn [for_each]. unfold mbind.
  pose proof (keeps_data_transpose_construct axes i f) as Hd.
  pose proof (transpose_construct_keeps_axes axes i f) as [Ha Hdom].
  destruct (transpose_construct axes i f) as [f1 [[]|e]]; cbn [fst] in *.
  - destruct (IH f1) as (H1 & H2 & H3).
    rewrite H1, H2, H3. auto.
  - auto.
Qed.

(** X18. [Field.transpose] keeps the data axes with their dimensions:
    when it returns, the key at position j of the new data axes is the
    key that was at position axes[j], and dimension j of the new data
    has the size of the old dimension axes[j] (the order is reversed
    when no axes are given); the domain axis constructs are not
    changed, whether or not the metadata constructs are transposed. *)
Theorem transpose_relabels_axes (V : Type) (f f' : Field V) (d : Data V)
  (axes : option (list nat)) (constructs : bool) :
  f_data f = Some d ->
  transpose axes constructs f = (f', Return tt) ->
  exists d',
    f_data f' = Some d' /\
    f_domain_axes f' = f_domain_axes f /\
    forall j a,
      nth_error (match axes with
                 | Some a => a
                 | None => rev (seq 0 (data_ndim d))
                 end) j = Some a ->
      nth_error (f_data_axes f') j = nth_error (f_data_axes f) a /\
      nth j (data_shape d') 0 = nth a (data_shape d) 0.
Proof.
  intros Hd Ht. unfold transpose, field_data, mbind, lift, get, put in Ht.
  cbn beta iota in Ht. rewrite Hd in Ht. cbn beta iota in Ht.
  set (iaxes := match axes with
                | Some a => a
                | None => rev (seq 0 (data_ndim d))
                end) in *.
  destruct (data_transpose iaxes d) as [d1|e] eqn:Edt; [|discriminate].
  destruct (mapM (getitem (f_data_axes f)) iaxes) as [new_axes|e] eqn:Em;
    [|discriminate].
  exists d1.
  assert (f_data f' = Some d1 /\ f_data_axes f' = new_axes
          /\ f_domain_axes f' = f_domain_axes f) as (H1 & H2 & H3).
  { destruct constructs.
    - pose proof (for_each_transpose_construct_keeps new_axes
                    (seq 0 (List.length (f_constructs f)))
                    (set_data_axes (set_data f d1) new_axes)) as (K1 & K2 & K3).
      destruct (for_each _ _ _) as [f2 r]. cbn [fst] in *.
      assert (f2 = f') as <- by congruence. auto.
    - unfold mret in Ht. assert (set_data_axes (set_data f d1) new_axes = f')
        as <- by congruence. auto. }
  split; [exact H1|]. split; [exact H3|].
  intros j a Hj. split.
  - rewrite H2. eapply mapM_getitem_nth; eassumption.
  - eapply data_transpose_shape; eassumption.
Qed.

Lemma transpose_relabels_axes_witness :
  exists d',
    f_data (fst (transpose None true field_with_transposed_construct))
    = Some d' /\
    f_domain_axes (fst (transpose None true field_with_transposed_construct))
    = f_domain_axes field_with_transposed_construct /\
    forall j a,
      nth_error (rev (seq 0 2)) j = Some a ->
      nth_error
        (f_data_axes (fst (transpose None true field_with_transposed_construct)))
        j
      = nth_error (f_data_axes field_with_transposed_construct) a /\
      nth j (data_shape d') 0 = nth a [2; 3] 0.
Proof.
  apply (@transpose_relabels_axes nat field_with_transposed_construct _
           {| data_shape := [2; 3];
              data_source := NumpyArray (map Some (seq 0 6)) |}
           None true); reflexivity.
Defined.

(** ** The domain axes under subspacing *)

Lemma get_size_set_size (key key' : string) (size : nat)
  (axes : list (string * nat)) :
  get_size key (set_size key' size axes)
  = if String.eqb key' key
    then match get_size key axes with Some _ => Some size | None => None end
    else get_size key axes.
Proof.
  induction axes as [|[k n] t IH]; cbn [set_size get_size].
  - destruct (String.eqb key' key); reflexivity.
  - destruct (String.eqb_spec k key') as [->|Hk]; cbn [get_size].
    + destruct (String.eqb_spec key' key) as [->|Hne]; reflexivity.
    + rewrite IH. destruct (String.eqb_spec k key) as [->|Hk2].
      * destruct (String.eqb_spec key' key); [congruence | reflexivity].
      * reflexivity.
Qed.

Lemma set_size_keys (key : string) (size : nat) (axes : list (string * nat)) :
  map fst (set_size key size axes) = map fst axes.
Proof.
  induction axes as [|[k n] t IH]; cbn [set_size map]; [reflexivity|].
  destruct (String.eqb k key); cbn [map fst]; [reflexivity|].
  rewrite IH. reflexivity.
Qed.

Lemma resize_axes (keys : list string) : forall (sizes : list nat)
  (axes : list (string * nat)),
  NoDup keys ->
  let axes' := fold_left (fun axes p => set_size (fst p) (snd p) axes)
                 (combine keys sizes) axes in
  map fst axes' = map fst axes /\
  (forall key, ~ In key keys -> get_size key axes' = get_size key axes) /\
  (forall j key n, nth_error keys j = Some key ->
     nth_error sizes j = Some n ->
     get_size key axes <> None -> get_size key axes' = Some n).
Proof.
  induction keys as [|k keys IH]; intros sizes axes Hnd.
  - cbn. split; [reflexivity|]. split; [reflexivity|].
    intros j key n Hj. destruct j; discriminate.
  - inversion Hnd as [|? ? Hk Hnd']; subst.
    destruct sizes as [|s sizes].
    + cbn. split; [reflexivity|]. split; [reflexivity|].
      intros j key n _ Hj. destruct j; discriminate.
    + cbn [combine fold_left fst snd].
      destruct (IH sizes (set_size k s axes) Hnd') as (H1 & H2 & H3).
      split; [rewrite H1; apply set_size_keys|]. split.
      * intros key Hkey. rewrite H2 by (intros H; apply Hkey; right; exact H).
        rewrite get_size_set_size.
        destruct (String.eqb_spec k key) as [->|Hne]; [|reflexivity].
        exfalso. apply Hkey. left. reflexivity.
      * intros j key n Hj Hn Hsome. destruct j as [|j]; cbn in Hj, Hn.
        -- injection Hj as ->. injection Hn as ->.
           rewrite H2 by exact Hk. rewrite get_size_set_size.
           rewrite String.eqb_refl.
           destruct (get_size key axes); [reflexivity | congruence].
        -- apply (H3 j key n Hj Hn). rewrite get_size_set_size.
           destruct (String.eqb_spec k key) as [->|Hne]; [|exact Hsome].
           exfalso. apply Hk. apply (nth_error_In _ _ Hj).
Qed.

(** X19. Subspacing keeps the domain axes in step with the data: in the
    field construct that [Field.__getitem__] returns, the data axes are
    those of the original, every domain axis spanned by the data has
    the size of the corresponding dimension of the new data, the other
    domain axes keep their sizes, and no domain axis is added or
    removed. *)
Theorem getitem_resizes_domain_axes (V : Type) (f g : Field V)
  (indices : list index) :
  field_getitem f indices = Return g ->
  NoDup (f_data_axes f) ->
  (forall key, In key (f_data_axes f) ->
               get_size key (f_domain_axes f) <> None) ->
  exists d',
    f_data g = Some d' /\
    f_data_axes g = f_data_axes f /\
    map fst (f_domain_axes g) = map fst (f_domain_axes f) /\
    (forall key, ~ In key (f_data_axes f) ->
       get_size key (f_domain_axes g) = get_size key (f_domain_axes f)) /\
    (forall j key n, nth_error (f_data_axes f) j = Some key ->
       nth_error (data_shape d') j = Some n ->
       get_size key (f_domain_axes g) = Some n).
Proof.
  intros Hg Hnd Hdom. unfold field_getitem in Hg.
  destruct (field_data f) as [data|e]; cbn [bind] in Hg; [|discriminate].
  destruct (parse_indices (data_shape data) indices) as [parsed|e];
    cbn [bind] in Hg; [|discriminate].
  destruct (data_getitem data parsed) as [new_data|e]; cbn [bind] in Hg;
    [|discriminate].
  destruct (if match f_data_axes f with [] => false | _ :: _ => true end
            then mapM (subspace_construct (f_data_axes f) parsed)
                   (f_constructs f)
            else Return (f_constructs f)) as [cs|e]; cbn [bind] in Hg;
    [|discriminate].
  apply Return_inj in Hg. subst g. cbn [f_data f_data_axes f_domain_axes].
  exists new_data. split; [reflexivity|]. split; [reflexivity|].
  destruct (resize_axes (data_shape new_data) (f_domain_axes f) Hnd)
    as (H1 & H2 & H3).
  split; [exact H1|]. split; [exact H2|].
  intros j key n Hj Hn. apply (H3 j key n Hj Hn).
  apply Hdom. apply (nth_error_In _ _ Hj).
Qed.

Lemma getitem_resizes_domain_axes_witness :
  exists g,
    field_getitem docstring_field [full_slice; Int 0] = Return g /\
    exists d',
      f_data g = Some d' /\
      f_data_axes g = f_data_axes docstring_field /\
      map fst (f_domain_axes g) = map fst (f_domain_axes docstring_field) /\
      (forall key, ~ In key (f_data_axes docstring_field) ->
         get_size key (f_domain_axes g)
         = get_size key (f_domain_axes docstring_field)) /\
      (forall j key n, nth_error (f_data_axes docstring_field) j = Some key ->
         nth_error (data_shape d') j = Some n ->
         get_size key (f_domain_axes g) = Some n).
Proof.
  eexists. split; [vm_compute; reflexivity|].
  apply (@getitem_resizes_domain_axes nat docstring_field _
           [full_slice; Int 0]).
  - vm_compute. reflexivity.
  - repeat constructor; simpl; intuition discriminate.
  - intros key [<-|[<-|[<-|[]]]]; simpl; discriminate.
Defined.

(** ** The rank and the elements of a subspace *)

Lemma ravel_lt (shape : list nat) : forall j,
  Forall2 lt j shape -> ravel shape j < prod_list shape.
Proof.
  induction shape as [|n rest IH]; intros j H.
  - inversion H. simpl. lia.
  - inversion H as [|i ? j' ? Hi Hj]; subst. cbn [ravel prod_list fold_right].
    specialize (IH j' Hj). unfold prod_list in *. cbn [fold_right].
    set (P := fold_right Nat.mul 1 rest) in *.
    set (r := ravel rest j') in *.
    pose proof (Nat.mul_le_mono_r (S i) n P ltac:(lia)) as Hmul.
    cbn [Nat.mul] in Hmul. lia.
Qed.

Lemma nth_error_product (ps : list (list nat)) : forall j,
  Forall2 lt j (map (@List.length nat) ps) ->
  nth_error (product ps) (ravel (map (@List.length nat) ps) j)
  = Some (select ps j).
Proof.
  induction ps as [|p rest IH]; intros j H.
  - inversion H. reflexivity.
  - cbn [map] in H. inversion H as [|i ? j' ? Hi Hj]; subst.
    cbn [map ravel product].
    destruct (nth_error p i) as [a|] eqn:Ha;
      [|apply nth_error_None in Ha; lia].
    rewrite (@nth_error_flat_map_block _ _
               (fun x => map (cons x) (product rest))
               (prod_list (map (@List.length nat) rest)) p i
               (ravel (map (@List.length nat) rest) j') a).
    + rewrite nth_error_map, (IH j' Hj). cbn [option_map].
      unfold select. cbn [combine map fst snd].
      rewrite (nth_error_nth _ _ _ Ha). reflexivity.
    + intros x _. rewrite length_map, product_length. reflexivity.
    + exact Ha.
    + apply ravel_lt. exact Hj.
Qed.

Lemma forallb_combine_nth (A B : Type) (P : A * B -> bool) :
  forall (l1 : list A) (l2 : list B) k a b,
  forallb P (combine l1 l2) = true ->
  nth_error l1 k = Some a -> nth_error l2 k = Some b -> P (a, b) = true.
Proof.
  induction l1 as [|x l1 IH]; intros l2 k a b H Ha Hb.
  - destruct k; discriminate.
  - destruct l2 as [|y l2]; [destruct k; discriminate|].
    cbn in H. apply andb_prop in H. destruct H as [H1 H2].
    destruct k as [|k]; cbn in Ha, Hb.
    + injection Ha as <-. injection Hb as <-. exact H1.
    + eapply IH; eassumption.
Qed.

Lemma Forall2_nth_error_l (A B : Type) (P : A -> B -> Prop) :
  forall (l1 : list A) (l2 : list B) k a,
  Forall2 P l1 l2 -> nth_error l1 k = Some a ->
  exists b, nth_error l2 k = Some b /\ P a b.
Proof.
  intros l1 l2 k a H. revert k.
  induction H as [|x y l1 l2 Hxy H IH]; intros k Hk.
  - destruct k; discriminate.
  - destruct k as [|k]; cbn in Hk.
    + injection Hk as <-. exists y. split; [reflexivity | exact Hxy].
    + apply IH. exact Hk.
Qed.

Lemma valid_not_ellipsis (shape : list nat) : forall l : list index,
  List.length l = List.length shape ->
  forallb (fun p => valid_index (fst p) (snd p)) (combine shape l) = true ->
  filter is_ellipsis l = [] /\
  filter (fun i => negb (is_ellipsis i)) l = l.
Proof.
  induction shape as [|n shape IH]; intros l Hlen H.
  - destruct l; [|discriminate]. split; reflexivity.
  - destruct l as [|idx l]; [discriminate|].
    cbn in H. apply andb_prop in H. destruct H as [H1 H2].
    destruct (IH l ltac:(simpl in Hlen; lia) H2) as [E1 E2].
    destruct idx; try discriminate; cbn; rewrite ?E1, ?E2; split; reflexivity.
Qed.

Lemma valid_indices_of_valid (shape : list nat) (l : list index) :
  List.length l = List.length shape ->
  forallb (fun p => valid_index (fst p) (snd p)) (combine shape l) = true ->
  valid_indices shape l = true.
Proof.
  intros Hlen H. destruct (valid_not_ellipsis shape l Hlen H) as [E1 E2].
  unfold valid_indices, expand_indices. rewrite E1, E2. cbn [List.length].
  change (1 <? 0) with false. cbv iota.
  rewrite Hlen, Nat.ltb_irrefl, Nat.sub_diag. cbn [repeat Nat.eqb].
  rewrite app_nil_r. exact H.
Qed.

Lemma data_getitem_valid (V : Type) (d : Data V) (values : list (option V))
  (indices : list index) :
  data_array d = Return values ->
  valid_indices (data_shape d) indices = true ->
  exists expanded parsed positions,
    expand_indices (List.length (data_shape d)) indices = Return expanded /\
    parse_indices (data_shape d) indices = Return parsed /\
    data_getitem d parsed
    = Return {| data_shape := map (@List.length nat) positions;
                data_source :=
                  NumpyArray
                    (map (fun idx =>
                            nth (ravel (data_shape d) idx) values None)
                       (product positions)) |} /\
    List.length positions = List.length (data_shape d) /\
    List.length parsed = List.length (data_shape d) /\
    forallb (fun p => valid_index (fst p) (snd p))
      (combine (data_shape d) parsed) = true /\
    (forall k i size, nth_error expanded k = Some (Int i) ->
       nth_error (data_shape d) k = Some size ->
       nth_error positions k
       = Some [Z.to_nat (if (i <? 0)%Z then (i + Z.of_nat size)%Z else i)]).
Proof.
  intros Hvals Hvalid. unfold valid_indices in Hvalid.
  destruct (expand_indices (List.length (data_shape d)) indices)
    as [expanded|e] eqn:Hex; [|discriminate].
  pose proof (expand_indices_length _ _ Hex) as Hlen.
  destruct (parse_positions_valid (data_shape d) expanded Hlen Hvalid)
    as (parsed & positions & Hparse & Hpos & Hplen & Hpalen & Hpv & Hint).
  exists expanded, parsed, positions.
  split; [reflexivity|].
  split; [unfold parse_indices; rewrite Hex; simpl; exact Hparse|].
  split; [unfold data_getitem; rewrite Hvals; simpl; rewrite Hpos;
          reflexivity|].
  repeat split; assumption.
Qed.

Lemma dice_valid (domain_axes : list (string * nat))
  (data_axes : list string) (shape : list nat) (parsed : list index) :
  Forall2 (fun key n => get_size key domain_axes = Some n) data_axes shape ->
  List.length parsed = List.length shape ->
  forallb (fun p => valid_index (fst p) (snd p)) (combine shape parsed)
  = true ->
  forall (construct_axes : list string) (construct_shape : list nat),
  Forall2 (fun key n => get_size key domain_axes = Some n)
    construct_axes construct_shape ->
  exists dice,
    mapM (fun axis =>
            if mem_string axis data_axes
            then i <- list_index axis data_axes ;;
                 idx <- getitem parsed i ;;
                 Return (true, idx)
            else Return (false, full_slice))
      construct_axes = Return dice /\
    List.length (map snd dice) = List.length construct_shape /\
    forallb (fun p => valid_index (fst p) (snd p))
      (combine construct_shape (map snd dice)) = true.
Proof.
  intros Hfit Hlen Hvalid construct_axes construct_shape Hc.
  induction Hc as [|axis n axes' shape' Hn Hc IH].
  - exists []. repeat split.
  - destruct IH as (dice & Hd & Hl & Hv). cbn [mapM].
    destruct (mem_string axis data_axes) eqn:Hmem.
    + apply mem_string_In in Hmem.
      destruct (list_index_In axis data_axes Hmem) as (i & Hi & Hnth).
      destruct (@Forall2_nth_error_l _ _ _ _ _ i _ Hfit Hnth) as (m & Hm & Hsize).
      assert (m = n) as -> by congruence.
      destruct (nth_error parsed i) as [idx|] eqn:Hidx.
      2:{ apply nth_error_None in Hidx.
          assert (nth_error shape i <> None) as Hs by congruence.
          apply nth_error_Some in Hs. lia. }
      assert (getitem parsed i = Return idx) as Hg
        by (unfold getitem; rewrite Hidx; reflexivity).
      rewrite Hi. cbn [bind]. rewrite Hg. cbn [bind].
      rewrite Hd. cbn [bind].
      exists ((true, idx) :: dice). split; [reflexivity|].
      cbn [map snd List.length combine forallb fst].
      split; [lia|]. rewrite Hv, andb_true_r.
      exact (@forallb_combine_nth _ _
               (fun p => valid_index (fst p) (snd p)) _ _ _ _ _
               Hvalid Hm Hidx).
    + cbn [bind]. rewrite Hd. cbn [bind].
      exists ((false, full_slice) :: dice). split; [reflexivity|].
      cbn [map snd List.length combine forallb fst].
      split; [lia|]. rewrite Hv. reflexivity.
Qed.

Lemma dice_returns (domain_axes : list (string * nat))
  (data_axes : list string) (shape : list nat) (parsed : list index) :
  Forall2 (fun key n => get_size key domain_axes = Some n) data_axes shape ->
  List.length parsed = List.length shape ->
  forall construct_axes : list string,
  exists dice,
    mapM (fun axis =>
            if mem_string axis data_axes
            then i <- list_index axis data_axes ;;
                 idx <- getitem parsed i ;;
                 Return (true, idx)
            else Return (false, full_slice))
      construct_axes = Return dice.
Proof.
  intros Hfit Hlen construct_axes.
  induction construct_axes as [|axis axes' IH]; [exists []; reflexivity|].
  destruct IH as (dice & Hd). cbn [mapM].
  destruct (mem_string axis data_axes) eqn:Hmem.
  - apply mem_string_In in Hmem.
    destruct (list_index_In axis data_axes Hmem) as (i & Hi & Hnth).
    destruct (@Forall2_nth_error_l _ _ _ _ _ i _ Hfit Hnth) as (m & Hm & _).
    destruct (nth_error parsed i) as [idx|] eqn:Hidx.
    2:{ apply nth_error_None in Hidx.
        assert (nth_error shape i <> None) as Hs by congruence.
        apply nth_error_Some in Hs. lia. }
    assert (getitem parsed i = Return idx) as Hg
      by (unfold getitem; rewrite Hidx; reflexivity).
    rewrite Hi. cbn [bind]. rewrite Hg. cbn [bind]. rewrite Hd. cbn [bind].
    eexists; reflexivity.
  - cbn [bind]. rewrite Hd. cbn [bind]. eexists; reflexivity.
Qed.

Lemma subspace_construct_returns (V : Type)
  (domain_axes : list (string * nat)) (data_axes : list string)
  (shape : list nat) (parsed : list index) (kc : string * Construct V) :
  Forall2 (fun key n => get_size key domain_axes = Some n) data_axes shape ->
  List.length parsed = List.length shape ->
  forallb (fun p => valid_index (fst p) (snd p)) (combine shape parsed)
  = true ->
  match c_data (snd kc) with
  | Some data =>
      (exists values, data_array data = Return values) /\
      Forall2 (fun key n => get_size key domain_axes = Some n)
        (c_axes (snd kc)) (data_shape data)
  | None => True
  end ->
  exists kc', subspace_construct data_axes parsed kc = Return kc'.
Proof.
  intros Hfit Hlen Hvalid Hc. unfold subspace_construct.
  destruct (existsb (fun axis => mem_string axis data_axes) (c_axes (snd kc)));
    [|eexists; reflexivity].
  destruct (c_data (snd kc)) as [data|] eqn:Hdata.
  - destruct Hc as [[values Hvalues] Hcfit].
    destruct (@dice_valid _ _ _ _ Hfit Hlen Hvalid _ _ Hcfit)
      as (dice & Hd & Hl & Hv).
    unfold dice_of. rewrite Hd. cbn [bind fst snd].
    destruct (existsb fst dice); [|eexists; reflexivity].
    pose proof (@valid_indices_of_valid _ _ Hl Hv) as Hvi.
    destruct (@data_getitem_valid _ data _ (map snd dice) Hvalues Hvi)
      as (ex & pa & po & _ & Hp & Hg & _).
    rewrite Hp. cbn [bind]. rewrite Hg. cbn [bind].
    eexists; reflexivity.
  - destruct (@dice_returns _ _ _ _ Hfit Hlen (c_axes (snd kc))) as (dice & Hd).
    unfold dice_of. rewrite Hd. cbn [bind fst].
    destruct (existsb fst dice); eexists; reflexivity.
Qed.

Lemma subspace_constructs_return (V : Type)
  (domain_axes : list (string * nat)) (data_axes : list string)
  (shape : list nat) (parsed : list index)
  (constructs : list (string * Construct V)) :
  Forall2 (fun key n => get_size key domain_axes = Some n) data_axes shape ->
  List.length parsed = List.length shape ->
  forallb (fun p => valid_index (fst p) (snd p)) (combine shape parsed)
  = true ->
  Forall (fun kc : string * Construct V =>
            match c_data (snd kc) with
            | Some data =>
                (exists values, data_array data = Return values) /\
                Forall2 (fun key n => get_size key domain_axes = Some n)
                  (c_axes (snd kc)) (data_shape data)
            | None => True
            end) constructs ->
  exists cs, mapM (subspace_construct data_axes parsed) constructs
             = Return cs.
Proof.
  intros Hfit Hlen Hvalid Hall.
  induction Hall as [|kc constructs Hkc _ IH]; [exists []; reflexivity|].
  destruct IH as (cs & Hcs).
  destruct (@subspace_construct_returns _ _ _ _ _ kc Hfit Hlen Hvalid Hkc)
    as (kc' & Hk).
  cbn [mapM]. rewrite Hk. cbn [bind]. rewrite Hcs. cbn [bind].
  eexists; reflexivity.
Qed.

(** C10. Subspacing keeps the rank.  For a field construct whose data
    can be read, whose data axes are distinct, and whose data and
    metadata constructs fit the domain axis constructs, and for an index
    expression that fits the shape of the data, [Field.__getitem__]
    returns a field construct.  Its data spans the same axes and has as
    many dimensions as the data of the field; its element at a
    multi-index [j] is the element of the data of the field at the
    multi-index [select positions j], where [positions] lists the
    positions selected along each dimension.  For an integer index [i]
    along the dimension [k], the one position selected is [i], counted
    from the end when [i] is negative; the dimension has the size 1 in
    the result, and so has its domain axis construct in the field
    construct returned. *)
Theorem getitem_preserves_rank (V : Type) (f : Field V) (d : Data V)
  (values : list (option V)) (indices : list index) :
  f_data f = Some d ->
  data_array d = Return values ->
  NoDup (f_data_axes f) ->
  axes_fit f ->
  constructs_fit f ->
  valid_indices (data_shape d) indices = true ->
  exists expanded positions g d' values',
    expand_indices (List.length (data_shape d)) indices = Return expanded /\
    field_getitem f indices = Return g /\
    f_data g = Some d' /\
    f_data_axes g = f_data_axes f /\
    List.length (data_shape d') = List.length (data_shape d) /\
    data_shape d' = map (@List.length nat) positions /\
    data_array d' = Return values' /\
    (forall j, Forall2 lt j (data_shape d') ->
       nth_error values' (ravel (data_shape d') j)
       = Some (nth (ravel (data_shape d) (select positions j)) values None)) /\
    (forall k i size key,
       nth_error expanded k = Some (Int i) ->
       nth_error (data_shape d) k = Some size ->
       nth_error (f_data_axes f) k = Some key ->
       nth_error positions k
       = Some [Z.to_nat (if (i <? 0)%Z then (i + Z.of_nat size)%Z else i)] /\
       nth_error (data_shape d') k = Some 1 /\
       get_size key (f_domain_axes g) = Some 1).
Proof.
  intros Hd Hvals Hnd Hfit Hcfit Hvalid.
  unfold axes_fit in Hfit. rewrite Hd in Hfit. unfold constructs_fit in Hcfit.
  destruct (@data_getitem_valid _ d values indices Hvals Hvalid)
    as (expanded & parsed & positions & Hex & Hpi & Hget & Hplen & Hpalen
        & Hpv & Hint).
  destruct (@subspace_constructs_return _ _ _ _ _ _ Hfit Hpalen Hpv Hcfit)
    as (cs & Hcs).
  set (d' := {| data_shape := map (@List.length nat) positions;
                data_source :=
                  NumpyArray
                    (map (fun idx =>
                            nth (ravel (data_shape d) idx) values None)
                       (product positions)) |}) in *.
  assert (exists cs',
            field_getitem f indices
            = Return {| f_data := Some d';
                        f_data_axes := f_data_axes f;
                        f_domain_axes :=
                          fold_left
                            (fun axes p => set_size (fst p) (snd p) axes)
                            (combine (f_data_axes f) (data_shape d'))
                            (f_domain_axes f);
                        f_constructs := cs' |}) as [cs' Hg].
  { unfold field_getitem, field_data. rewrite Hd. cbn [bind].
    rewrite Hpi. cbn [bind]. rewrite Hget. cbn [bind].
    destruct (f_data_axes f) as [|key keys] eqn:Hkeys.
    - cbn [bind]. eexists; reflexivity.
    - rewrite Hcs. cbn [bind]. eexists; reflexivity. }
  eexists expanded, positions, _, d', _.
  split; [exact Hex|]. split; [exact Hg|].
  cbn [f_data f_data_axes f_domain_axes].
  split; [reflexivity|]. split; [reflexivity|].
  split; [unfold d'; cbn [data_shape]; rewrite length_map; exact Hplen|].
  split; [reflexivity|].
  split; [reflexivity|].
  split.
  { intros j Hj. unfold d' in *. cbn [data_shape] in *.
    rewrite nth_error_map, (nth_error_product positions Hj). reflexivity. }
  intros k i size key Hk Hsize Hkey.
  pose proof (Hint k i size Hk Hsize) as Hpos.
  assert (nth_error (data_shape d') k = Some 1) as Hone.
  { unfold d'. cbn [data_shape]. rewrite nth_error_map, Hpos. reflexivity. }
  split; [exact Hpos|]. split; [exact Hone|].
  destruct (resize_axes (data_shape d') (f_domain_axes f) Hnd)
    as (_ & _ & H3).
  apply (H3 k key 1 Hkey Hone).
  destruct (@Forall2_nth_error_l _ _ _ _ _ k _ Hfit Hkey) as (n & _ & Hn).
  congruence.
Qed.

Lemma getitem_preserves_rank_witness :
  exists expanded positions g d' values',
    expand_indices 3 [full_slice; Int (-3)] = Return expanded /\
    field_getitem docstring_field_with_coordinates [full_slice; Int (-3)]
    = Return g /\
    f_data g = Some d' /\
    f_data_axes g = f_data_axes docstring_field_with_coordinates /\
    List.length (data_shape d') = 3 /\
    data_shape d' = map (@List.length nat) positions /\
    data_array d' = Return values' /\
    (forall j, Forall2 lt j (data_shape d') ->
       nth_error values' (ravel (data_shape d') j)
       = Some (nth (ravel [1; 10; 9] (select positions j))
                 (map Some (seq 0 90)) None)) /\
    (forall k i size key,
       nth_error expanded k = Some (Int i) ->
       nth_error [1; 10; 9] k = Some size ->
       nth_error (f_data_axes docstring_field_with_coordinates) k
       = Some key ->
       nth_error positions k
       = Some [Z.to_nat (if (i <? 0)%Z then (i + Z.of_nat size)%Z else i)] /\
       nth_error (data_shape d') k = Some 1 /\
       get_size key (f_domain_axes g) = Some 1).
Proof.
  apply (@getitem_preserves_rank nat docstring_field_with_coordinates
           docstring_data (map Some (seq 0 90)) [full_slice; Int (-3)]).
  - reflexivity.
  - reflexivity.
  - repeat constructor; simpl; intuition discriminate.
  - unfold axes_fit. simpl. repeat constructor.
  - unfold constructs_fit. simpl.
    repeat constructor; eexists; reflexivity.
  - reflexivity.
Defined.

(** ** Inserting and removing dimensions of size 1 *)

Lemma insert_dimension_body_rejects (V : Type) (f : Field V) (d : Data V)
  (axis : string) (position : nat) :
  f_data f = Some d ->
  get_size axis (f_domain_axes f) <> Some 1 \/ In axis (f_data_axes f) ->
  insert_dimension_body axis position f = (f, Raise ValueError).
Proof.
  intros Hd H. unfold insert_dimension_body, get_data_axes. monad_unfold.
  destruct (get_size axis (f_domain_axes f)) as [size|]; [|reflexivity].
  destruct (Nat.eqb_spec size 1) as [->|Hne]; cbn [negb]; [|reflexivity].
  rewrite Hd. destruct H as [H|H]; [congruence|].
  apply mem_string_In in H. rewrite H. reflexivity.
Qed.

(** X20. [Field.insert_dimension] raises a ValueError when the key is
    not that of a domain axis construct, when the domain axis does not
    have size 1, and when the data already spans the axis; the checks
    come first, so the field construct is left as it was, also when
    the operation is in place. *)
Theorem insert_dimension_rejects (V : Type) (f : Field V) (d : Data V)
  (axis : string) (position : nat) (inplace : bool) :
  f_data f = Some d ->
  get_size axis (f_domain_axes f) <> Some 1 \/ In axis (f_data_axes f) ->
  insert_dimension f axis position inplace = (f, Raise ValueError).
Proof.
  intros Hd H. unfold insert_dimension, inplace_enabled.
  rewrite (@insert_dimension_body_rejects V f d axis position Hd H).
  destruct inplace; reflexivity.
Qed.

Lemma insert_dimension_rejects_witness :
  insert_dimension docstring_field "domainaxis1" 0 true
  = (docstring_field, Raise ValueError).
Proof.
  apply (@insert_dimension_rejects nat docstring_field docstring_data
           "domainaxis1" 0 true).
  - reflexivity.
  - left. simpl. discriminate.
Defined.

Lemma Forall2_list_insert (A B : Type) (R : A -> B -> Prop) (x : A) (y : B) :
  forall (l1 : list A) (l2 : list B) (i : nat),
    Forall2 R l1 l2 -> R x y ->
    Forall2 R (list_insert i x l1) (list_insert i y l2).
Proof.
  intros l1 l2 i H Hxy. revert i.
  induction H as [|a b l1 l2 Hab H IH]; intros i.
  - unfold list_insert. rewrite !firstn_nil, !skipn_nil. cbn.
    constructor; [exact Hxy | constructor].
  - destruct i as [|i].
    + unfold list_insert. cbn. constructor; [exact Hxy|].
      constructor; assumption.
    + specialize (IH i). unfold list_insert in *. cbn.
      constructor; assumption.
Qed.

Lemma list_insert_nth (A : Type) (x : A) (l : list A) (i : nat) :
  i <= List.length l -> nth_error (list_insert i x l) i = Some x.
Proof.
  intros Hi. unfold list_insert.
  rewrite nth_error_app2 by (rewrite length_firstn; lia).
  rewrite length_firstn. replace (i - Nat.min i (List.length l)) with 0 by lia.
  reflexivity.
Qed.

Lemma insert_dimension_ok (V : Type) (f : Field V) (d : Data V)
  (values : list (option V)) (axis : string) (position : nat) :
  f_data f = Some d ->
  data_array d = Return values ->
  get_size axis (f_domain_axes f) = Some 1 ->
  ~ In axis (f_data_axes f) ->
  position <= data_ndim d ->
  insert_dimension f axis position false
  = (f, Return (Some
       (set_data_axes
          (set_data f {| data_shape := list_insert position 1 (data_shape d);
                         data_source := NumpyArray values |})
          (list_insert position axis (f_data_axes f))))).
Proof.
  intros Hd Hv Hsize Hnew Hpos.
  unfold insert_dimension, inplace_enabled, insert_dimension_body,
    get_data_axes, on_data, data_insert_dimension.
  monad_unfold. rewrite Hsize. cbn [Nat.eqb negb]. rewrite Hd.
  apply mem_string_not_In in Hnew. rewrite Hnew. rewrite Hd.
  destruct (Nat.ltb_spec (data_ndim d) position) as [H|_]; [lia|].
  rewrite Hv. cbn [bind fst snd]. reflexivity.
Qed.

(** X21. For a field construct whose data axes fit its data, a domain
    axis of size 1 that the data does not span and a position up to the
    number of dimensions, [Field.insert_dimension] returns a field
    construct whose data axes and data shape both have the new entry at
    the position (the key there, the size 1 there) and are otherwise as
    before; the elements, the domain axes and the metadata constructs
    are unchanged and the data axes still fit the data. *)
Theorem insert_dimension_inserts (V : Type) (f : Field V) (d : Data V)
  (values : list (option V)) (axis : string) (position : nat) :
  f_data f = Some d ->
  data_array d = Return values ->
  axes_fit f ->
  get_size axis (f_domain_axes f) = Some 1 ->
  ~ In axis (f_data_axes f) ->
  position <= data_ndim d ->
  exists g d',
    insert_dimension f axis position false = (f, Return (Some g)) /\
    f_data g = Some d' /\
    f_data_axes g = list_insert position axis (f_data_axes f) /\
    data_shape d' = list_insert position 1 (data_shape d) /\
    nth_error (f_data_axes g) position = Some axis /\
    nth_error (data_shape d') position = Some 1 /\
    data_array d' = Return values /\
    f_domain_axes g = f_domain_axes f /\
    f_constructs g = f_constructs f /\
    axes_fit g.
Proof.
  intros Hd Hv Hfit Hsize Hnew Hpos.
  assert (Forall2 (fun key n => get_size key (f_domain_axes f) = Some n)
            (f_data_axes f) (data_shape d)) as HF
    by (unfold axes_fit in Hfit; rewrite Hd in Hfit; exact Hfit).
  assert (List.length (f_data_axes f) = data_ndim d) as Hlen
    by (apply (Forall2_length HF)).
  eexists _, _.
  split; [apply (@insert_dimension_ok V f d values axis position
                   Hd Hv Hsize Hnew Hpos)|].
  cbn [f_data f_data_axes f_domain_axes f_constructs set_data_axes set_data
       data_shape data_array data_source].
  split; [reflexivity|]. split; [reflexivity|]. split; [reflexivity|].
  split; [apply list_insert_nth; lia|].
  split; [apply list_insert_nth; exact Hpos|].
  split; [reflexivity|]. split; [reflexivity|]. split; [reflexivity|].
  unfold axes_fit. cbn [f_data f_data_axes f_domain_axes data_shape].
  apply Forall2_list_insert; assumption.
Qed.

(** The positions of the dimensions of size 1. *)
Lemma unit_positions_In (shape : list nat) (i : nat) :
  existsb (Nat.eqb i)
    (map fst (filter (fun p => snd p =? 1)
                (combine (seq 0 (List.length shape)) shape)))
  = match nth_error shape i with
    | Some n => n =? 1
    | None => false
    end.
Proof.
  change (map fst (filter (fun p => snd p =? 1)
                     (combine (seq 0 (List.length shape)) shape)))
    with (np_where_eq shape 1).
  destruct (existsb (Nat.eqb i) (np_where_eq shape 1)) eqn:E.
  - apply existsb_exists in E. destruct E as (j & Hj & Ej).
    apply Nat.eqb_eq in Ej. subst j. apply np_where_eq_In in Hj.
    rewrite Hj. reflexivity.
  - destruct (nth_error shape i) as [n|] eqn:En; [|reflexivity].
    destruct (Nat.eqb_spec n 1) as [->|]; [|reflexivity].
    apply np_where_eq_In in En.
    assert (existsb (Nat.eqb i) (np_where_eq shape 1) = true)
      by (apply existsb_exists; exists i; split;
          [exact En | apply Nat.eqb_refl]).
    congruence.
Qed.

Lemma squeeze_shape (iaxes_of : nat -> bool) (q : nat -> bool) :
  forall (shape : list nat) (a : nat),
    (forall j n, nth_error shape j = Some n -> iaxes_of (a + j) = q n) ->
    map snd (filter (fun p => iaxes_of (fst p))
               (combine (seq a (List.length shape)) shape))
    = filter q shape.
Proof.
  induction shape as [|n shape IH]; intros a H; [reflexivity|].
  cbn [List.length seq combine filter fst snd].
  rewrite <- (H 0 n eq_refl), Nat.add_0_r.
  assert (map snd (filter (fun p => iaxes_of (fst p))
                     (combine (seq (S a) (List.length shape)) shape))
          = filter q shape) as E.
  { apply IH. intros j m Hj. rewrite <- (H (S j) m Hj). f_equal. lia. }
  destruct (iaxes_of a); cbn [map snd]; rewrite E; reflexivity.
Qed.

Lemma squeeze_axes (A : Type) (kept : nat -> bool) (q : nat -> bool) :
  forall (keys : list A) (shape : list nat) (pre : list A),
    List.length keys = List.length shape ->
    (forall j n, nth_error shape j = Some n ->
                 kept (List.length pre + j) = q n) ->
    mapM (getitem (pre ++ keys))
      (filter kept (seq (List.length pre) (List.length keys)))
    = Return (map fst (filter (fun p => q (snd p)) (combine keys shape))).
Proof.
  induction keys as [|k keys IH]; intros shape pre Hlen H.
  - reflexivity.
  - destruct shape as [|n shape]; [discriminate|].
    cbn [List.length seq filter combine snd].
    rewrite <- (H 0 n eq_refl), Nat.add_0_r.
    assert (mapM (getitem (pre ++ k :: keys))
              (filter kept (seq (S (List.length pre)) (List.length keys)))
            = Return (map fst (filter (fun p => q (snd p))
                                 (combine keys shape)))) as E.
    { specialize (IH shape (pre ++ [k])).
      rewrite <- app_assoc, length_app, Nat.add_1_r in IH. cbn [app] in IH.
      apply IH; [simpl in Hlen; lia|].
      intros j m Hj. rewrite <- (H (S j) m Hj). f_equal. lia. }
    destruct (kept (List.length pre)); [|exact E].
    cbn [mapM]. unfold getitem at 1.
    rewrite nth_error_app2, Nat.sub_diag by lia. cbn [nth_error bind].
    rewrite E. reflexivity.
Qed.

Lemma combine_fst_snd (A B : Type) (l : list (A * B)) :
  combine (map fst l) (map snd l) = l.
Proof.
  induction l as [|[a b] l IH]; simpl; [reflexivity|]. rewrite IH. reflexivity.
Qed.

Lemma map_snd_filter_combine (A : Type) (q : nat -> bool) :
  forall (keys : list A) (shape : list nat),
    List.length keys = List.length shape ->
    map snd (filter (fun p => q (snd p)) (combine keys shape))
    = filter q shape.
Proof.
  induction keys as [|k keys IH]; intros [|n shape] Hlen; try discriminate;
    [reflexivity|].
  cbn [combine filter snd]. destruct (q n); cbn [map snd];
    rewrite IH by (simpl in Hlen; lia); reflexivity.
Qed.

Lemma Forall2_combine (A B : Type) (R : A -> B -> Prop) (l1 : list A)
  (l2 : list B) :
  Forall2 R l1 l2 -> Forall (fun p => R (fst p) (snd p)) (combine l1 l2).
Proof.
  induction 1; cbn; constructor; assumption.
Qed.

Lemma Forall2_fst_snd (A B : Type) (R : A -> B -> Prop) (l : list (A * B)) :
  Forall (fun p => R (fst p) (snd p)) l -> Forall2 R (map fst l) (map snd l).
Proof.
  induction 1; cbn; constructor; assumption.
Qed.

Lemma squeeze_body_default (V : Type) (f : Field V) (d : Data V)
  (values : list (option V)) :
  f_data f = Some d ->
  data_array d = Return values ->
  List.length (f_data_axes f) = List.length (data_shape d) ->
  squeeze_body None f
  = (set_data_axes
       (set_data f
          {| data_shape := filter (fun n => negb (n =? 1)) (data_shape d);
             data_source := NumpyArray values |})
       (map fst (filter (fun p => negb (snd p =? 1))
                   (combine (f_data_axes f) (data_shape d)))),
     Return tt).
Proof.
  intros Hd Hv Hlen.
  unfold squeeze_body, get_data_axes, on_data, data_squeeze, field_data.
  monad_unfold. rewrite Hd. cbn [fst snd]. rewrite Hd.
  unfold data_ndim.
  set (iaxes := map fst (filter (fun p => snd p =? 1)
                           (combine (seq 0 (List.length (data_shape d)))
                              (data_shape d)))).
  pose proof (@squeeze_axes string
                (fun i => negb (existsb (Nat.eqb i) iaxes))
                (fun n => negb (n =? 1))
                (f_data_axes f) (data_shape d) [] Hlen) as Hax.
  cbn [List.length app Nat.add] in Hax. rewrite Hlen in Hax.
  rewrite Hax.
  2:{ intros j n Hj. unfold iaxes. rewrite unit_positions_In, Hj.
      reflexivity. }
  cbn [fst snd].
  assert (forallb (fun i => nth i (data_shape d) 0 =? 1) iaxes = true) as ->.
  { apply forallb_forall. intros i Hi.
    change iaxes with (np_where_eq (data_shape d) 1) in Hi.
    apply np_where_eq_In in Hi. rewrite (nth_error_nth _ _ 0 Hi).
    reflexivity. }
  rewrite Hv. cbn [bind fst snd].
  rewrite (squeeze_shape (fun i => negb (existsb (Nat.eqb i) iaxes))
             (fun n => negb (n =? 1)) (data_shape d) 0).
  2:{ intros j n Hj. unfold iaxes. cbn [Nat.add].
      rewrite unit_positions_In, Hj. reflexivity. }
  reflexivity.
Qed.

Lemma filter_idem (A : Type) (q : A -> bool) (l : list A) :
  filter q (filter q l) = filter q l.
Proof.
  apply filter_all. intros x Hx. apply filter_In in Hx. tauto.
Qed.

Lemma fit_after_squeeze (V : Type) (f : Field V) (d : Data V) :
  f_data f = Some d -> axes_fit f ->
  List.length (f_data_axes f) = List.length (data_shape d) /\
  Forall2 (fun key n => get_size key (f_domain_axes f) = Some n)
    (map fst (filter (fun p => negb (snd p =? 1))
                (combine (f_data_axes f) (data_shape d))))
    (filter (fun n => negb (n =? 1)) (data_shape d)).
Proof.
  intros Hd Hfit. unfold axes_fit in Hfit. rewrite Hd in Hfit.
  pose proof (Forall2_length Hfit) as Hlen. split; [exact Hlen|].
  rewrite <- (map_snd_filter_combine (fun n => negb (n =? 1))
                (f_data_axes f) (data_shape d) Hlen).
  apply Forall2_fst_snd.
  apply Forall_forall. intros p Hp. apply filter_In in Hp.
  destruct Hp as [Hp _].
  pose proof (Forall2_combine Hfit) as Hall. rewrite Forall_forall in Hall.
  apply (Hall p Hp).
Qed.

(** X22. For a field construct whose data axes fit its data,
    [Field.squeeze()] returns a field construct that keeps exactly the
    dimensions whose size is not 1, each with its data axis, in their
    order: no dimension of size 1 is left, the elements and the domain
    axes are unchanged, the data axes still fit the data, and squeezing
    once more changes nothing. *)
Theorem squeeze_drops_unit_axes (V : Type) (f : Field V) (d : Data V)
  (values : list (option V)) :
  f_data f = Some d ->
  data_array d = Return values ->
  axes_fit f ->
  exists g d',
    squeeze f None false = (f, Return (Some g)) /\
    f_data g = Some d' /\
    data_shape d' = filter (fun n => negb (n =? 1)) (data_shape d) /\
    combine (f_data_axes g) (data_shape d')
    = filter (fun p => negb (snd p =? 1))
        (combine (f_data_axes f) (data_shape d)) /\
    Forall (fun n => n <> 1) (data_shape d') /\
    data_array d' = Return values /\
    f_domain_axes g = f_domain_axes f /\
    f_constructs g = f_constructs f /\
    axes_fit g /\
    squeeze g None false = (g, Return (Some g)).
Proof.
  intros Hd Hv Hfit.
  destruct (fit_after_squeeze f Hd Hfit) as (Hlen & HF).
  pose proof (squeeze_body_default f Hd Hv Hlen) as Hb.
  set (shape' := filter (fun n => negb (n =? 1)) (data_shape d)) in *.
  set (L := filter (fun p => negb (snd p =? 1))
              (combine (f_data_axes f) (data_shape d))) in *.
  set (d' := {| data_shape := shape'; data_source := NumpyArray values |}) in *.
  set (g := set_data_axes (set_data f d') (map fst L)) in *.
  assert (map snd L = shape') as HL
    by (exact (map_snd_filter_combine (fun n => negb (n =? 1))
                 (f_data_axes f) (data_shape d) Hlen)).
  exists g, d'.
  split; [unfold squeeze, inplace_enabled; rewrite Hb; reflexivity|].
  split; [reflexivity|]. split; [reflexivity|].
  split; [cbn [g f_data_axes set_data_axes data_shape d'];
          rewrite <- HL; apply combine_fst_snd|].
  split.
  { apply Forall_forall. intros n Hn. apply filter_In in Hn.
    destruct Hn as [_ Hn]. destruct (Nat.eqb_spec n 1); [discriminate|].
    assumption. }
  split; [reflexivity|]. split; [reflexivity|]. split; [reflexivity|].
  split; [exact HF|].
  assert (f_data g = Some d') as Hgd by reflexivity.
  assert (data_array d' = Return values) as Hgv by reflexivity.
  assert (List.length (f_data_axes g) = List.length (data_shape d')) as Hgl.
  { cbn [g f_data_axes set_data_axes data_shape d']. rewrite <- HL.
    rewrite !length_map. reflexivity. }
  pose proof (squeeze_body_default g Hgd Hgv Hgl) as Hb2.
  unfold squeeze, inplace_enabled. rewrite Hb2.
  cbn [g f_data_axes set_data_axes data_shape d'] in *.
  assert (combine (map fst L) shape' = L) as Hc
    by (rewrite <- HL; apply combine_fst_snd).
  rewrite Hc. unfold L at 1. rewrite filter_idem. fold L.
  unfold shape' at 1. rewrite filter_idem. fold shape'. fold d'.
  reflexivity.
Qed.

Lemma squeeze_drops_unit_axes_witness :
  exists g d',
    squeeze unit_axes_field None false = (unit_axes_field, Return (Some g)) /\
    f_data g = Some d' /\
    data_shape d' = filter (fun n => negb (n =? 1)) [1; 2; 1; 3] /\
    combine (f_data_axes g) (data_shape d')
    = filter (fun p => negb (snd p =? 1))
        (combine (f_data_axes unit_axes_field) [1; 2; 1; 3]) /\
    Forall (fun n => n <> 1) (data_shape d') /\
    data_array d' = Return (map Some (seq 0 6)) /\
    f_domain_axes g = f_domain_axes unit_axes_field /\
    f_constructs g = f_constructs unit_axes_field /\
    axes_fit g /\
    squeeze g None false = (g, Return (Some g)).
Proof.
  apply (@squeeze_drops_unit_axes nat unit_axes_field
           {| data_shape := [1; 2; 1; 3];
              data_source := NumpyArray (map Some (seq 0 6)) |}
           (map Some (seq 0 6))).
  - reflexivity.
  - reflexivity.
  - unfold axes_fit. simpl. repeat constructor.
Defined.

Lemma insert_dimension_inserts_witness :
  exists g d',
    insert_dimension scalar_axis_field "domainaxis2" 1 false
    = (scalar_axis_field, Return (Some g)) /\
    f_data g = Some d' /\
    f_data_axes g
    = list_insert 1 "domainaxis2"%string (f_data_axes scalar_axis_field) /\
    data_shape d' = list_insert 1 1 [2; 3] /\
    nth_error (f_data_axes g) 1 = Some "domainaxis2"%string /\
    nth_error (data_shape d') 1 = Some 1 /\
    data_array d' = Return (map Some (seq 0 6)) /\
    f_domain_axes g = f_domain_axes scalar_axis_field /\
    f_constructs g = f_constructs scalar_axis_field /\
    axes_fit g.
Proof.
  apply (@insert_dimension_inserts nat scalar_axis_field
           {| data_shape := [2; 3];
              data_source := NumpyArray (map Some (seq 0 6)) |}
           (map Some (seq 0 6)) "domainaxis2" 1).
  - reflexivity.
  - reflexivity.
  - unfold axes_fit. simpl. repeat constructor.
  - reflexivity.
  - simpl. intuition discriminate.
  - unfold data_ndim. simpl. lia.
Defined.

Lemma combine_list_insert (A B : Type) (x : A) (y : B) :
  forall (l1 : list A) (l2 : list B) (i : nat),
    List.length l1 = List.length l2 ->
    combine (list_insert i x l1) (list_insert i y l2)
    = list_insert i (x, y) (combine l1 l2).
Proof.
  induction l1 as [|a l1 IH]; intros [|b l2] i Hlen; try discriminate.
  - unfold list_insert. rewrite !firstn_nil, !skipn_nil. reflexivity.
  - destruct i as [|i]; [reflexivity|].
    specialize (IH l2 i ltac:(simpl in Hlen; lia)).
    unfold list_insert in *. cbn. rewrite IH. reflexivity.
Qed.

Lemma map_fst_combine (A B : Type) (l1 : list A) (l2 : list B) :
  List.length l1 = List.length l2 -> map fst (combine l1 l2) = l1.
Proof.
  revert l2. induction l1 as [|a l1 IH]; intros [|b l2] H; try discriminate;
    [reflexivity|].
  cbn. rewrite IH by (simpl in H; lia). reflexivity.
Qed.

(** X23. [Field.squeeze()] undoes [Field.insert_dimension]: for a field
    construct with uncompressed data without dimensions of size 1,
    inserting a size 1 axis at any position up to the number of
    dimensions and squeezing the result gives back the field
    construct. *)
Theorem squeeze_inverts_insert_dimension (V : Type) (f : Field V)
  (shape : list nat) (values : list (option V)) (axis : string)
  (position : nat) :
  f_data f = Some {| data_shape := shape; data_source := NumpyArray values |} ->
  axes_fit f ->
  Forall (fun n => n <> 1) shape ->
  get_size axis (f_domain_axes f) = Some 1 ->
  ~ In axis (f_data_axes f) ->
  position <= List.length shape ->
  exists g,
    insert_dimension f axis position false = (f, Return (Some g)) /\
    squeeze g None false = (g, Return (Some f)).
Proof.
  intros Hd Hfit Hshape Hsize Hnew Hpos.
  assert (List.length (f_data_axes f) = List.length shape) as Hlen.
  { unfold axes_fit in Hfit. rewrite Hd in Hfit.
    apply (Forall2_length Hfit). }
  set (d' := {| data_shape := list_insert position 1 shape;
                data_source := NumpyArray values |}).
  set (g := set_data_axes (set_data f d')
              (list_insert position axis (f_data_axes f))).
  exists g.
  split; [apply (@insert_dimension_ok V f _ values axis position
                   Hd eq_refl Hsize Hnew Hpos)|].
  assert (f_data g = Some d') as Hgd by reflexivity.
  assert (data_array d' = Return values) as Hgv by reflexivity.
  assert (List.length (f_data_axes g) = List.length (data_shape d')) as Hgl.
  { cbn [g f_data_axes set_data_axes data_shape d']. unfold list_insert.
    rewrite !length_app. cbn [List.length].
    rewrite !length_firstn, !length_skipn, Hlen. reflexivity. }
  pose proof (squeeze_body_default g Hgd Hgv Hgl) as Hb.
  unfold squeeze, inplace_enabled. rewrite Hb. clear Hb.
  cbn [g f_data_axes set_data_axes data_shape d'].
  assert (forall n, In n shape -> negb (n =? 1) = true) as Hne.
  { intros n Hn. rewrite Forall_forall in Hshape. specialize (Hshape n Hn).
    destruct (Nat.eqb_spec n 1); [contradiction | reflexivity]. }
  rewrite (list_insert_filter (fun n => negb (n =? 1)) position 1 shape eq_refl).
  rewrite (filter_all _ _ Hne).
  rewrite (combine_list_insert axis 1 (f_data_axes f) shape position Hlen).
  rewrite (list_insert_filter (fun p : string * nat => negb (snd p =? 1))
             position (axis, 1) (combine (f_data_axes f) shape) eq_refl).
  rewrite filter_all.
  2:{ intros [k n] Hp. apply Hne. apply in_combine_r in Hp. exact Hp. }
  rewrite (map_fst_combine _ _ Hlen).
  destruct f as [fd fa fdom fc]. cbn in Hd. subst fd. reflexivity.
Qed.

Lemma squeeze_inverts_insert_dimension_witness :
  exists g,
    insert_dimension scalar_axis_field "domainaxis2" 1 false
    = (scalar_axis_field, Return (Some g)) /\
    squeeze g None false = (g, Return (Some scalar_axis_field)).
Proof.
  apply (@squeeze_inverts_insert_dimension nat scalar_axis_field [2; 3]
           (map Some (seq 0 6)) "domainaxis2" 1).
  - reflexivity.
  - unfold axes_fit. simpl. repeat constructor.
  - repeat constructor; lia.
  - reflexivity.
  - simpl. intuition discriminate.
  - simpl. lia.
Defined.

(** ** Linear interpolation between two tie points *)

Local Open Scope R_scope.

Lemma linear_interpolation_nth (ua ub : R) (size k : nat) :
  (k < size)%nat ->
  nth k (linear_interpolation ua ub size true) 0
  = ua * (1 - INR k / INR (size - 1)) + ub * (INR k / INR (size - 1)).
Proof.
  intros Hk. rewrite linear_interpolation_values.
  apply nth_error_nth. rewrite nth_error_map, nth_error_seq_lt by exact Hk.
  reflexivity.
Qed.

(** X24. [_linear_interpolation] joins the two tie point values by a
    straight line: for a subarea of at least two positions that starts
    a continuous area, the value at position k is
    ua + (ub - ua) k / (size - 1), so that the first value is [ua], the
    last is [ub] and every value lies between them; for a subarea that
    continues an area the first value is left out, the value at
    position k being the one at k + 1, and size - 1 values are
    returned. *)
Theorem linear_interpolation_between (ua ub : R) (size k : nat) :
  (2 <= size)%nat -> (k < size)%nat ->
  nth k (linear_interpolation ua ub size true) 0
  = ua + (ub - ua) * (INR k / INR (size - 1)) /\
  Rmin ua ub <= nth k (linear_interpolation ua ub size true) 0 <= Rmax ua ub /\
  nth 0 (linear_interpolation ua ub size true) 0 = ua /\
  nth (size - 1) (linear_interpolation ua ub size true) 0 = ub /\
  nth k (linear_interpolation ua ub size false) 0
  = nth (S k) (linear_interpolation ua ub size true) 0 /\
  List.length (linear_interpolation ua ub size false) = (size - 1)%nat.
Proof.
  intros Hs Hk.
  assert (0 < INR (size - 1)) as Hpos by (apply lt_0_INR; lia).
  assert (0 <= INR k / INR (size - 1) <= 1) as [Ht0 Ht1].
  { split.
    - apply Rmult_le_pos; [apply pos_INR | left; apply Rinv_0_lt_compat; exact Hpos].
    - apply (Rmult_le_reg_r (INR (size - 1))); [exact Hpos|].
      unfold Rdiv. rewrite Rmult_assoc, Rinv_l, Rmult_1_r, Rmult_1_l by lra.
      apply le_INR. lia. }
  rewrite !linear_interpolation_nth by lia.
  set (t := INR k / INR (size - 1)) in *.
  split; [ring|]. split.
  { unfold Rmin, Rmax. destruct (Rle_dec ua ub); split; nra. }
  split; [simpl; unfold Rdiv; ring|].
  split; [unfold Rdiv; rewrite Rinv_r by lra; ring|].
  split.
  - rewrite linear_interpolation_drop.
    destruct (linear_interpolation ua ub size true) as [|x l]; [|reflexivity].
    destruct k; reflexivity.
  - rewrite linear_interpolation_length. reflexivity.
Qed.

Lemma linear_interpolation_between_witness :
  nth 2 (linear_interpolation 15 135 5 true) 0
  = 15 + (135 - 15) * (INR 2 / INR (5 - 1)) /\
  Rmin 15 135 <= nth 2 (linear_interpolation 15 135 5 true) 0 <= Rmax 15 135 /\
  nth 0 (linear_interpolation 15 135 5 true) 0 = 15 /\
  nth (5 - 1) (linear_interpolation 15 135 5 true) 0 = 135 /\
  nth 2 (linear_interpolation 15 135 5 false) 0
  = nth 3 (linear_interpolation 15 135 5 true) 0 /\
  List.length (linear_interpolation 15 135 5 false) = (5 - 1)%nat.
Proof.
  apply (@linear_interpolation_between 15 135 5 2); lia.
Defined.
Local Close Scope R_scope.

(** ** Uncompression of a field construct *)

Lemma setitem_app (A : Type) (pre : list A) (a b : A) (rest : list A) :
  setitem (pre ++ a :: rest) (List.length pre) b = Return (pre ++ b :: rest).
Proof.
  induction pre as [|x pre IH]; cbn [setitem List.length app]; [reflexivity|].
  rewrite IH. reflexivity.
Qed.

Lemma getitem_app (A : Type) (pre : list A) (a : A) (rest : list A) :
  getitem (pre ++ a :: rest) (List.length pre) = Return a.
Proof.
  unfold getitem. rewrite nth_error_app2, Nat.sub_diag by lia. reflexivity.
Qed.

Lemma set_constructs_same (V : Type) (f : Field V) :
  set_constructs f (f_constructs f) = f.
Proof. destruct f; reflexivity. Qed.

Lemma for_each_uncompress (V : Type) (rest : list (string * Construct V)) :
  forall (pre : list (string * Construct V)) (f : Field V),
    f_constructs f = pre ++ rest ->
    match mapM (@uncompress_entry V) rest with
    | Return rest' =>
        for_each (seq (List.length pre) (List.length rest))
          (@uncompress_construct V) f
        = (set_constructs f (pre ++ rest'), Return tt)
    | Raise e =>
        exists f',
          for_each (seq (List.length pre) (List.length rest))
            (@uncompress_construct V) f = (f', Raise e)
    end.
Proof.
  induction rest as [|kc rest IH]; intros pre f Hc.
  - cbn [mapM List.length seq for_each]. unfold mret.
    rewrite <- Hc, set_constructs_same. reflexivity.
  - assert (uncompress_construct (List.length pre) f
            = match uncompress_entry kc with
              | Return new => (set_constructs f (pre ++ new :: rest), Return tt)
              | Raise e => (f, Raise e)
              end) as Hstep.
    { unfold uncompress_construct, uncompress_entry. monad_unfold.
      rewrite Hc, getitem_app.
      destruct (c_data (snd kc)) as [data|].
      - destruct (data_uncompress data) as [data'|e]; cbn [bind fst snd];
          [rewrite setitem_app|]; reflexivity.
      - unfold mret. rewrite <- Hc, set_constructs_same. reflexivity. }
    cbn [mapM List.length seq for_each]. unfold mbind. rewrite Hstep.
    destruct (uncompress_entry kc) as [new|e]; cbn [bind];
      [|eexists; reflexivity].
    specialize (IH (pre ++ [new]) (set_constructs f (pre ++ new :: rest))).
    rewrite length_app, Nat.add_1_r in IH.
    cbn [f_constructs set_constructs] in IH.
    rewrite <- app_assoc in IH. specialize (IH eq_refl).
    destruct (mapM (@uncompress_entry V) rest) as [rest'|e]; cbn [bind].
    + rewrite IH. rewrite <- app_assoc. reflexivity.
    + exact IH.
Qed.

Lemma data_uncompress_result (V : Type) (d d' : Data V) :
  data_uncompress d = Return d' ->
  get_compression_type d' = EmptyString /\
  data_shape d' = data_shape d /\
  data_array d' = data_array d /\
  data_uncompress d' = Return d'.
Proof.
  unfold data_uncompress. intros H.
  destruct (data_source d) eqn:Es;
    try (destruct (data_array d) as [values|e] eqn:Ev; cbn [bind] in H;
         [|discriminate]; apply Return_inj in H; subst d';
         unfold get_compression_type, data_array; cbn; auto).
  apply Return_inj in H. subst d'.
  unfold get_compression_type. rewrite Es. auto.
Qed.

Lemma uncompress_entries (V : Type) (l : list (string * Construct V)) :
  forall l',
    mapM (@uncompress_entry V) l = Return l' ->
    map fst l' = map fst l /\
    map (fun kc => c_axes (snd kc)) l' = map (fun kc => c_axes (snd kc)) l /\
    Forall (fun kc => forall d, c_data (snd kc) = Some d ->
                                get_compression_type d = EmptyString) l' /\
    mapM (@uncompress_entry V) l' = Return l'.
Proof.
  induction l as [|kc l IH]; intros l' H; cbn [mapM] in H.
  - apply Return_inj in H. subst l'. repeat split. constructor.
  - destruct (uncompress_entry kc) as [kc'|e] eqn:Ek; cbn [bind] in H;
      [|discriminate].
    destruct (mapM (@uncompress_entry V) l) as [t|e]; cbn [bind] in H;
      [|discriminate].
    apply Return_inj in H. subst l'.
    destruct (IH t eq_refl) as (H1 & H2 & H3 & H4).
    assert (fst kc' = fst kc /\ c_axes (snd kc') = c_axes (snd kc) /\
            (forall d, c_data (snd kc') = Some d ->
                       get_compression_type d = EmptyString) /\
            uncompress_entry kc' = Return kc') as (K1 & K2 & K3 & K4).
    { unfold uncompress_entry in Ek.
      destruct (c_data (snd kc)) as [data|] eqn:Ed.
      - destruct (data_uncompress data) as [data'|e] eqn:Eu; cbn [bind] in Ek;
          [|discriminate].
        apply Return_inj in Ek. subst kc'. cbn [fst snd c_axes c_data].
        destruct (data_uncompress_result _ Eu) as (R1 & _ & _ & R4).
        split; [reflexivity|]. split; [reflexivity|]. split.
        + intros d Hd. injection Hd as <-. exact R1.
        + unfold uncompress_entry. cbn [fst snd c_axes c_data].
          rewrite R4. reflexivity.
      - apply Return_inj in Ek. subst kc'.
        split; [reflexivity|]. split; [reflexivity|]. split.
        + intros d Hd. congruence.
        + unfold uncompress_entry. rewrite Ed. reflexivity. }
    cbn [map mapM]. rewrite K1, K2, H1, H2, K4, H4. cbn [bind].
    split; [reflexivity|]. split; [reflexivity|].
    split; [constructor; assumption | reflexivity].
Qed.

Lemma uncompress_body_result (V : Type) (f : Field V) :
  match (match f_data f with
         | Some d => d' <- data_uncompress d ;; Return (Some d')
         | None => Return None
         end),
        mapM (@uncompress_entry V) (f_constructs f) with
  | Return od, Return cs =>
      uncompress_body f
      = ({| f_data := od;
            f_data_axes := f_data_axes f;
            f_domain_axes := f_domain_axes f;
            f_constructs := cs |}, Return tt)
  | _, _ => exists f' e, uncompress_body f = (f', Raise e)
  end.
Proof.
  unfold uncompress_body. monad_unfold.
  destruct (f_data f) as [d|] eqn:Ed.
  - destruct (data_uncompress d) as [d'|e]; cbn [bind fst snd].
    + pose proof (for_each_uncompress (f_constructs f) [] (set_data f d')
                    eq_refl) as H.
      cbn [List.length app] in H.
      destruct (mapM (@uncompress_entry V) (f_constructs f)) as [cs|e].
      * rewrite H. reflexivity.
      * destruct H as (f' & H). rewrite H. eexists _, _. reflexivity.
    + eexists _, _. reflexivity.
  - unfold mret.
    pose proof (for_each_uncompress (f_constructs f) [] f eq_refl) as H.
    cbn [List.length app] in H.
    destruct (mapM (@uncompress_entry V) (f_constructs f)) as [cs|e].
    + rewrite H. unfold set_constructs. rewrite Ed. reflexivity.
    + destruct H as (f' & H). rewrite H. eexists _, _. reflexivity.
Qed.

(** X25. When [Field.uncompress] returns a field construct, neither its
    data nor the data of any of its metadata constructs is compressed;
    the data has the shape and the elements it had, the keys and the
    axes of the metadata constructs, the data axes and the domain axes
    are those of the original, and uncompressing once more changes
    nothing. *)
Theorem uncompress_uncompresses (V : Type) (f g : Field V) :
  uncompress f false = (f, Return (Some g)) ->
  (forall d, f_data g = Some d -> get_compression_type d = EmptyString) /\
  Forall (fun kc => forall d, c_data (snd kc) = Some d ->
                              get_compression_type d = EmptyString)
    (f_constructs g) /\
  (forall d, f_data f = Some d ->
     exists d', f_data g = Some d' /\ data_shape d' = data_shape d
                /\ data_array d' = data_array d) /\
  (f_data f = None -> f_data g = None) /\
  map fst (f_constructs g) = map fst (f_constructs f) /\
  map (fun kc => c_axes (snd kc)) (f_constructs g)
  = map (fun kc => c_axes (snd kc)) (f_constructs f) /\
  f_data_axes g = f_data_axes f /\
  f_domain_axes g = f_domain_axes f /\
  uncompress g false = (g, Return (Some g)).
Proof.
  unfold uncompress, inplace_enabled. intros H.
  pose proof (uncompress_body_result f) as Hb.
  destruct (f_data f) as [d|] eqn:Ed.
  - destruct (data_uncompress d) as [d'|e] eqn:Eu; cbn [bind] in Hb.
    + destruct (mapM (@uncompress_entry V) (f_constructs f)) as [cs|e] eqn:Em.
      * rewrite Hb in H. apply pair_equal_spec in H. destruct H as [_ H].
        apply Return_inj in H. injection H as <-.
        cbn [f_data f_data_axes f_domain_axes f_constructs].
        destruct (data_uncompress_result _ Eu) as (R1 & R2 & R3 & R4).
        destruct (uncompress_entries _ Em) as (K1 & K2 & K3 & K4).
        split; [intros d0 Hd0; injection Hd0 as <-; exact R1|].
        split; [exact K3|].
        split; [intros d0 Hd0; injection Hd0 as <-; exists d'; auto|].
        split; [discriminate|].
        split; [exact K1|]. split; [exact K2|].
        split; [reflexivity|]. split; [reflexivity|].
        match goal with
        | |- context [uncompress_body ?g] =>
            pose proof (uncompress_body_result g) as Hg
        end.
        cbn [f_data f_data_axes f_domain_axes f_constructs] in Hg.
        rewrite R4, K4 in Hg. cbn [bind] in Hg. rewrite Hg. reflexivity.
      * destruct Hb as (f' & e' & Hb). rewrite Hb in H. discriminate.
    + destruct Hb as (f' & e' & Hb). rewrite Hb in H. discriminate.
  - destruct (mapM (@uncompress_entry V) (f_constructs f)) as [cs|e] eqn:Em.
    + rewrite Hb in H. apply pair_equal_spec in H. destruct H as [_ H].
      apply Return_inj in H. injection H as <-.
      cbn [f_data f_data_axes f_domain_axes f_constructs].
      destruct (uncompress_entries _ Em) as (K1 & K2 & K3 & K4).
      split; [discriminate|]. split; [exact K3|].
      split; [discriminate|]. split; [reflexivity|].
      split; [exact K1|]. split; [exact K2|].
      split; [reflexivity|]. split; [reflexivity|].
      match goal with
      | |- context [uncompress_body ?g] =>
          pose proof (uncompress_body_result g) as Hg
      end.
      cbn [f_data f_data_axes f_domain_axes f_constructs] in Hg.
      rewrite K4 in Hg. rewrite Hg. reflexivity.
    + destruct Hb as (f' & e' & Hb). rewrite Hb in H. discriminate.
Qed.

Lemma uncompress_uncompresses_witness :
  (forall d, f_data empty_row_last = Some d ->
             get_compression_type d = EmptyString) /\
  Forall (fun kc : string * Construct nat =>
            forall d, c_data (snd kc) = Some d ->
                      get_compression_type d = EmptyString)
    (f_constructs empty_row_last) /\
  (forall d, f_data compressed_rows = Some d ->
     exists d', f_data empty_row_last = Some d'
                /\ data_shape d' = data_shape d
                /\ data_array d' = data_array d) /\
  (f_data compressed_rows = None -> f_data empty_row_last = None) /\
  map fst (f_constructs empty_row_last) = map fst (f_constructs compressed_rows) /\
  map (fun kc => c_axes (snd kc)) (f_constructs empty_row_last)
  = map (fun kc => c_axes (snd kc)) (f_constructs compressed_rows) /\
  f_data_axes empty_row_last = f_data_axes compressed_rows /\
  f_domain_axes empty_row_last = f_domain_axes compressed_rows /\
  uncompress empty_row_last false = (empty_row_last, Return (Some empty_row_last)).
Proof.
  apply (@uncompress_uncompresses nat compressed_rows empty_row_last).
  reflexivity.
Defined.

(** ** The layout of a compressed field construct *)

Lemma keeps_frame_bind (V A B : Type) (m : M V A) (k : A -> M V B) :
  keeps_frame m -> (forall a, keeps_frame (k a)) -> keeps_frame (mbind m k).
Proof.
  intros Hm Hk f. unfold mbind. specialize (Hm f).
  destruct (m f) as [f' [a|e]]; simpl in *.
  - rewrite Hk. exact Hm.
  - exact Hm.
Qed.

Lemma keeps_frame_for_each (V A : Type) (l : list A) (body : A -> M V unit) :
  (forall a, keeps_frame (body a)) -> keeps_frame (for_each l body).
Proof.
  intros Hb. induction l as [|a l IH]; simpl.
  - intros f. reflexivity.
  - apply keeps_frame_bind; [apply Hb | intros _; exact IH].
Qed.

Lemma keeps_frame_lift (V A : Type) (r : result A) :
  keeps_frame (@lift V A r).
Proof. intros f. reflexivity. Qed.

Lemma keeps_frame_mret (V A : Type) (a : A) : keeps_frame (@mret V A a).
Proof. intros f. reflexivity. Qed.

Lemma setitem_keys (A : Type) (l : list (string * A)) : forall i kc c l',
  getitem l i = Return kc ->
  setitem l i (fst kc, c) = Return l' ->
  map fst l' = map fst l.
Proof.
  induction l as [|x l IH]; intros i kc c l' Hg Hs; [discriminate|].
  destruct i as [|i]; cbn [setitem] in Hs.
  - unfold getitem in Hg. cbn in Hg. apply Return_inj in Hg. subst x.
    apply Return_inj in Hs. subst l'. reflexivity.
  - destruct (setitem l i (fst kc, c)) as [t|e] eqn:Et; cbn [bind] in Hs;
      [|discriminate].
    apply Return_inj in Hs. subst l'. cbn [map]. f_equal.
    apply (IH i kc c t); [|exact Et].
    unfold getitem in *. cbn in Hg. exact Hg.
Qed.

Lemma keeps_frame_transpose_construct (V : Type) (axes : list string)
  (i : nat) :
  keeps_frame (@transpose_construct V axes i).
Proof.
  intros f. unfold transpose_construct. monad_unfold.
  destruct (getitem (f_constructs f) i) as [kc|e] eqn:Eg; [|reflexivity].
  destruct (c_data (snd kc)) as [data|]; [|reflexivity].
  destruct (data_ndim data <? 2); [reflexivity|].
  destruct (mapM _ _) as [iaxes|e]; [|reflexivity].
  destruct (data_transpose iaxes data) as [data'|e]; [|reflexivity].
  destruct (setitem _ _ _) as [cs|e] eqn:Es; [|reflexivity].
  cbn [fst]. unfold frame. cbn [set_constructs f_data f_data_axes
                                f_domain_axes f_constructs].
  rewrite (@setitem_keys _ _ _ _ _ _ Eg Es). reflexivity.
Qed.

Lemma keeps_frame_compress_construct (V : Type) (method : string)
  (shape1 : nat) (count : list nat) (N : nat) (axes : list string)
  (Array_func : list (option V) -> source V) (i : nat) :
  keeps_frame (compress_construct method shape1 count N axes Array_func i).
Proof.
  intros f. unfold compress_construct. monad_unfold.
  destruct (getitem (f_constructs f) i) as [kc|e] eqn:Eg; [|reflexivity].
  destruct (list_eq_dec string_dec (c_axes (snd kc)) axes) as [Eax|Eax];
    [|reflexivity].
  destruct (c_data (snd kc)) as [data|]; [|reflexivity].
  destruct (flattened_rows data) as [rows|e1]; [|reflexivity].
  cbn [fst snd].
  destruct (if (method =? "indexed_contiguous")%string && (data_ndim data =? 2)
            then _ else _) as [cd|e2]; [|reflexivity].
  destruct (setitem _ _ _) as [cs|e3] eqn:Es; [|reflexivity].
  cbn [fst]. unfold frame. cbn [set_constructs f_data f_data_axes
                                f_domain_axes f_constructs].
  rewrite (@setitem_keys _ _ _ _ _ _ Eg Es). reflexivity.
Qed.

Lemma keeps_frame_compress_metadata (V : Type) (method : string)
  (count : list nat) (N : nat) (axes : list string)
  (Array_func : list (option V) -> source V) :
  keeps_frame (compress_metadata method count N axes Array_func).
Proof.
  intros f. unfold compress_metadata. unfold mbind at 1. unfold get at 1.
  unfold mbind at 1. unfold lift at 1.
  destruct (if (method =? "indexed_contiguous")%string then _ else _)
    as [shape1|e]; [|reflexivity].
  apply keeps_frame_for_each. intros i. apply keeps_frame_compress_construct.
Qed.

Lemma keeps_frame_set_CompressedArray (V : Type) (x : source V) :
  keeps_frame (set_CompressedArray x).
Proof.
  intros f. unfold set_CompressedArray, field_data. monad_unfold.
  unfold frame. destruct (f_data f) as [d|] eqn:Ed; cbn [fst];
    [|rewrite Ed; reflexivity].
  cbn [set_data f_data f_data_axes f_domain_axes f_constructs option_map
       data_shape]. reflexivity.
Qed.

Lemma keeps_frame_transpose_id (V : Type) (f : Field V) (d : Data V) :
  f_data f = Some d ->
  List.length (f_data_axes f) = data_ndim d ->
  frame (fst (transpose (Some (seq 0 (data_ndim d))) true f)) = frame f.
Proof.
  intros Hd Hlen. unfold transpose, field_data. monad_unfold.
  rewrite Hd. cbn [fst snd]. rewrite data_transpose_id.
  rewrite <- Hlen.
  pose proof (mapM_getitem_seq (f_data_axes f) []) as Hm. simpl in Hm.
  rewrite Hm.
  rewrite keeps_frame_for_each
    by (intros; apply keeps_frame_transpose_construct).
  unfold frame. cbn [set_data_axes set_data f_data f_data_axes f_domain_axes
                     f_constructs option_map]. rewrite Hd. reflexivity.
Qed.

Lemma keeps_frame_get (V : Type) : keeps_frame (@get V).
Proof. intros f. reflexivity. Qed.

Ltac keeps_frame_tac :=
  repeat first
    [ apply keeps_frame_lift
    | apply keeps_frame_mret
    | apply keeps_frame_get
    | apply keeps_frame_compress_metadata
    | apply keeps_frame_set_CompressedArray
    | apply keeps_frame_bind; [|intros ?]
    | match goal with
      | |- keeps_frame (if ?c then _ else _) => destruct c
      end ].

Lemma compress_body_keeps_frame (V : Type) (method : string) (f : Field V) :
  (forall d, f_data f = Some d -> List.length (f_data_axes f) = data_ndim d) ->
  frame (fst (compress_body method f)) = frame f.
Proof.
  intros Hlen. unfold compress_body. unfold mbind at 1. unfold get at 1.
  destruct (f_data f) as [d|] eqn:Hd; [|reflexivity].
  specialize (Hlen d eq_refl).
  destruct (negb _ && _); [reflexivity|].
  unfold mbind at 1. unfold lift at 1.
  destruct (check_ndim method (data_ndim d)); [|reflexivity].
  unfold mbind at 1.
  pose proof (keeps_frame_transpose_id f Hd Hlen) as Ht.
  destruct (transpose (Some (seq 0 (data_ndim d))) true f) as [f1 [[]|e]];
    cbn [fst] in Ht; [|exact Ht].
  rewrite <- Ht.
  match goal with
  | |- frame (fst (?m f1)) = _ => assert (keeps_frame m) as Hk
  end.
  { keeps_frame_tac. }
  apply Hk.
Qed.

(** X26. [Field.compress] does not alter the outward layout of the field
    construct: when it returns a field construct (for data axes that
    are as many as the dimensions of the data), the data axes, the
    domain axes, the keys of the metadata constructs and the shape of
    the data are those of the original, whatever metadata constructs
    were transposed and compressed on the way. *)
Theorem compress_keeps_frame (V : Type) (f g : Field V) (method : string) :
  (forall d, f_data f = Some d -> List.length (f_data_axes f) = data_ndim d) ->
  compress f method false = (f, Return (Some g)) ->
  f_data_axes g = f_data_axes f /\
  f_domain_axes g = f_domain_axes f /\
  map fst (f_constructs g) = map fst (f_constructs f) /\
  option_map (@data_shape V) (f_data g) = option_map (@data_shape V) (f_data f).
Proof.
  intros Hlen H. unfold compress, inplace_enabled in H.
  pose proof (compress_body_keeps_frame method f Hlen) as Hf.
  destruct (compress_body method f) as [f' [[]|e]]; [|discriminate].
  assert (f' = g) as <- by congruence.
  cbn [fst] in Hf. unfold frame in Hf.
  injection Hf as H1 H2 H3 H4. auto.
Qed.

Lemma compress_keeps_frame_witness :
  exists g,
    compress field_with_transposed_construct "contiguous" false
    = (field_with_transposed_construct, Return (Some g)) /\
    f_data_axes g = f_data_axes field_with_transposed_construct /\
    f_domain_axes g = f_domain_axes field_with_transposed_construct /\
    map fst (f_constructs g)
    = map fst (f_constructs field_with_transposed_construct) /\
    option_map (@data_shape nat) (f_data g)
    = option_map (@data_shape nat) (f_data field_with_transposed_construct).
Proof.
  eexists. split; [vm_compute; reflexivity|].
  apply (@compress_keeps_frame nat field_with_transposed_construct _
           "contiguous").
  - intros d Hd. injection Hd as <-. reflexivity.
  - vm_compute. reflexivity.
Defined.

(** ** The identity of a cell measure construct *)

Local Open Scope string_scope.

Lemma get_property_In (name v : string) (properties : list (string * string)) :
  get_property name properties = Some v -> In (name, v) properties.
Proof.
  induction properties as [|[k w] t IH]; cbn [get_property]; [discriminate|].
  destruct (String.eqb_spec k name) as [->|Hne].
  - intros H. injection H as ->. left. reflexivity.
  - intros H. right. apply IH. exact H.
Qed.

(** X27. The identity of a cell measure construct is the default only
    for want of anything else: when the construct has no measure, none
    of the properties standard_name, cf_role and long_name and no
    netCDF variable name, [identity] returns the default; otherwise its
    value does not depend on the default and is one of the identities
    that [identities] lists; and when the measure is set the identity
    is 'measure:' followed by the measure, which [identities] lists
    first. *)
Theorem identity_among_identities (c : CellMeasure) :
  (anonymous c = true -> forall default, identity c default = default) /\
  (anonymous c = false ->
   (forall d1 d2, identity c d1 = identity c d2) /\
   (forall default, In (identity c default) (identities c))) /\
  (forall n default, cm_measure c = Some n ->
     identity c default = "measure:" ++ n /\
     hd default (identities c) = identity c default).
Proof.
  unfold anonymous, identity, identities, properties_identities.
  destruct (cm_measure c) as [m|].
  - split; [discriminate|]. split.
    + intros _. split; [reflexivity|]. intros d. left. reflexivity.
    + intros n d H. injection H as <-. split; reflexivity.
  - split; [|split; [|discriminate]].
    + destruct (get_property "standard_name" (cm_properties c));
        [discriminate|].
      destruct (get_property "cf_role" (cm_properties c)); [discriminate|].
      destruct (get_property "long_name" (cm_properties c)); [discriminate|].
      destruct (cm_nc_variable c); [discriminate|]. reflexivity.
    + destruct (get_property "standard_name" (cm_properties c)) as [s|] eqn:Es.
      { intros _. split; [reflexivity|]. intros d. left. reflexivity. }
      cbn [app].
      destruct (get_property "cf_role" (cm_properties c)) as [r|] eqn:Er.
      { intros _. split; [reflexivity|]. intros d.
        apply in_or_app. left. apply get_property_In in Er.
        apply in_map_iff. exists ("cf_role", r). split; [reflexivity|exact Er]. }
      destruct (get_property "long_name" (cm_properties c)) as [l|] eqn:El.
      { intros _. split; [reflexivity|]. intros d.
        apply in_or_app. left. apply get_property_In in El.
        apply in_map_iff. exists ("long_name", l). split; [reflexivity|exact El]. }
      destruct (cm_nc_variable c) as [v|]; [|discriminate].
      intros _. split; [reflexivity|]. intros d.
      apply in_or_app. right. left. reflexivity.
Qed.
Local Close Scope string_scope.
